(** * BusTub: CLOCK replacer, buffer pool, page guards, B+tree

    A shallow embedding of the C++ sources
    - [buffer/clock_replacer.cpp],
    - [buffer/buffer_pool_manager.cpp],
    - [storage/page/page_guard.cpp],
    - [storage/page/b_plus_tree_leaf_page.cpp],
    - [storage/page/b_plus_tree_internal_page.cpp],
    - [storage/index/b_plus_tree.cpp],
    together with the properties that the design document states about
    them.  The first part holds the definitions, the second the proofs.

    Conventions.  C++ [int], [size_t], [frame_id_t] and [page_id_t] values
    are integers in [Z]; conversions that can wrap are written out, and
    sizes and indices of pages stay far below [2^31].  Raw arrays are lists
    indexed by [Z]; an access outside the array is undefined behaviour in
    C++ and is the failure [None] of the [option] monad here, as is a
    failing [assert] and the use of a null pointer, so [Some] means
    "defined behaviour, with this result".  The mutex of the replacer, the
    latches of the pages and the root latch of the tree do not change what
    a single thread computes; they are left out. *)

From Stdlib Require Import ZArith Lia Bool List.
From stdpp Require Import base option list gmap.

Local Open Scope Z_scope.

(** ** Undefined behaviour as an error monad *)

Notation "'do' x <- m ; k" :=
  (match m with Some x => k | None => None end)
  (at level 10, x pattern, m at level 100, k at level 200, only parsing).

(** ** Raw arrays *)

Section RawArray.
Context {A : Type}.

(** [a[i]] as an rvalue. *)
Definition arr_get (a : list A) (i : Z) : option A :=
  if i <? 0 then None else a !! Z.to_nat i.

(** [a[i] = x]. *)
Definition arr_set (a : list A) (i : Z) (x : A) : option (list A) :=
  if (0 <=? i) && (i <? Z.of_nat (length a))
  then Some (<[Z.to_nat i := x]> a) else None.

End RawArray.

(** ** Integer conversions *)

(** Conversion to [size_t] (64-bit unsigned). *)
Definition to_size_t (x : Z) : Z := x mod 2 ^ 64.

(** Conversion to [frame_id_t] (= [int32_t]). *)
Definition to_frame_id_t (x : Z) : Z := (x + 2 ^ 31) mod 2 ^ 32 - 2 ^ 31.

(** Conversion to [page_id_t] (= [int32_t]). *)
Definition to_page_id_t (x : Z) : Z := (x + 2 ^ 31) mod 2 ^ 32 - 2 ^ 31.

(** The largest [int]. *)
Definition INT_MAX : Z := 2 ^ 31 - 1.

(** [x++] on an [int]: signed overflow is undefined. *)
Definition int_incr (x : Z) : option Z :=
  if x <? INT_MAX then Some (x + 1) else None.

(** * The CLOCK replacer ([clock_replacer.cpp]) *)

Module Clock.

Definition frame_id_t := Z.

Record ClockReplacer := mkClock {
  num_pages_ : Z;          (* size_t *)
  pointer_ : Z;
  ref_flag_ : list bool    (* new bool[num_pages] *)
}.

(** [ClockReplacer::ClockReplacer(size_t num_pages)] *)
Definition new (num_pages : Z) : ClockReplacer :=
  {| num_pages_ := num_pages;
     pointer_ := 0;
     ref_flag_ := replicate (Z.to_nat num_pages) false |}.

(** [NextSlot]: [(slot + 1) % num_pages_].  The sum is converted to
    [size_t] for the division, the remainder back to [frame_id_t];
    division by zero is undefined. *)
Definition NextSlot (r : ClockReplacer) (slot : frame_id_t) : option frame_id_t :=
  if num_pages_ r =? 0 then None
  else Some (to_frame_id_t (to_size_t (slot + 1) mod num_pages_ r)).

(** The [for] loop of [Victim]: [n] iterations remain, [current] is the
    slot under the hand.  The result is the out-parameter ([None] for a
    [false] return) and the replacer after the call. *)
Fixpoint Victim_loop (n : nat) (r : ClockReplacer) (current : frame_id_t)
  : option (option frame_id_t * ClockReplacer) :=
  match n with
  | O => Some (None, r)
  | S n' =>
      do b <- arr_get (ref_flag_ r) current;
      if negb b then
        do next <- NextSlot r current;
        Victim_loop n' r next
      else
        do flags <- arr_set (ref_flag_ r) current false;
        do next <- NextSlot r current;
        Some (Some current,
              {| num_pages_ := num_pages_ r; pointer_ := next; ref_flag_ := flags |})
  end.

(** [ClockReplacer::Victim] *)
Definition Victim (r : ClockReplacer) : option (option frame_id_t * ClockReplacer) :=
  Victim_loop (Z.to_nat (num_pages_ r)) r (pointer_ r).

(** [ClockReplacer::Pin] *)
Definition Pin (frame_id : frame_id_t) (r : ClockReplacer) : option ClockReplacer :=
  do next <- NextSlot r frame_id;
  do flags <- arr_set (ref_flag_ r) frame_id false;
  Some {| num_pages_ := num_pages_ r; pointer_ := next; ref_flag_ := flags |}.

(** [ClockReplacer::Unpin] *)
Definition Unpin (frame_id : frame_id_t) (r : ClockReplacer) : option ClockReplacer :=
  do flags <- arr_set (ref_flag_ r) frame_id true;
  Some {| num_pages_ := num_pages_ r; pointer_ := pointer_ r; ref_flag_ := flags |}.

(** [ClockReplacer::Size] *)
Fixpoint Size_loop (n : nat) (r : ClockReplacer) (i : Z) (size : Z) : option Z :=
  match n with
  | O => Some size
  | S n' =>
      do b <- arr_get (ref_flag_ r) i;
      Size_loop n' r (i + 1) (if b : bool then size + 1 else size)
  end.

Definition Size (r : ClockReplacer) : option Z :=
  Size_loop (Z.to_nat (num_pages_ r)) r 0 0.

(** *** Reachable states

    A history is the list of calls made on a replacer since its
    construction, oldest first. *)
Inductive call :=
| CallVictim
| CallPin (frame_id : frame_id_t)
| CallUnpin (frame_id : frame_id_t).

Definition run_call (c : call) (r : ClockReplacer) : option ClockReplacer :=
  match c with
  | CallVictim => do res <- Victim r; Some (snd res)
  | CallPin f => Pin f r
  | CallUnpin f => Unpin f r
  end.

Fixpoint run_calls (h : list call) (r : ClockReplacer) : option ClockReplacer :=
  match h with
  | [] => Some r
  | c :: h' => do r' <- run_call c r; run_calls h' r'
  end.

(** Frame ids are [int32_t], so a replacer has at most [2^31] slots. *)
Definition reachable (r : ClockReplacer) : Prop :=
  exists n h, 0 <= n <= 2 ^ 31 /\ run_calls h (new n) = Some r.

(** The representation invariant of reachable states. *)
Definition wf (r : ClockReplacer) : Prop :=
  0 <= num_pages_ r <= 2 ^ 31 /\
  Z.of_nat (length (ref_flag_ r)) = num_pages_ r /\
  (pointer_ r = 0 \/ 0 <= pointer_ r < num_pages_ r).

(** *** The policy the design document asks for

    Classical CLOCK / second chance, following the document's words:
    scan up to [2 * num_frames] steps from the pointer; a slot whose bit
    is 1 has the bit cleared and is passed; a slot whose bit is 0 and
    that is a valid candidate is returned and the pointer moves past it;
    no result if no candidate is found. *)
Fixpoint second_chance_loop (steps : nat) (candidate : frame_id_t -> bool)
    (r : ClockReplacer) (current : frame_id_t)
  : option (option frame_id_t * ClockReplacer) :=
  match steps with
  | O => Some (None, r)
  | S k =>
      do b <- arr_get (ref_flag_ r) current;
      do next <- NextSlot r current;
      if b : bool then
        do flags <- arr_set (ref_flag_ r) current false;
        second_chance_loop k candidate
          {| num_pages_ := num_pages_ r; pointer_ := next; ref_flag_ := flags |} next
      else if candidate current then
        Some (Some current,
              {| num_pages_ := num_pages_ r; pointer_ := next; ref_flag_ := ref_flag_ r |})
      else
        second_chance_loop k candidate
          {| num_pages_ := num_pages_ r; pointer_ := next; ref_flag_ := ref_flag_ r |} next
  end.

Definition second_chance_Victim (candidate : frame_id_t -> bool) (r : ClockReplacer)
  : option (option frame_id_t * ClockReplacer) :=
  second_chance_loop (2 * Z.to_nat (num_pages_ r)) candidate r (pointer_ r).

(** [Pin] as the design document describes it: the slot's bit is cleared
    and nothing else changes.  Used only to compare with [Pin]. *)
Definition Pin_bit_only (frame_id : frame_id_t) (r : ClockReplacer) : option ClockReplacer :=
  do flags <- arr_set (ref_flag_ r) frame_id false;
  Some {| num_pages_ := num_pages_ r; pointer_ := pointer_ r; ref_flag_ := flags |}.

(** The replacer of the design document: the reference bits and the hand
    of a [ClockReplacer], and next to them the candidate set.  [Unpin]
    inserts the slot as a candidate and sets its bit; [Pin] clears the bit
    and removes the slot from the candidate set; [Victim] is the scan
    above over the candidates, and the slot it hands out is no candidate
    any more. *)
Record SecondChance := mkSecondChance {
  clock_ : ClockReplacer;
  candidate_ : list bool
}.

Definition is_candidate (c : list bool) (f : frame_id_t) : bool :=
  match arr_get c f with Some b => b | None => false end.

Definition second_chance_new (num_pages : Z) : SecondChance :=
  {| clock_ := new num_pages; candidate_ := replicate (Z.to_nat num_pages) false |}.

Definition second_chance_Unpin (f : frame_id_t) (s : SecondChance) : option SecondChance :=
  do r <- Unpin f (clock_ s);
  do c <- arr_set (candidate_ s) f true;
  Some {| clock_ := r; candidate_ := c |}.

Definition second_chance_Pin (f : frame_id_t) (s : SecondChance) : option SecondChance :=
  do r <- Pin_bit_only f (clock_ s);
  do c <- arr_set (candidate_ s) f false;
  Some {| clock_ := r; candidate_ := c |}.

Definition second_chance_step (s : SecondChance)
  : option (option frame_id_t * SecondChance) :=
  do res <- second_chance_Victim (is_candidate (candidate_ s)) (clock_ s);
  match fst res with
  | Some f =>
      do c <- arr_set (candidate_ s) f false;
      Some (Some f, {| clock_ := snd res; candidate_ := c |})
  | None => Some (None, {| clock_ := snd res; candidate_ := candidate_ s |})
  end.

(** The same calls on the replacer of the design document, with the
    frames that its [Victim] calls hand out, oldest first. *)
Fixpoint second_chance_run (h : list call) (s : SecondChance)
  : option (list frame_id_t * SecondChance) :=
  match h with
  | [] => Some ([], s)
  | CallVictim :: h' =>
      do res <- second_chance_step s;
      do rest <- second_chance_run h' (snd res);
      Some (match fst res with Some f => f :: fst rest | None => fst rest end, snd rest)
  | CallPin f :: h' => do s' <- second_chance_Pin f s; second_chance_run h' s'
  | CallUnpin f :: h' => do s' <- second_chance_Unpin f s; second_chance_run h' s'
  end.

(** *** Sample states *)

(** Three slots.  Frames 0 and 2 are unpinned and a victim is asked for
    (frame 0, which its new owner pins); then frame 1 is unpinned. *)
Definition history_recent : list call :=
  [CallUnpin 0; CallUnpin 2; CallVictim; CallPin 0; CallUnpin 1].
Definition state_recent : ClockReplacer :=
  {| num_pages_ := 3; pointer_ := 1; ref_flag_ := [false; true; true] |}.

(** The state of the design document's replacer after the same calls:
    the scan for the first victim has cleared the bit of frame 2, which
    is still a candidate. *)
Definition second_chance_recent : SecondChance :=
  {| clock_ := {| num_pages_ := 3; pointer_ := 1; ref_flag_ := [false; true; false] |};
     candidate_ := [false; true; true] |}.

(** Two slots; slot 1 was unpinned and pinned again, then slot 0 unpinned. *)
Definition history_2 : list call := [CallUnpin 1; CallPin 1; CallUnpin 0].
Definition state_2 : ClockReplacer :=
  {| num_pages_ := 2; pointer_ := 0; ref_flag_ := [true; false] |}.

(** Three slots, all unpinned. *)
Definition history_3 : list call := [CallUnpin 0; CallUnpin 1; CallUnpin 2].
Definition state_3 : ClockReplacer :=
  {| num_pages_ := 3; pointer_ := 0; ref_flag_ := [true; true; true] |}.

(** *** Counting candidates and logging victims *)

(** The number of set reference bits. *)
Fixpoint count_set (flags : list bool) : Z :=
  match flags with
  | [] => 0
  | b :: rest => (if b : bool then 1 else 0) + count_set rest
  end.

(** The frames that the [Victim] calls of a history hand out, oldest
    first. *)
Fixpoint victims (h : list call) (r : ClockReplacer) : option (list frame_id_t) :=
  match h with
  | [] => Some []
  | CallVictim :: h' =>
      do res <- Victim r;
      do vs <- victims h' (snd res);
      Some (match fst res with Some f => f :: vs | None => vs end)
  | c :: h' => do r' <- run_call c r; victims h' r'
  end.

(** Does the history unpin frame [f]? *)
Definition unpins (f : frame_id_t) (h : list call) : bool :=
  existsb (fun c => match c with CallUnpin g => g =? f | _ => false end) h.

(** [state_3] after [Pin 1]. *)
Definition state_3_pinned_1 : ClockReplacer :=
  {| num_pages_ := 3; pointer_ := 2; ref_flag_ := [true; false; true] |}.

(** Victims are asked for three times, with a [Pin 0] after the first. *)
Definition history_after_pin : list call := [CallVictim; CallPin 0; CallVictim; CallVictim].

End Clock.

(** * Pages and the disk *)

Abbreviation page_id_t := Z.
Definition INVALID_PAGE_ID : page_id_t := -1.

(** Modelled from the spec: [Page::ResetMemory] ([page.h] is not among the
    sources) zeroes the buffer of a frame, which has [PAGE_SIZE] bytes. *)
Definition zero_data (PAGE_SIZE : nat) : list Byte.byte := replicate PAGE_SIZE Byte.x00.

Module Frame.

(** Modelled from the spec: [page.h] is not among the sources.  A frame is
    a fixed byte buffer with a [page_id] ([INVALID_PAGE_ID] when the frame
    is free), a [pin_count] and an [is_dirty] flag.  The latch of the
    frame is left out. *)
Record Page := mkPage {
  data_ : list Byte.byte;
  page_id_ : page_id_t;
  pin_count_ : Z;
  is_dirty_ : bool
}.

(** Modelled from the spec: a frame as [new Page[...]] makes it (free,
    unpinned, clean, zeroed). *)
Definition fresh_page (PAGE_SIZE : nat) : Page :=
  {| data_ := zero_data PAGE_SIZE; page_id_ := INVALID_PAGE_ID;
     pin_count_ := 0; is_dirty_ := false |}.

Definition set_pin_count (n : Z) (p : Page) : Page :=
  {| data_ := data_ p; page_id_ := page_id_ p; pin_count_ := n; is_dirty_ := is_dirty_ p |}.

Definition set_is_dirty (d : bool) (p : Page) : Page :=
  {| data_ := data_ p; page_id_ := page_id_ p; pin_count_ := pin_count_ p; is_dirty_ := d |}.

Definition set_data (d : list Byte.byte) (p : Page) : Page :=
  {| data_ := d; page_id_ := page_id_ p; pin_count_ := pin_count_ p; is_dirty_ := is_dirty_ p |}.

End Frame.

(** Modelled from the spec: the disk manager is an external collaborator
    with [WritePage(id, bytes)], which persists a page, and
    [ReadPage(id, bytes)], which fills the buffer with what was persisted.
    The model keeps the list of writes, newest first; a page that was
    never written reads as zeroes. *)
Definition DiskManager : Type := list (page_id_t * list Byte.byte).

(** Modelled from the spec: [DiskManager::WritePage] persists the bytes
    under the page id. *)
Definition WritePage (page_id : page_id_t) (data : list Byte.byte) (d : DiskManager)
  : DiskManager := (page_id, data) :: d.

(** Modelled from the spec: [DiskManager::ReadPage] fills the buffer with
    what was persisted last under the page id. *)
Fixpoint ReadPage (PAGE_SIZE : nat) (page_id : page_id_t) (d : DiskManager)
  : list Byte.byte :=
  match d with
  | [] => zero_data PAGE_SIZE
  | (id, data) :: d' => if id =? page_id then data else ReadPage PAGE_SIZE page_id d'
  end.

(** * Page guards: the objects *)

Module Guard.

(** Modelled from the spec: [page_guard.h] is not among the sources.  A
    basic guard owns (pool, frame, is_dirty), all three empty by default.
    [bpm_] is a pointer to the pool manager, whose state is passed along;
    [page_] points to a frame of [pages_] and is the index of that frame. *)
Record BasicPageGuard := mkGuard {
  bpm_ : option unit;                    (* BufferPoolManager * *)
  page_ : option Clock.frame_id_t;       (* Page * *)
  is_dirty_ : bool
}.

(** Modelled from the spec: a default-constructed guard owns nothing. *)
Definition empty : BasicPageGuard :=
  {| bpm_ := None; page_ := None; is_dirty_ := false |}.

(** Modelled from the spec: the constructor [BasicPageGuard(bpm, page)]. *)
Definition make (page : option Clock.frame_id_t) : BasicPageGuard :=
  {| bpm_ := Some tt; page_ := page; is_dirty_ := false |}.

(** Modelled from the spec: a read guard wraps a basic guard ([guard_]). *)
Record ReadPageGuard := mkRead { read_guard_ : BasicPageGuard }.

(** Modelled from the spec: a write guard wraps a basic guard ([guard_]). *)
Record WritePageGuard := mkWrite { write_guard_ : BasicPageGuard }.

(** The guard of a pin on frame 0. *)
Definition guard_0 : BasicPageGuard :=
  {| bpm_ := Some tt; page_ := Some 0; is_dirty_ := false |}.

End Guard.

(** * The buffer pool manager ([buffer_pool_manager.cpp]) *)

Module BPM.
Section Defs.
Variable PAGE_SIZE : nat.

Abbreviation frame_id_t := Clock.frame_id_t.

Record BufferPoolManager := mkBPM {
  pool_size_ : Z;
  pages_ : list Frame.Page;                    (* new Page[pool_size_] *)
  replacer_ : Clock.ClockReplacer;
  free_list_ : list frame_id_t;          (* std::list<frame_id_t> *)
  page_table_ : gmap Z Z;                (* page id -> frame id *)
  next_page_id_ : page_id_t;
  disk_manager_ : DiskManager
}.

Definition with_pages (ps : list Frame.Page) (b : BufferPoolManager) : BufferPoolManager :=
  {| pool_size_ := pool_size_ b; pages_ := ps; replacer_ := replacer_ b;
     free_list_ := free_list_ b; page_table_ := page_table_ b;
     next_page_id_ := next_page_id_ b; disk_manager_ := disk_manager_ b |}.

Definition with_replacer (r : Clock.ClockReplacer) (b : BufferPoolManager) : BufferPoolManager :=
  {| pool_size_ := pool_size_ b; pages_ := pages_ b; replacer_ := r;
     free_list_ := free_list_ b; page_table_ := page_table_ b;
     next_page_id_ := next_page_id_ b; disk_manager_ := disk_manager_ b |}.

Definition with_free_list (l : list frame_id_t) (b : BufferPoolManager) : BufferPoolManager :=
  {| pool_size_ := pool_size_ b; pages_ := pages_ b; replacer_ := replacer_ b;
     free_list_ := l; page_table_ := page_table_ b;
     next_page_id_ := next_page_id_ b; disk_manager_ := disk_manager_ b |}.

Definition with_page_table (t : gmap Z Z) (b : BufferPoolManager) : BufferPoolManager :=
  {| pool_size_ := pool_size_ b; pages_ := pages_ b; replacer_ := replacer_ b;
     free_list_ := free_list_ b; page_table_ := t;
     next_page_id_ := next_page_id_ b; disk_manager_ := disk_manager_ b |}.

Definition with_next_page_id (n : page_id_t) (b : BufferPoolManager) : BufferPoolManager :=
  {| pool_size_ := pool_size_ b; pages_ := pages_ b; replacer_ := replacer_ b;
     free_list_ := free_list_ b; page_table_ := page_table_ b;
     next_page_id_ := n; disk_manager_ := disk_manager_ b |}.

Definition with_disk (d : DiskManager) (b : BufferPoolManager) : BufferPoolManager :=
  {| pool_size_ := pool_size_ b; pages_ := pages_ b; replacer_ := replacer_ b;
     free_list_ := free_list_ b; page_table_ := page_table_ b;
     next_page_id_ := next_page_id_ b; disk_manager_ := d |}.

(** The constructor: every frame starts in the free list. *)
Definition new (pool_size : Z) (disk_manager : DiskManager) : BufferPoolManager :=
  {| pool_size_ := pool_size;
     pages_ := replicate (Z.to_nat pool_size) (Frame.fresh_page PAGE_SIZE);
     replacer_ := Clock.new pool_size;
     free_list_ := map Z.of_nat (seq 0 (Z.to_nat pool_size));
     page_table_ := ∅;
     next_page_id_ := 0;
     disk_manager_ := disk_manager |}.

(** [std::unordered_map::emplace]: no effect when the key is present. *)
Definition emplace (k v : Z) (t : gmap Z Z) : gmap Z Z :=
  match t !! k with
  | Some _ => t
  | None => <[k := v]> t
  end.

(** [UpdatePage]; [page] points to [pages_[frame]]. *)
Definition UpdatePage (frame : frame_id_t) (new_page_id : page_id_t)
    (new_frame_id : frame_id_t) (b : BufferPoolManager) : option BufferPoolManager :=
  do page <- arr_get (pages_ b) frame;
  let disk := if Frame.is_dirty_ page
              then WritePage (Frame.page_id_ page) (Frame.data_ page) (disk_manager_ b)
              else disk_manager_ b in
  let table := delete (Frame.page_id_ page) (page_table_ b) in
  let table := if new_page_id =? INVALID_PAGE_ID then table
               else emplace new_page_id new_frame_id table in
  let page' := {| Frame.data_ := zero_data PAGE_SIZE; Frame.page_id_ := new_page_id;
                  Frame.pin_count_ := Frame.pin_count_ page; Frame.is_dirty_ := false |} in
  do pages <- arr_set (pages_ b) frame page';
  Some (with_pages pages (with_page_table table (with_disk disk b))).

(** [FindVictimPage]: the free list first, the replacer otherwise. *)
Definition FindVictimPage (b : BufferPoolManager)
  : option (option frame_id_t * BufferPoolManager) :=
  match free_list_ b with
  | frame :: rest => Some (Some frame, with_free_list rest b)
  | [] =>
      do res <- Clock.Victim (replacer_ b);
      Some (fst res, with_replacer (snd res) b)
  end.

(** [AllocatePage]: [next_page_id_++].  The counter is a
    [std::atomic<page_id_t>], whose increment wraps around. *)
Definition AllocatePage (b : BufferPoolManager) : page_id_t * BufferPoolManager :=
  (next_page_id_ b, with_next_page_id (to_page_id_t (next_page_id_ b + 1)) b).

(** [NewPage]: the result is the out-parameter and the frame of the
    returned [Page *], or nothing for [nullptr]. *)
Definition NewPage (b : BufferPoolManager)
  : option (option (page_id_t * frame_id_t) * BufferPoolManager) :=
  do found <- FindVictimPage b;
  match found with
  | (None, b1) => Some (None, b1)
  | (Some frame_id, b1) =>
      let '(page_id, b2) := AllocatePage b1 in
      do b3 <- UpdatePage frame_id page_id frame_id b2;
      do r <- Clock.Pin frame_id (replacer_ b3);
      do page <- arr_get (pages_ b3) frame_id;
      do pages <- arr_set (pages_ b3) frame_id (Frame.set_pin_count 1 page);
      Some (Some (page_id, frame_id), with_pages pages (with_replacer r b3))
  end.

(** [FetchPage]: the result is the frame of the returned [Page *].
    [pin_count_] is an [int]; [pin_count_++] has no defined result when
    the count is [INT_MAX]. *)
Definition FetchPage (page_id : page_id_t) (b : BufferPoolManager)
  : option (option frame_id_t * BufferPoolManager) :=
  match page_table_ b !! page_id with
  | Some frame_id =>
      do page <- arr_get (pages_ b) frame_id;
      do r <- Clock.Pin frame_id (replacer_ b);
      do n <- int_incr (Frame.pin_count_ page);
      do pages <- arr_set (pages_ b) frame_id (Frame.set_pin_count n page);
      Some (Some frame_id, with_pages pages (with_replacer r b))
  | None =>
      do found <- FindVictimPage b;
      match found with
      | (None, b1) => Some (None, b1)
      | (Some frame_id, b1) =>
          do b2 <- UpdatePage frame_id page_id frame_id b1;
          do page <- arr_get (pages_ b2) frame_id;
          let page1 := Frame.set_data (ReadPage PAGE_SIZE page_id (disk_manager_ b2)) page in
          do r <- Clock.Pin frame_id (replacer_ b2);
          do n <- int_incr (Frame.pin_count_ page1);
          let page2 := Frame.set_pin_count n page1 in
          (* assert(page->pin_count_ == 1) *)
          if Frame.pin_count_ page2 =? 1 then
            do pages <- arr_set (pages_ b2) frame_id page2;
            Some (Some frame_id, with_pages pages (with_replacer r b2))
          else None
      end
  end.

(** [UnpinPage] *)
Definition UnpinPage (page_id : page_id_t) (is_dirty : bool) (b : BufferPoolManager)
  : option (bool * BufferPoolManager) :=
  match page_table_ b !! page_id with
  | None => Some (false, b)
  | Some frame_id =>
      do page <- arr_get (pages_ b) frame_id;
      if Frame.pin_count_ page =? 0 then Some (false, b)
      else
        let page1 := Frame.set_pin_count (Frame.pin_count_ page - 1) page in
        do r <- (if Frame.pin_count_ page1 =? 0
                 then Clock.Unpin frame_id (replacer_ b)
                 else Some (replacer_ b));
        let page2 := if is_dirty then Frame.set_is_dirty true page1 else page1 in
        do pages <- arr_set (pages_ b) frame_id page2;
        Some (true, with_pages pages (with_replacer r b))
  end.

(** [FlushPage] *)
Definition FlushPage (page_id : page_id_t) (b : BufferPoolManager)
  : option (bool * BufferPoolManager) :=
  if page_id =? INVALID_PAGE_ID then Some (false, b)
  else
    match page_table_ b !! page_id with
    | None => Some (false, b)
    | Some frame_id =>
        do page <- arr_get (pages_ b) frame_id;
        let disk := WritePage (Frame.page_id_ page) (Frame.data_ page) (disk_manager_ b) in
        do pages <- arr_set (pages_ b) frame_id (Frame.set_is_dirty false page);
        Some (true, with_pages pages (with_disk disk b))
    end.

(** [FlushAllPages] *)
Fixpoint FlushAllPages_loop (n : nat) (i : Z) (b : BufferPoolManager)
  : option BufferPoolManager :=
  match n with
  | O => Some b
  | S n' =>
      do page <- arr_get (pages_ b) i;
      do b' <- (if negb (Frame.page_id_ page =? INVALID_PAGE_ID) then
                  let disk := WritePage (Frame.page_id_ page) (Frame.data_ page) (disk_manager_ b) in
                  do pages <- arr_set (pages_ b) i (Frame.set_is_dirty false page);
                  Some (with_pages pages (with_disk disk b))
                else Some b);
      FlushAllPages_loop n' (i + 1) b'
  end.

Definition FlushAllPages (b : BufferPoolManager) : option BufferPoolManager :=
  FlushAllPages_loop (Z.to_nat (pool_size_ b)) 0 b.

(** [DeletePage] *)
Definition DeletePage (page_id : page_id_t) (b : BufferPoolManager)
  : option (bool * BufferPoolManager) :=
  match page_table_ b !! page_id with
  | None => Some (true, b)
  | Some frame_id =>
      do page <- arr_get (pages_ b) frame_id;
      if Frame.pin_count_ page >? 0 then Some (false, b)
      else
        do b1 <- UpdatePage frame_id INVALID_PAGE_ID frame_id b;
        Some (true, with_free_list (free_list_ b1 ++ [frame_id]) b1)
  end.

(** [FetchPageBasic], [FetchPageRead], [FetchPageWrite] and
    [NewPageGuarded] return [{this, nullptr}]: a guard on the pool with no
    page.  They leave the pool and the out-parameter as they are. *)
Definition FetchPageBasic (page_id : page_id_t) (b : BufferPoolManager)
  : Guard.BasicPageGuard := Guard.make None.

Definition FetchPageRead (page_id : page_id_t) (b : BufferPoolManager)
  : Guard.ReadPageGuard := {| Guard.read_guard_ := Guard.make None |}.

Definition FetchPageWrite (page_id : page_id_t) (b : BufferPoolManager)
  : Guard.WritePageGuard := {| Guard.write_guard_ := Guard.make None |}.

Definition NewPageGuarded (page_id : page_id_t) (b : BufferPoolManager)
  : page_id_t * Guard.BasicPageGuard := (page_id, Guard.make None).

(** *** Reachable states *)

Inductive call :=
| CallNewPage
| CallFetchPage (page_id : page_id_t)
| CallUnpinPage (page_id : page_id_t) (is_dirty : bool)
| CallFlushPage (page_id : page_id_t)
| CallFlushAllPages
| CallDeletePage (page_id : page_id_t)
| CallWriteData (page_id : page_id_t) (data : list Byte.byte).

(** A client that holds a page writes into its buffer. *)
Definition WriteData (page_id : page_id_t) (data : list Byte.byte) (b : BufferPoolManager)
  : option BufferPoolManager :=
  do frame_id <- page_table_ b !! page_id;
  do page <- arr_get (pages_ b) frame_id;
  do pages <- arr_set (pages_ b) frame_id (Frame.set_data data page);
  Some (with_pages pages b).

Definition run_call (c : call) (b : BufferPoolManager) : option BufferPoolManager :=
  match c with
  | CallNewPage => do res <- NewPage b; Some (snd res)
  | CallFetchPage id => do res <- FetchPage id b; Some (snd res)
  | CallUnpinPage id dirty => do res <- UnpinPage id dirty b; Some (snd res)
  | CallFlushPage id => do res <- FlushPage id b; Some (snd res)
  | CallFlushAllPages => FlushAllPages b
  | CallDeletePage id => do res <- DeletePage id b; Some (snd res)
  | CallWriteData id data => WriteData id data b
  end.

Fixpoint run_calls (h : list call) (b : BufferPoolManager) : option BufferPoolManager :=
  match h with
  | [] => Some b
  | c :: h' => do b' <- run_call c b; run_calls h' b'
  end.

(** Frame ids are [int]s, so a pool has fewer than [2^31] frames. *)
Definition reachable (b : BufferPoolManager) : Prop :=
  exists pool_size disk h,
    0 <= pool_size < 2 ^ 31 /\ run_calls h (new pool_size disk) = Some b.

(** The representation invariant of reachable pools. *)
Definition wf (b : BufferPoolManager) : Prop :=
  0 <= pool_size_ b < 2 ^ 31 /\
  Z.of_nat (length (pages_ b)) = pool_size_ b /\
  Clock.wf (replacer_ b) /\
  Clock.num_pages_ (replacer_ b) = pool_size_ b /\
  (forall f, f ∈ free_list_ b -> 0 <= f < pool_size_ b) /\
  (forall id f, page_table_ b !! id = Some f ->
     0 <= f < pool_size_ b /\
     exists page, arr_get (pages_ b) f = Some page /\ Frame.page_id_ page = id).

(** *** Pins, candidates and the free list

    What reachable pools keep beyond [wf]: pin counts are not negative; a
    pinned frame is no candidate of the replacer; the free list has no
    duplicates and its frames are free, unpinned and clean; the invalid
    page id is never mapped; an unpinned frame that holds a page is the
    one the page table gives for that page. *)
Definition pins_wf (b : BufferPoolManager) : Prop :=
  (forall f page, arr_get (pages_ b) f = Some page -> 0 <= Frame.pin_count_ page) /\
  (forall f page, arr_get (pages_ b) f = Some page -> 0 < Frame.pin_count_ page ->
     arr_get (Clock.ref_flag_ (replacer_ b)) f = Some false) /\
  NoDup (free_list_ b) /\
  (forall f, f ∈ free_list_ b ->
     exists page, arr_get (pages_ b) f = Some page /\
       Frame.pin_count_ page = 0 /\ Frame.is_dirty_ page = false /\
       Frame.page_id_ page = INVALID_PAGE_ID) /\
  page_table_ b !! INVALID_PAGE_ID = None /\
  (forall f page, arr_get (pages_ b) f = Some page ->
     Frame.pin_count_ page = 0 -> Frame.page_id_ page <> INVALID_PAGE_ID ->
     page_table_ b !! Frame.page_id_ page = Some f).

(** Every unpinned frame is at hand: in the free list or a candidate of
    the replacer. *)
Definition frames_accounted (b : BufferPoolManager) : Prop :=
  forall f page, arr_get (pages_ b) f = Some page -> Frame.pin_count_ page = 0 ->
    f ∈ free_list_ b \/ arr_get (Clock.ref_flag_ (replacer_ b)) f = Some true.

(** The counters are in the range of their types: no pin count above
    [INT_MAX], the next page id a [page_id_t]. *)
Definition counters_wf (b : BufferPoolManager) : Prop :=
  (forall f page, arr_get (pages_ b) f = Some page -> Frame.pin_count_ page <= INT_MAX) /\
  - 2 ^ 31 <= next_page_id_ b < 2 ^ 31.

(** Every frame is pinned. *)
Definition all_pinned (b : BufferPoolManager) : Prop :=
  forall f page, arr_get (pages_ b) f = Some page -> 0 < Frame.pin_count_ page.

(** What [FlushAllPages] does to one frame and, for that frame, to the
    disk. *)
Definition flushed (page : Frame.Page) : Frame.Page :=
  if Frame.page_id_ page =? INVALID_PAGE_ID then page else Frame.set_is_dirty false page.

Definition write_back (d : DiskManager) (page : Frame.Page) : DiskManager :=
  if Frame.page_id_ page =? INVALID_PAGE_ID then d
  else WritePage (Frame.page_id_ page) (Frame.data_ page) d.

(** Page [page_id] is resident in frame [f], pinned, with these bytes. *)
Definition holds_pinned (b : BufferPoolManager) (page_id : page_id_t)
    (f : Z) (data : list Byte.byte) : Prop :=
  page_table_ b !! page_id = Some f /\
  exists page, arr_get (pages_ b) f = Some page /\
    Frame.data_ page = data /\ 0 < Frame.pin_count_ page.

(** Does the history give up a pin on the page or write into it? *)
Definition releases_or_writes (page_id : page_id_t) (h : list call) : bool :=
  existsb (fun c => match c with
                    | CallUnpinPage id _ => id =? page_id
                    | CallWriteData id _ => id =? page_id
                    | _ => false
                    end) h.

End Defs.
End BPM.

(** *** Sample pools (two frames, pages of four bytes) *)

(** After [NewPage]: page 0 sits in frame 0 and is pinned once. *)
Definition history_pinned : list BPM.call := [BPM.CallNewPage].

Definition pool_pinned : BPM.BufferPoolManager :=
  {| BPM.pool_size_ := 2;
     BPM.pages_ := [ {| Frame.data_ := zero_data 4; Frame.page_id_ := 0;
                        Frame.pin_count_ := 1; Frame.is_dirty_ := false |};
                     Frame.fresh_page 4 ];
     BPM.replacer_ := {| Clock.num_pages_ := 2; Clock.pointer_ := 1;
                         Clock.ref_flag_ := [false; false] |};
     BPM.free_list_ := [1];
     BPM.page_table_ := {[ 0 := 0 ]};
     BPM.next_page_id_ := 1;
     BPM.disk_manager_ := [] |}.

(** After [NewPage] and [UnpinPage(0, true)]: page 0 is unpinned and dirty. *)
Definition history_dirty : list BPM.call := [BPM.CallNewPage; BPM.CallUnpinPage 0 true].

Definition pool_dirty : BPM.BufferPoolManager :=
  {| BPM.pool_size_ := 2;
     BPM.pages_ := [ {| Frame.data_ := zero_data 4; Frame.page_id_ := 0;
                        Frame.pin_count_ := 0; Frame.is_dirty_ := true |};
                     Frame.fresh_page 4 ];
     BPM.replacer_ := {| Clock.num_pages_ := 2; Clock.pointer_ := 1;
                         Clock.ref_flag_ := [true; false] |};
     BPM.free_list_ := [1];
     BPM.page_table_ := {[ 0 := 0 ]};
     BPM.next_page_id_ := 1;
     BPM.disk_manager_ := [] |}.

(** After [NewPage] and [FetchPage(0)]: page 0 is pinned twice. *)
Definition history_pinned_twice : list BPM.call := [BPM.CallNewPage; BPM.CallFetchPage 0].

Definition pool_pinned_twice : BPM.BufferPoolManager :=
  {| BPM.pool_size_ := 2;
     BPM.pages_ := [ {| Frame.data_ := zero_data 4; Frame.page_id_ := 0;
                        Frame.pin_count_ := 2; Frame.is_dirty_ := false |};
                     Frame.fresh_page 4 ];
     BPM.replacer_ := {| Clock.num_pages_ := 2; Clock.pointer_ := 1;
                         Clock.ref_flag_ := [false; false] |};
     BPM.free_list_ := [1];
     BPM.page_table_ := {[ 0 := 0 ]};
     BPM.next_page_id_ := 1;
     BPM.disk_manager_ := [] |}.

(** From [pool_pinned]: two more [NewPage] calls (the second finds no
    frame), [DeletePage(0)] (refused), [FlushAllPages], [FetchPage(0)]. *)
Definition history_churn : list BPM.call :=
  [BPM.CallNewPage; BPM.CallNewPage; BPM.CallDeletePage 0; BPM.CallFlushAllPages;
   BPM.CallFetchPage 0].

Definition pool_churned : BPM.BufferPoolManager :=
  {| BPM.pool_size_ := 2;
     BPM.pages_ := [ {| Frame.data_ := zero_data 4; Frame.page_id_ := 0;
                        Frame.pin_count_ := 2; Frame.is_dirty_ := false |};
                     {| Frame.data_ := zero_data 4; Frame.page_id_ := 1;
                        Frame.pin_count_ := 1; Frame.is_dirty_ := false |} ];
     BPM.replacer_ := {| Clock.num_pages_ := 2; Clock.pointer_ := 1;
                         Clock.ref_flag_ := [false; false] |};
     BPM.free_list_ := [];
     BPM.page_table_ := {[ 0 := 0; 1 := 1 ]};
     BPM.next_page_id_ := 2;
     BPM.disk_manager_ := [(1, zero_data 4); (0, zero_data 4)] |}.

(** After [FetchPage(0)] on a new pool: page 0 was never allocated, it
    sits in frame 0 and is pinned once; the next id to allocate is 0. *)
Definition history_fetched_0 : list BPM.call := [BPM.CallFetchPage 0].

Definition pool_fetched_0 : BPM.BufferPoolManager :=
  {| BPM.pool_size_ := 2;
     BPM.pages_ := [ {| Frame.data_ := zero_data 4; Frame.page_id_ := 0;
                        Frame.pin_count_ := 1; Frame.is_dirty_ := false |};
                     Frame.fresh_page 4 ];
     BPM.replacer_ := {| Clock.num_pages_ := 2; Clock.pointer_ := 1;
                         Clock.ref_flag_ := [false; false] |};
     BPM.free_list_ := [1];
     BPM.page_table_ := {[ 0 := 0 ]};
     BPM.next_page_id_ := 0;
     BPM.disk_manager_ := [] |}.

(** [pool_fetched_0] after [NewPage]: frame 1 holds the new page 0, the
    page table still gives frame 0. *)
Definition pool_fetched_0_new : BPM.BufferPoolManager :=
  {| BPM.pool_size_ := 2;
     BPM.pages_ := [ {| Frame.data_ := zero_data 4; Frame.page_id_ := 0;
                        Frame.pin_count_ := 1; Frame.is_dirty_ := false |};
                     {| Frame.data_ := zero_data 4; Frame.page_id_ := 0;
                        Frame.pin_count_ := 1; Frame.is_dirty_ := false |} ];
     BPM.replacer_ := {| Clock.num_pages_ := 2; Clock.pointer_ := 0;
                         Clock.ref_flag_ := [false; false] |};
     BPM.free_list_ := [];
     BPM.page_table_ := {[ 0 := 0 ]};
     BPM.next_page_id_ := 1;
     BPM.disk_manager_ := [] |}.

(** * Page guards: the operations ([page_guard.cpp])

    Moves act on two distinct guard objects.  Latches are left out. *)

Module PageGuard.
Import Guard.

(** [BasicPageGuard::Drop] *)
Definition Drop (g : BasicPageGuard) (b : BPM.BufferPoolManager)
  : option (BasicPageGuard * BPM.BufferPoolManager) :=
  match bpm_ g, page_ g with
  | Some _, Some frame =>
      do page <- arr_get (BPM.pages_ b) frame;
      do res <- BPM.UnpinPage (Frame.page_id_ page) (is_dirty_ g) b;
      Some ({| bpm_ := None; page_ := None; is_dirty_ := is_dirty_ g |}, snd res)
  | _, _ => Some (g, b)
  end.

(** [BasicPageGuard::BasicPageGuard(BasicPageGuard &&that)]: the result is
    the new guard, [that] afterwards, and the pool. *)
Definition move_construct (that : BasicPageGuard) (b : BPM.BufferPoolManager)
  : option (BasicPageGuard * BasicPageGuard * BPM.BufferPoolManager) :=
  do dropped <- Drop empty b;
  let this := {| bpm_ := bpm_ that; page_ := page_ that; is_dirty_ := is_dirty_ that |} in
  let that := {| bpm_ := None; page_ := page_ that; is_dirty_ := is_dirty_ that |} in
  let that := {| bpm_ := None; page_ := page_ that; is_dirty_ := is_dirty_ that |} in
  let that := {| bpm_ := bpm_ that; page_ := page_ that; is_dirty_ := false |} in
  Some (this, that, snd dropped).

(** [BasicPageGuard::operator=(BasicPageGuard &&that)]: the result is
    [*this] afterwards, [that] afterwards, and the pool. *)
Definition move_assign (this that : BasicPageGuard) (b : BPM.BufferPoolManager)
  : option (BasicPageGuard * BasicPageGuard * BPM.BufferPoolManager) :=
  do dropped <- Drop this b;
  let this := {| bpm_ := bpm_ that; page_ := page_ that; is_dirty_ := is_dirty_ that |} in
  Some (this, that, snd dropped).

(** The destructor. *)
Definition destroy (g : BasicPageGuard) (b : BPM.BufferPoolManager)
  : option BPM.BufferPoolManager :=
  do dropped <- Drop g b; Some (snd dropped).

(** [ReadPageGuard::ReadPageGuard(ReadPageGuard &&that)]:
    [guard_ = std::move(that.guard_)]. *)
Definition Read_move_construct (that : ReadPageGuard) (b : BPM.BufferPoolManager)
  : option (ReadPageGuard * ReadPageGuard * BPM.BufferPoolManager) :=
  do res <- move_assign empty (read_guard_ that) b;
  let '(this, that, b) := res in
  Some ({| read_guard_ := this |}, {| read_guard_ := that |}, b).

(** [ReadPageGuard::operator=(ReadPageGuard &&that)] *)
Definition Read_move_assign (this that : ReadPageGuard) (b : BPM.BufferPoolManager)
  : option (ReadPageGuard * ReadPageGuard * BPM.BufferPoolManager) :=
  do dropped <- Drop (read_guard_ this) b;
  let g := {| bpm_ := bpm_ (read_guard_ that); page_ := page_ (read_guard_ that);
              is_dirty_ := is_dirty_ (read_guard_ that) |} in
  Some ({| read_guard_ := g |}, that, snd dropped).

(** [ReadPageGuard::Drop] *)
Definition Read_Drop (g : ReadPageGuard) (b : BPM.BufferPoolManager)
  : option (ReadPageGuard * BPM.BufferPoolManager) :=
  match bpm_ (read_guard_ g), page_ (read_guard_ g) with
  | Some _, Some _ =>
      do dropped <- Drop (read_guard_ g) b;
      Some ({| read_guard_ := fst dropped |}, snd dropped)
  | _, _ => Some (g, b)
  end.

(** [WritePageGuard::WritePageGuard(WritePageGuard &&that)]:
    [guard_ = std::move(that.guard_)]. *)
Definition Write_move_construct (that : WritePageGuard) (b : BPM.BufferPoolManager)
  : option (WritePageGuard * WritePageGuard * BPM.BufferPoolManager) :=
  do res <- move_assign empty (write_guard_ that) b;
  let '(this, that, b) := res in
  Some ({| write_guard_ := this |}, {| write_guard_ := that |}, b).

(** [WritePageGuard::operator=(WritePageGuard &&that)] *)
Definition Write_move_assign (this that : WritePageGuard) (b : BPM.BufferPoolManager)
  : option (WritePageGuard * WritePageGuard * BPM.BufferPoolManager) :=
  do dropped <- Drop (write_guard_ this) b;
  let g := {| bpm_ := bpm_ (write_guard_ that); page_ := page_ (write_guard_ that);
              is_dirty_ := is_dirty_ (write_guard_ that) |} in
  Some ({| write_guard_ := g |}, that, snd dropped).

(** [WritePageGuard::Drop] *)
Definition Write_Drop (g : WritePageGuard) (b : BPM.BufferPoolManager)
  : option (WritePageGuard * BPM.BufferPoolManager) :=
  match bpm_ (write_guard_ g), page_ (write_guard_ g) with
  | Some _, Some _ =>
      do dropped <- Drop (write_guard_ g) b;
      Some ({| write_guard_ := fst dropped |}, snd dropped)
  | _, _ => Some (g, b)
  end.

(** The pin count of a frame. *)
Definition pin_count (frame : Clock.frame_id_t) (b : BPM.BufferPoolManager) : option Z :=
  do page <- arr_get (BPM.pages_ b) frame; Some (Frame.pin_count_ page).

End PageGuard.

(** * B+tree node pages *)

(** Conversion of an [int] to [bool]. *)
Definition int_to_bool (x : Z) : bool := negb (x =? 0).

(** ** The header shared by all nodes

    [b_plus_tree_page.h] and [b_plus_tree_page.cpp] are not among the
    sources; the header and its accessors follow the design document. *)

(** Modelled from the spec: the page type tag of a node. *)
Inductive IndexPageType := INVALID_INDEX_PAGE | LEAF_PAGE | INTERNAL_PAGE.

(** Modelled from the spec: the shared header [page_type], [size],
    [max_size], [parent_page_id], [page_id]. *)
Record BPlusTreePage := mkHeader {
  page_type_ : IndexPageType;
  size_ : Z;
  max_size_ : Z;
  parent_page_id_ : page_id_t;
  page_id_ : page_id_t
}.

(** Modelled from the spec: the setter of [page_type]. *)
Definition SetPageType (t : IndexPageType) (h : BPlusTreePage) : BPlusTreePage :=
  {| page_type_ := t; size_ := size_ h; max_size_ := max_size_ h;
     parent_page_id_ := parent_page_id_ h; page_id_ := page_id_ h |}.

(** Modelled from the spec: the setter of [size]. *)
Definition SetSize (size : Z) (h : BPlusTreePage) : BPlusTreePage :=
  {| page_type_ := page_type_ h; size_ := size; max_size_ := max_size_ h;
     parent_page_id_ := parent_page_id_ h; page_id_ := page_id_ h |}.

(** Modelled from the spec: [IncreaseSize(amount)] adds [amount] to [size]. *)
Definition IncreaseSize (amount : Z) (h : BPlusTreePage) : BPlusTreePage :=
  SetSize (size_ h + amount) h.

(** Modelled from the spec: the setter of [max_size]. *)
Definition SetMaxSize (size : Z) (h : BPlusTreePage) : BPlusTreePage :=
  {| page_type_ := page_type_ h; size_ := size_ h; max_size_ := size;
     parent_page_id_ := parent_page_id_ h; page_id_ := page_id_ h |}.

(** Modelled from the spec: the setter of [parent_page_id]. *)
Definition SetParentPageId (parent : page_id_t) (h : BPlusTreePage) : BPlusTreePage :=
  {| page_type_ := page_type_ h; size_ := size_ h; max_size_ := max_size_ h;
     parent_page_id_ := parent; page_id_ := page_id_ h |}.

(** Modelled from the spec: the setter of [page_id]. *)
Definition SetPageId (id : page_id_t) (h : BPlusTreePage) : BPlusTreePage :=
  {| page_type_ := page_type_ h; size_ := size_ h; max_size_ := max_size_ h;
     parent_page_id_ := parent_page_id_ h; page_id_ := id |}.

(** Modelled from the spec: [IsLeafPage]. *)
Definition IsLeafPage (h : BPlusTreePage) : bool :=
  match page_type_ h with LEAF_PAGE => true | _ => false end.

(** Modelled from the spec: [IsRootPage], the parent is [INVALID_PAGE_ID]. *)
Definition IsRootPage (h : BPlusTreePage) : bool :=
  parent_page_id_ h =? INVALID_PAGE_ID.

(** Modelled from the spec: [GetMinSize], ceil((max_size - 1) / 2) for a
    leaf and ceil(max_size / 2) for an internal page. *)
Definition GetMinSize (h : BPlusTreePage) : Z :=
  if IsLeafPage h then max_size_ h / 2 else (max_size_ h + 1) / 2.

(** ** Key comparators

    [KeyComparator] is a template parameter of the pages and of the tree;
    it is a parameter here as well. *)

Section KeyOrder.
Context {KeyType : Type}.
Variable comparator : KeyType -> KeyType -> Z.

(** What is expected of a [KeyComparator]: a three-way comparison
    (negative, zero, positive) of a total preorder. *)
Record comparator_laws : Prop := {
  comparator_swap : forall a b, Z.sgn (comparator b a) = - Z.sgn (comparator a b);
  comparator_trans : forall a b c,
    comparator a b <= 0 -> comparator b c <= 0 -> comparator a c <= 0
}.

(** Keys sorted and strictly increasing. *)
Fixpoint strictly_increasing (l : list KeyType) : bool :=
  match l with
  | [] => true
  | k :: l' => forallb (fun k' => comparator k k' <? 0) l' && strictly_increasing l'
  end.

End KeyOrder.

(** ** Leaf pages ([b_plus_tree_leaf_page.cpp]) *)

Module Leaf.
Section Defs.
Context {KeyType ValueType : Type}.
Variable comparator : KeyType -> KeyType -> Z.

Local Abbreviation MappingType := (KeyType * ValueType)%type.

(** [array_] holds every slot of the flexible array member, also the ones
    at and after [size_], whose contents are whatever was written last. *)
Record BPlusTreeLeafPage := mkLeaf {
  header : BPlusTreePage;
  next_page_id_ : page_id_t;
  array_ : list MappingType
}.

Definition GetSize (p : BPlusTreeLeafPage) : Z := size_ (header p).

Definition with_header (h : BPlusTreePage) (p : BPlusTreeLeafPage) : BPlusTreeLeafPage :=
  {| header := h; next_page_id_ := next_page_id_ p; array_ := array_ p |}.

Definition with_array (a : list MappingType) (p : BPlusTreeLeafPage) : BPlusTreeLeafPage :=
  {| header := header p; next_page_id_ := next_page_id_ p; array_ := a |}.

Definition SetNextPageId (next : page_id_t) (p : BPlusTreeLeafPage) : BPlusTreeLeafPage :=
  {| header := header p; next_page_id_ := next; array_ := array_ p |}.

(** [Init] *)
Definition Init (page_id parent_page_id : page_id_t) (max_size : Z)
    (p : BPlusTreeLeafPage) : BPlusTreeLeafPage :=
  SetNextPageId INVALID_PAGE_ID
    (with_header
       (SetMaxSize max_size
          (SetSize 0 (SetParentPageId parent_page_id
             (SetPageId page_id (SetPageType LEAF_PAGE (header p)))))) p).

(** [KeyAt] *)
Definition KeyAt (p : BPlusTreeLeafPage) (index : Z) : option KeyType :=
  do e <- arr_get (array_ p) index; Some (fst e).

(** The [while] loop of [KeyIndex].  Every iteration shrinks
    [right - left], so [GetSize()] iterations always suffice; running out
    of [fuel] is reported like an error. *)
Fixpoint KeyIndex_loop (fuel : nat) (p : BPlusTreeLeafPage) (key : KeyType)
    (left right : Z) : option Z :=
  if left <=? right then
    match fuel with
    | O => None
    | S fuel' =>
        let mid := left + Z.shiftr (right - left) 1 in
        do k <- KeyAt p mid;
        if comparator k key >=? 0
        then KeyIndex_loop fuel' p key left (mid - 1)
        else KeyIndex_loop fuel' p key (mid + 1) right
    end
  else Some (right + 1).

(** [KeyIndex] *)
Definition KeyIndex (p : BPlusTreeLeafPage) (key : KeyType) : option Z :=
  KeyIndex_loop (Z.to_nat (GetSize p)) p key 0 (GetSize p - 1).

(** [for (int i = from; i > insert_index; i--) array_[i] = array_[i - 1];] *)
Fixpoint shift_right (fuel : nat) (a : list MappingType) (i insert_index : Z)
  : option (list MappingType) :=
  if i >? insert_index then
    match fuel with
    | O => None
    | S fuel' =>
        do e <- arr_get a (i - 1);
        do a' <- arr_set a i e;
        shift_right fuel' a' (i - 1) insert_index
    end
  else Some a.

(** [for (int i = from; i < size; i++) array_[i] = array_[i + 1];] *)
Fixpoint shift_left (fuel : nat) (a : list MappingType) (i size : Z)
  : option (list MappingType) :=
  if i <? size then
    match fuel with
    | O => None
    | S fuel' =>
        do e <- arr_get a (i + 1);
        do a' <- arr_set a i e;
        shift_left fuel' a' (i + 1) size
    end
  else Some a.

(** [Insert]: the result is the returned [int] and the page afterwards. *)
Definition Insert (p : BPlusTreeLeafPage) (key : KeyType) (value : ValueType)
  : option (Z * BPlusTreeLeafPage) :=
  do insert_index <- KeyIndex p key;
  do k <- KeyAt p insert_index;
  if comparator k key =? 0 then Some (GetSize p, p)
  else
    do a <- shift_right (Z.to_nat (GetSize p)) (array_ p) (GetSize p) insert_index;
    do a' <- arr_set a insert_index (key, value);
    let p' := with_header (IncreaseSize 1 (header p)) (with_array a' p) in
    Some (GetSize p', p').

(** [Lookup]: the result is the returned [bool] and the out-parameter. *)
Definition Lookup (p : BPlusTreeLeafPage) (key : KeyType) : option (option ValueType) :=
  do target_index <- KeyIndex p key;
  if target_index =? GetSize p then Some None
  else
    do k <- KeyAt p target_index;
    if negb (comparator key k =? 0) then Some None
    else do e <- arr_get (array_ p) target_index; Some (Some (snd e)).

(** [RemoveAndDeleteRecord]: declared to return [bool], it returns
    [GetSize()], which is converted. *)
Definition RemoveAndDeleteRecord (p : BPlusTreeLeafPage) (key : KeyType)
  : option (bool * BPlusTreeLeafPage) :=
  do target_index <- KeyIndex p key;
  do miss <- (if target_index =? GetSize p then Some true
              else do k <- KeyAt p target_index;
                   Some (negb (comparator key k =? 0)));
  if miss : bool then Some (int_to_bool (GetSize p), p)
  else
    let p1 := with_header (IncreaseSize (-1) (header p)) p in
    do a <- shift_left (Z.to_nat (GetSize p1)) (array_ p1) target_index (GetSize p1);
    let p2 := with_array a p1 in
    Some (int_to_bool (GetSize p2), p2).

(** [GetItem] *)
Definition GetItem (p : BPlusTreeLeafPage) (index : Z) : option MappingType :=
  arr_get (array_ p) index.

(** [std::copy(items, items + n, dst + to)], [items] starting at slot
    [from] of [src]. *)
Fixpoint copy_items (n : nat) (src : list MappingType) (from : Z)
    (dst : list MappingType) (to : Z) : option (list MappingType) :=
  match n with
  | O => Some dst
  | S n' =>
      do e <- arr_get src from;
      do dst' <- arr_set dst to e;
      copy_items n' src (from + 1) dst' (to + 1)
  end.

(** [CopyNFrom(items, size)], [items] being slot [from] of [src]. *)
Definition CopyNFrom (p : BPlusTreeLeafPage) (src : list MappingType) (from size : Z)
  : option BPlusTreeLeafPage :=
  do a <- copy_items (Z.to_nat size) src from (array_ p) (GetSize p);
  Some (with_header (IncreaseSize size (header p)) (with_array a p)).

(** [MoveHalfTo(recipient)]: the page and the recipient afterwards. *)
Definition MoveHalfTo (p recipient : BPlusTreeLeafPage)
  : option (BPlusTreeLeafPage * BPlusTreeLeafPage) :=
  let start_index := GetMinSize (header p) in
  let move_num := GetSize p - start_index in
  do recipient' <- CopyNFrom recipient (array_ p) start_index move_num;
  Some (with_header (IncreaseSize (- move_num) (header p)) p, recipient').

(** [MoveAllTo(recipient)]: the page and the recipient afterwards. *)
Definition MoveAllTo (p recipient : BPlusTreeLeafPage)
  : option (BPlusTreeLeafPage * BPlusTreeLeafPage) :=
  do recipient' <- CopyNFrom recipient (array_ p) 0 (GetSize p);
  Some (with_header (SetSize 0 (header p)) p, recipient').

(** [CopyLastFrom(item)] *)
Definition CopyLastFrom (p : BPlusTreeLeafPage) (item : MappingType)
  : option BPlusTreeLeafPage :=
  do a <- arr_set (array_ p) (GetSize p) item;
  Some (with_header (IncreaseSize 1 (header p)) (with_array a p)).

(** [for (int i = from; i >= 0; i--) array_[i + 1] = array_[i];] *)
Fixpoint shift_up (fuel : nat) (a : list MappingType) (i : Z)
  : option (list MappingType) :=
  if i >=? 0 then
    match fuel with
    | O => None
    | S fuel' =>
        do e <- arr_get a i;
        do a' <- arr_set a (i + 1) e;
        shift_up fuel' a' (i - 1)
    end
  else Some a.

(** [CopyFirstFrom(item)]: the loop starts at [GetSize()], the slot after
    the records. *)
Definition CopyFirstFrom (p : BPlusTreeLeafPage) (item : MappingType)
  : option BPlusTreeLeafPage :=
  do a <- shift_up (Z.to_nat (GetSize p + 1)) (array_ p) (GetSize p);
  do a' <- arr_set a 0 item;
  Some (with_header (IncreaseSize 1 (header p)) (with_array a' p)).

(** [MoveFirstToEndOf(recipient)]: the page and the recipient afterwards. *)
Definition MoveFirstToEndOf (p recipient : BPlusTreeLeafPage)
  : option (BPlusTreeLeafPage * BPlusTreeLeafPage) :=
  do item <- arr_get (array_ p) 0;
  do recipient' <- CopyLastFrom recipient item;
  let p1 := with_header (IncreaseSize (-1) (header p)) p in
  do a <- shift_left (Z.to_nat (GetSize p1)) (array_ p1) 0 (GetSize p1);
  Some (with_array a p1, recipient').

(** [MoveLastToFrontOf(recipient)]: the page and the recipient afterwards. *)
Definition MoveLastToFrontOf (p recipient : BPlusTreeLeafPage)
  : option (BPlusTreeLeafPage * BPlusTreeLeafPage) :=
  do item <- arr_get (array_ p) (GetSize p - 1);
  do recipient' <- CopyFirstFrom recipient item;
  Some (with_header (IncreaseSize (-1) (header p)) p, recipient').

(** The records of the page: the first [size_] slots. *)
Definition entries (p : BPlusTreeLeafPage) : list MappingType :=
  take (Z.to_nat (GetSize p)) (array_ p).

Definition keys (p : BPlusTreeLeafPage) : list KeyType := map fst (entries p).

(** The used slots lie inside the array. *)
Definition page_wf (p : BPlusTreeLeafPage) : Prop :=
  0 <= GetSize p <= Z.of_nat (length (array_ p)).

(** The value of the first record of a list whose key compares equal to
    [key]: what a lookup in the records of a page should give. *)
Fixpoint find_record (l : list MappingType) (key : KeyType) : option ValueType :=
  match l with
  | [] => None
  | e :: l' => if comparator (fst e) key =? 0 then Some (snd e) else find_record l' key
  end.


End Defs.
End Leaf.

Arguments Leaf.BPlusTreeLeafPage : clear implicits.

(** ** Internal pages ([b_plus_tree_internal_page.cpp])

    The value type of an internal page is [page_id_t] in every
    instantiation of the template. *)

Module Internal.
Section Defs.
Context {KeyType : Type}.
Variable comparator : KeyType -> KeyType -> Z.

Local Abbreviation ValueType := page_id_t.
Local Abbreviation MappingType := (KeyType * ValueType)%type.

Record BPlusTreeInternalPage := mkInternal {
  header : BPlusTreePage;
  array_ : list MappingType
}.

Definition GetSize (p : BPlusTreeInternalPage) : Z := size_ (header p).

Definition with_header (h : BPlusTreePage) (p : BPlusTreeInternalPage) : BPlusTreeInternalPage :=
  {| header := h; array_ := array_ p |}.

Definition with_array (a : list MappingType) (p : BPlusTreeInternalPage) : BPlusTreeInternalPage :=
  {| header := header p; array_ := a |}.

(** [Init] *)
Definition Init (page_id parent_page_id : page_id_t) (max_size : Z)
    (p : BPlusTreeInternalPage) : BPlusTreeInternalPage :=
  with_header
    (SetMaxSize max_size
       (SetSize 0 (SetParentPageId parent_page_id
          (SetPageId page_id (SetPageType INTERNAL_PAGE (header p)))))) p.

(** [KeyAt] *)
Definition KeyAt (p : BPlusTreeInternalPage) (index : Z) : option KeyType :=
  do e <- arr_get (array_ p) index; Some (fst e).

(** [SetKeyAt]: [array_[index].first = key] *)
Definition SetKeyAt (p : BPlusTreeInternalPage) (index : Z) (key : KeyType)
  : option BPlusTreeInternalPage :=
  do e <- arr_get (array_ p) index;
  do a <- arr_set (array_ p) index (key, snd e);
  Some (with_array a p).

(** [ValueAt] *)
Definition ValueAt (p : BPlusTreeInternalPage) (index : Z) : option ValueType :=
  do e <- arr_get (array_ p) index; Some (snd e).

(** [ValueIndex] *)
Fixpoint ValueIndex_loop (n : nat) (p : BPlusTreeInternalPage) (value : ValueType)
    (i : Z) : option Z :=
  match n with
  | O => Some (-1)
  | S n' =>
      do v <- ValueAt p i;
      if v =? value then Some i else ValueIndex_loop n' p value (i + 1)
  end.

Definition ValueIndex (p : BPlusTreeInternalPage) (value : ValueType) : option Z :=
  ValueIndex_loop (Z.to_nat (GetSize p)) p value 0.

(** The [while] loop of [Lookup]; as for the leaf, [GetSize()] iterations
    always suffice. *)
Fixpoint Lookup_loop (fuel : nat) (p : BPlusTreeInternalPage) (key : KeyType)
    (left right : Z) : option Z :=
  if left <=? right then
    match fuel with
    | O => None
    | S fuel' =>
        let mid := left + Z.shiftr (right - left) 1 in
        do k <- KeyAt p mid;
        if comparator k key >? 0
        then Lookup_loop fuel' p key left (mid - 1)
        else Lookup_loop fuel' p key (mid + 1) right
    end
  else Some left.

(** [Lookup]; a failing [assert] ends the program. *)
Definition Lookup (p : BPlusTreeInternalPage) (key : KeyType) : option ValueType :=
  do target_index <- Lookup_loop (Z.to_nat (GetSize p)) p key 1 (GetSize p - 1);
  if target_index - 1 >=? 0 then ValueAt p (target_index - 1) else None.

(** [PopulateNewRoot] *)
Definition PopulateNewRoot (p : BPlusTreeInternalPage)
    (old_value : ValueType) (new_key : KeyType) (new_value : ValueType)
  : option BPlusTreeInternalPage :=
  do e0 <- arr_get (array_ p) 0;
  do a0 <- arr_set (array_ p) 0 (fst e0, old_value);
  do a1 <- arr_set a0 1 (new_key, new_value);
  Some (with_header (SetSize 2 (header p)) (with_array a1 p)).

(** [for (int i = from; i > insert_index; i--) array_[i] = array_[i - 1];] *)
Fixpoint shift_right (fuel : nat) (a : list MappingType) (i insert_index : Z)
  : option (list MappingType) :=
  if i >? insert_index then
    match fuel with
    | O => None
    | S fuel' =>
        do e <- arr_get a (i - 1);
        do a' <- arr_set a i e;
        shift_right fuel' a' (i - 1) insert_index
    end
  else Some a.

(** [for (int i = from; i < size; i++) array_[i] = array_[i + 1];] *)
Fixpoint shift_left (fuel : nat) (a : list MappingType) (i size : Z)
  : option (list MappingType) :=
  if i <? size then
    match fuel with
    | O => None
    | S fuel' =>
        do e <- arr_get a (i + 1);
        do a' <- arr_set a i e;
        shift_left fuel' a' (i + 1) size
    end
  else Some a.

(** [std::copy(items, items + n, dst + to)], [items] starting at slot
    [from] of [src]. *)
Fixpoint copy_items (n : nat) (src : list MappingType) (from : Z)
    (dst : list MappingType) (to : Z) : option (list MappingType) :=
  match n with
  | O => Some dst
  | S n' =>
      do e <- arr_get src from;
      do dst' <- arr_set dst to e;
      copy_items n' src (from + 1) dst' (to + 1)
  end.

(** [InsertNodeAfter] *)
Definition InsertNodeAfter (p : BPlusTreeInternalPage)
    (old_value : ValueType) (new_key : KeyType) (new_value : ValueType)
  : option (Z * BPlusTreeInternalPage) :=
  do found <- ValueIndex p old_value;
  let insert_index := found + 1 in
  do a <- shift_right (Z.to_nat (GetSize p)) (array_ p) (GetSize p) insert_index;
  do a' <- arr_set a insert_index (new_key, new_value);
  let p' := with_header (IncreaseSize 1 (header p)) (with_array a' p) in
  Some (GetSize p', p').

(** [Remove] *)
Definition Remove (p : BPlusTreeInternalPage) (index : Z) : option BPlusTreeInternalPage :=
  let p1 := with_header (IncreaseSize (-1) (header p)) p in
  do a <- shift_left (Z.to_nat (GetSize p1)) (array_ p1) index (GetSize p1);
  Some (with_array a p1).

(** [RemoveAndReturnOnlyChild] *)
Definition RemoveAndReturnOnlyChild (p : BPlusTreeInternalPage)
  : option (ValueType * BPlusTreeInternalPage) :=
  let p1 := with_header (SetSize 0 (header p)) p in
  do v <- ValueAt p1 0;
  Some (v, p1).

(** The keys in use: those at the indices [1 .. size - 1]. *)
Definition keys (p : BPlusTreeInternalPage) : list KeyType :=
  map fst (drop 1 (take (Z.to_nat (GetSize p)) (array_ p))).

(** The entries in use: the first [size_] slots, each a key and a child. *)
Definition entries (p : BPlusTreeInternalPage) : list MappingType :=
  take (Z.to_nat (GetSize p)) (array_ p).

(** At least the child at index 0, and the used slots inside the array. *)
Definition page_wf (p : BPlusTreeInternalPage) : Prop :=
  1 <= GetSize p <= Z.of_nat (length (array_ p)).

End Defs.
End Internal.

Arguments Internal.BPlusTreeInternalPage : clear implicits.

(** * The B+tree ([b_plus_tree.cpp]) *)

Module Tree.
Section Defs.
Context {KeyType ValueType : Type}.
Variable comparator : KeyType -> KeyType -> Z.

Local Abbreviation LeafPage := (Leaf.BPlusTreeLeafPage KeyType ValueType).
Local Abbreviation InternalPage := (Internal.BPlusTreeInternalPage KeyType).
Local Abbreviation frame_id_t := Clock.frame_id_t.

(** Modelled from the spec: the typed view accessors [As] and [AsMut] of a
    guard expose the bytes of its frame as a node of the type asked for.
    How the header page, the node header, a leaf and an internal page are
    laid out in these bytes is a parameter. *)
Record Layout := mkLayout {
  load_root_page_id : list Byte.byte -> page_id_t;
  store_root_page_id : page_id_t -> list Byte.byte -> list Byte.byte;
  load_node : list Byte.byte -> BPlusTreePage;
  store_node : BPlusTreePage -> list Byte.byte -> list Byte.byte;
  load_leaf : list Byte.byte -> LeafPage;
  store_leaf : LeafPage -> list Byte.byte -> list Byte.byte;
  load_internal : list Byte.byte -> InternalPage;
  store_internal : InternalPage -> list Byte.byte -> list Byte.byte
}.

Variable layout : Layout.

(** Modelled from the spec: the transaction context provides an ordered
    page set (the pages held latched) and a deleted page set. *)
Record Transaction := mkTxn {
  page_set_ : list (option frame_id_t);  (* std::deque<Page *> *)
  deleted_page_set_ : list page_id_t
}.

(** What an operation of the tree acts on: the pool behind [bpm_] and the
    transaction behind [txn] ([None] for [nullptr]). *)
Record World := mkWorld {
  pool : BPM.BufferPoolManager;
  txn : option Transaction
}.

Record BPlusTree := mkTree {
  leaf_max_size_ : Z;
  internal_max_size_ : Z;
  header_page_id_ : page_id_t
}.

Inductive Operation := FIND | INSERT | DELETE.

(** State and undefined behaviour. *)
Definition M (A : Type) : Type := World -> option (A * World).

Definition ret {A} (a : A) : M A := fun w => Some (a, w).

Definition bind {A B} (m : M A) (k : A -> M B) : M B :=
  fun w => match m w with Some (a, w') => k a w' | None => None end.

Definition fail {A} : M A := fun _ => None.

Definition lift {A} (o : option A) : M A :=
  fun w => match o with Some a => Some (a, w) | None => None end.

Definition on_pool {A} (f : BPM.BufferPoolManager -> option (A * BPM.BufferPoolManager))
  : M A :=
  fun w => match f (pool w) with
           | Some (a, b) => Some (a, {| pool := b; txn := txn w |})
           | None => None
           end.

Definition get_pool : M BPM.BufferPoolManager := fun w => Some (pool w, w).

Definition get_txn : M (option Transaction) := fun w => Some (txn w, w).

Local Notation "'run' x <- m ; k" := (bind m (fun x => k))
  (at level 10, x name, m at level 100, k at level 200, only parsing).

(** *** Frames, guards and typed views *)

(** [*page] for a [Page *]. *)
Definition frame_page (f : frame_id_t) : M Frame.Page :=
  fun w => do page <- arr_get (BPM.pages_ (pool w)) f; Some (page, w).

Definition set_frame_data (f : frame_id_t) (data : list Byte.byte) : M unit :=
  on_pool (fun b =>
    do page <- arr_get (BPM.pages_ b) f;
    do pages <- arr_set (BPM.pages_ b) f (Frame.set_data data page);
    Some (tt, BPM.with_pages pages b)).

(** Modelled from the spec: [guard.As<T>()] and [guard.AsMut<T>()] of
    [page_guard.h] give a pointer into the data of the guard's page, that
    is, the frame; there is none when the guard has no page. *)
Definition As (g : Guard.BasicPageGuard) : M frame_id_t := lift (Guard.page_ g).

(** Modelled from the spec: [guard.PageId()] of [page_guard.h] is the id
    of the guard's page. *)
Definition PageId (g : Guard.BasicPageGuard) : M page_id_t :=
  run f <- As g; run page <- frame_page f; ret (Frame.page_id_ page).

Definition get_root (f : frame_id_t) : M page_id_t :=
  run page <- frame_page f; ret (load_root_page_id layout (Frame.data_ page)).

Definition put_root (f : frame_id_t) (id : page_id_t) : M unit :=
  run page <- frame_page f;
  set_frame_data f (store_root_page_id layout id (Frame.data_ page)).

Definition get_node (f : frame_id_t) : M BPlusTreePage :=
  run page <- frame_page f; ret (load_node layout (Frame.data_ page)).

Definition put_node (f : frame_id_t) (h : BPlusTreePage) : M unit :=
  run page <- frame_page f; set_frame_data f (store_node layout h (Frame.data_ page)).

Definition get_leaf (f : frame_id_t) : M LeafPage :=
  run page <- frame_page f; ret (load_leaf layout (Frame.data_ page)).

Definition put_leaf (f : frame_id_t) (p : LeafPage) : M unit :=
  run page <- frame_page f; set_frame_data f (store_leaf layout p (Frame.data_ page)).

Definition get_internal (f : frame_id_t) : M InternalPage :=
  run page <- frame_page f; ret (load_internal layout (Frame.data_ page)).

Definition put_internal (f : frame_id_t) (p : InternalPage) : M unit :=
  run page <- frame_page f; set_frame_data f (store_internal layout p (Frame.data_ page)).

Definition UnpinPage (page_id : page_id_t) (is_dirty : bool) : M bool :=
  on_pool (BPM.UnpinPage page_id is_dirty).

(** Destructors and moves of guards. *)
Definition destroy_basic (g : Guard.BasicPageGuard) : M unit :=
  on_pool (fun b => do r <- PageGuard.Drop g b; Some (tt, snd r)).

Definition destroy_read (g : Guard.ReadPageGuard) : M unit :=
  on_pool (fun b => do r <- PageGuard.Read_Drop g b; Some (tt, snd r)).

Definition destroy_write (g : Guard.WritePageGuard) : M unit :=
  on_pool (fun b => do r <- PageGuard.Write_Drop g b; Some (tt, snd r)).

Definition move_construct_write (that : Guard.WritePageGuard)
  : M (Guard.WritePageGuard * Guard.WritePageGuard) :=
  on_pool (fun b =>
    do r <- PageGuard.Write_move_construct that b;
    Some ((fst (fst r), snd (fst r)), snd r)).

Definition move_assign_write (this that : Guard.WritePageGuard)
  : M (Guard.WritePageGuard * Guard.WritePageGuard) :=
  on_pool (fun b =>
    do r <- PageGuard.Write_move_assign this that b;
    Some ((fst (fst r), snd (fst r)), snd r)).

(** *** The transaction's page set *)

(** Modelled from the spec: [txn->AddIntoPageSet(page)] appends to the
    page set; there must be a transaction. *)
Definition AddIntoPageSet (page : option frame_id_t) : M unit :=
  fun w =>
    do t <- txn w;
    Some (tt, {| pool := pool w;
                 txn := Some {| page_set_ := page_set_ t ++ [page];
                                deleted_page_set_ := deleted_page_set_ t |} |}).

(** Modelled from the spec: [txn->GetPageSet()->clear()]. *)
Definition clear_page_set : M unit :=
  fun w =>
    do t <- txn w;
    Some (tt, {| pool := pool w;
                 txn := Some {| page_set_ := [];
                                deleted_page_set_ := deleted_page_set_ t |} |}).

(** [page->WUnlatch()] for every page of the set: each must be a page. *)
Fixpoint unlatch_pages (pages : list (option frame_id_t)) : M unit :=
  match pages with
  | [] => ret tt
  | page :: rest => run f <- lift page; run p <- frame_page f; unlatch_pages rest
  end.

(** [page->WUnlatch(); bpm_->UnpinPage(page->GetPageId(), false)] for
    every page of the set. *)
Fixpoint unlatch_unpin_pages (pages : list (option frame_id_t)) : M unit :=
  match pages with
  | [] => ret tt
  | page :: rest =>
      run f <- lift page;
      run p <- frame_page f;
      run unpinned <- UnpinPage (Frame.page_id_ p) false;
      unlatch_unpin_pages rest
  end.

(** [UnlockPages] *)
Definition UnlockPages : M unit :=
  fun w =>
    match txn w with
    | None => Some (tt, w)
    | Some t => (run u <- unlatch_pages (page_set_ t); clear_page_set) w
    end.

(** [UnlockUnpinPages] *)
Definition UnlockUnpinPages : M unit :=
  fun w =>
    match txn w with
    | None => Some (tt, w)
    | Some t => (run u <- unlatch_unpin_pages (page_set_ t); clear_page_set) w
    end.

(** [IsSafe] *)
Definition IsSafe (node : BPlusTreePage) (op : Operation) : bool :=
  if IsRootPage node then
    match op with
    | INSERT => size_ node <? max_size_ node - 1
    | DELETE => size_ node >? 2
    | FIND => false
    end
  else
    match op with
    | INSERT => size_ node <? max_size_ node - 1
    | DELETE => size_ node >? GetMinSize node
    | FIND => true
    end.

(** *** The header page *)

(** [IsEmpty] *)
Definition IsEmpty (t : BPlusTree) : M bool :=
  run b <- get_pool;
  let guard := BPM.FetchPageRead (header_page_id_ t) b in
  run root_page <- As (Guard.read_guard_ guard);
  run root <- get_root root_page;
  run d <- destroy_read guard;
  ret (root =? INVALID_PAGE_ID).

(** [GetRootPageId] *)
Definition GetRootPageId (t : BPlusTree) : M page_id_t :=
  run b <- get_pool;
  let guard := BPM.FetchPageRead (header_page_id_ t) b in
  run header_page <- As (Guard.read_guard_ guard);
  run root <- get_root header_page;
  run d <- destroy_read guard;
  ret root.

(** [UpdateRootPageId] *)
Definition UpdateRootPageId (t : BPlusTree) (page_id : page_id_t) : M unit :=
  run b <- get_pool;
  let guard := BPM.FetchPageWrite (header_page_id_ t) b in
  run header_page <- As (Guard.write_guard_ guard);
  run u <- put_root header_page page_id;
  destroy_write guard.

(** *** Search *)

(** The [while] loop of [FindLeafPageByOperation].  [fuel] bounds the
    number of levels that are descended. *)
Fixpoint descend (fuel : nat) (key : KeyType) (operation : Operation)
    (leftMost rightMost : bool)
    (page_guard : Guard.WritePageGuard) (node : frame_id_t)
    (is_root_page_id_latched : bool) : M (Guard.WritePageGuard * bool) :=
  run node_header <- get_node node;
  if IsLeafPage node_header then ret (page_guard, is_root_page_id_latched)
  else
    match fuel with
    | O => fail
    | S fuel' =>
        run i_node <- As (Guard.write_guard_ page_guard);
        run internal <- get_internal i_node;
        run child_node_page_id <-
          lift (if leftMost then Internal.ValueAt internal 0
                else if rightMost
                     then Internal.ValueAt internal (Internal.GetSize internal - 1)
                     else Internal.Lookup comparator internal key);
        run b <- get_pool;
        let child_page_guard := BPM.FetchPageWrite child_node_page_id b in
        run child_node <- As (Guard.write_guard_ child_page_guard);
        run child_header <- get_node child_node;
        run latched <-
          match operation with
          | FIND =>
              run id <- PageId (Guard.write_guard_ page_guard);
              run unpinned <- UnpinPage id false;
              ret is_root_page_id_latched
          | _ =>
              run added <- AddIntoPageSet (Guard.page_ (Guard.write_guard_ page_guard));
              if IsSafe child_header operation
              then run u <- UnlockUnpinPages; ret false
              else ret is_root_page_id_latched
          end;
        (* page_guard = std::move(child_page_guard); *)
        run moved <- move_assign_write page_guard child_page_guard;
        (* end of the loop body: ~child_page_guard *)
        run d <- destroy_write (snd moved);
        descend fuel' key operation leftMost rightMost (fst moved) child_node latched
    end.

(** [FindLeafPageByOperation]: the guard of the leaf and whether the root
    latch is still held. *)
Definition FindLeafPageByOperation (fuel : nat) (t : BPlusTree) (key : KeyType)
    (operation : Operation) (leftMost rightMost : bool)
  : M (Guard.WritePageGuard * bool) :=
  run transaction <- get_txn;
  (* assert(operation == FIND ? !(leftMost && rightMost) : txn != nullptr) *)
  if negb (match operation with
           | FIND => negb (leftMost && rightMost)
           | _ => match transaction with Some _ => true | None => false end
           end)
  then fail
  else
    run b <- get_pool;
    let header_page_guard := BPM.FetchPageRead (header_page_id_ t) b in
    run header_page <- As (Guard.read_guard_ header_page_guard);
    run root_page_id <- get_root header_page;
    let page_guard := BPM.FetchPageWrite root_page_id b in
    run node <- As (Guard.write_guard_ page_guard);
    run node_header <- get_node node;
    let is_root_page_id_latched :=
      match operation with
      | FIND => false
      | _ => negb (IsSafe node_header operation)
      end in
    run found <- descend fuel key operation leftMost rightMost page_guard node
                   is_root_page_id_latched;
    (* return std::make_pair(std::move(page_guard), flag); then the locals
       page_guard and header_page_guard are destroyed *)
    run moved <- move_construct_write (fst found);
    run d1 <- destroy_write (snd moved);
    run d2 <- destroy_read header_page_guard;
    ret (fst moved, snd found).

(** [GetValue]: the returned [bool] and the result vector afterwards. *)
Definition GetValue (fuel : nat) (t : BPlusTree) (key : KeyType)
    (result : list ValueType) : M (bool * list ValueType) :=
  run found <- FindLeafPageByOperation fuel t key FIND false false;
  (* WritePageGuard leaf_page_guard = (...).first; then the pair goes *)
  run moved <- move_construct_write (fst found);
  run d1 <- destroy_write (snd moved);
  let leaf_page_guard := fst moved in
  run leaf_node <- As (Guard.write_guard_ leaf_page_guard);
  run leaf <- get_leaf leaf_node;
  run looked_up <- lift (Leaf.Lookup comparator leaf key);
  run id <- PageId (Guard.write_guard_ leaf_page_guard);
  run unpinned <- UnpinPage id false;
  run d2 <- destroy_write leaf_page_guard;
  match looked_up with
  | None => ret (false, result)
  | Some value => ret (true, result ++ [value])
  end.

(** *** Insertion *)

(** The loop of [BPlusTreeInternalPage::CopyNFrom] on the page in frame
    [self]: every copied child gets this page as its parent. *)
Fixpoint reparent_children (n : nat) (self : frame_id_t) (i : Z) : M unit :=
  match n with
  | O => ret tt
  | S n' =>
      run me <- get_internal self;
      run child_page_id <- lift (Internal.ValueAt me i);
      run b <- get_pool;
      let child_page_guard := BPM.FetchPageBasic child_page_id b in
      run child_node <- As child_page_guard;
      run child_header <- get_node child_node;
      run u <- put_node child_node
                 (SetParentPageId (page_id_ (Internal.header me)) child_header);
      run id <- PageId child_page_guard;
      run unpinned <- UnpinPage id true;
      run d <- destroy_basic child_page_guard;
      reparent_children n' self (i + 1)
  end.

(** [BPlusTreeInternalPage::CopyNFrom(items, size, bpm)] on the page in
    frame [self], [items] being slot [from] of [src]. *)
Definition Internal_CopyNFrom (self : frame_id_t) (src : list (KeyType * page_id_t))
    (from size : Z) : M unit :=
  run me <- get_internal self;
  run a <- lift (Internal.copy_items (Z.to_nat size) src from
                   (Internal.array_ me) (Internal.GetSize me));
  run u <- put_internal self (Internal.with_array a me);
  run r <- reparent_children (Z.to_nat size) self (Internal.GetSize me);
  run me' <- get_internal self;
  put_internal self (Internal.with_header (IncreaseSize size (Internal.header me')) me').

(** [BPlusTreeInternalPage::MoveHalfTo(recipient, bpm)] on the page in
    frame [self]. *)
Definition Internal_MoveHalfTo (self recipient : frame_id_t) : M unit :=
  run me <- get_internal self;
  let start_index := GetMinSize (Internal.header me) in
  let move_num := Internal.GetSize me - start_index in
  run c <- Internal_CopyNFrom recipient (Internal.array_ me) start_index move_num;
  run me' <- get_internal self;
  put_internal self
    (Internal.with_header (IncreaseSize (- move_num) (Internal.header me')) me').

(** [Split]: the new node; its guard is gone when [Split] returns. *)
Definition Split (t : BPlusTree) (node : frame_id_t) : M frame_id_t :=
  run b <- get_pool;
  let created := BPM.NewPageGuarded INVALID_PAGE_ID b in
  let new_page_id := fst created in
  let new_page_guard := snd created in
  run new_node <- As new_page_guard;
  run node_header <- get_node node;
  run new_header <- get_node new_node;
  run u <- put_node new_node (SetPageType (page_type_ node_header) new_header);
  run s <-
    (if IsLeafPage node_header then
       run new_leaf <- get_leaf new_node;
       run u1 <- put_leaf new_node
                   (Leaf.Init new_page_id (parent_page_id_ node_header)
                      (leaf_max_size_ t) new_leaf);
       run old_leaf <- get_leaf node;
       run new_leaf <- get_leaf new_node;
       run moved <- lift (Leaf.MoveHalfTo old_leaf new_leaf);
       let old_leaf := fst moved in
       let new_leaf := Leaf.SetNextPageId (Leaf.next_page_id_ old_leaf) (snd moved) in
       let old_leaf := Leaf.SetNextPageId (page_id_ (Leaf.header new_leaf)) old_leaf in
       run u2 <- put_leaf new_node new_leaf;
       put_leaf node old_leaf
     else
       run new_internal <- get_internal new_node;
       run u1 <- put_internal new_node
                   (Internal.Init new_page_id (parent_page_id_ node_header)
                      (internal_max_size_ t) new_internal);
       Internal_MoveHalfTo node new_node);
  run d <- destroy_basic new_page_guard;
  ret new_node.

(** [InsertIntoParent]: what [*root_is_latched] is afterwards.  [fuel]
    bounds the number of levels that are split. *)
Fixpoint InsertIntoParent (fuel : nat) (t : BPlusTree) (old_node : frame_id_t)
    (key : KeyType) (new_node : frame_id_t) (root_is_latched : bool) : M bool :=
  match fuel with
  | O => fail
  | S fuel' =>
      run old_header <- get_node old_node;
      if IsRootPage old_header then
        run b <- get_pool;
        let created := BPM.NewPageGuarded INVALID_PAGE_ID b in
        let new_page_id := fst created in
        let new_page_guard := snd created in
        run u0 <- UpdateRootPageId t new_page_id;
        run new_root_node <- As new_page_guard;
        run new_root <- get_internal new_root_node;
        run u1 <- put_internal new_root_node
                    (Internal.Init new_page_id INVALID_PAGE_ID
                       (internal_max_size_ t) new_root);
        run new_root <- get_internal new_root_node;
        run old_header <- get_node old_node;
        run new_header <- get_node new_node;
        run populated <- lift (Internal.PopulateNewRoot new_root
                                 (page_id_ old_header) key (page_id_ new_header));
        run u2 <- put_internal new_root_node populated;
        run old_header <- get_node old_node;
        run u3 <- put_node old_node (SetParentPageId new_page_id old_header);
        run new_header <- get_node new_node;
        run u4 <- put_node new_node (SetParentPageId new_page_id new_header);
        run id <- PageId new_page_guard;
        run unpinned <- UnpinPage id true;
        run u5 <- UnlockPages;
        run d <- destroy_basic new_page_guard;
        ret false
      else
        run b <- get_pool;
        let parent_page_guard := BPM.FetchPageWrite (parent_page_id_ old_header) b in
        run parent_node <- As (Guard.write_guard_ parent_page_guard);
        run parent <- get_internal parent_node;
        run new_header <- get_node new_node;
        run inserted <- lift (Internal.InsertNodeAfter parent
                                (page_id_ old_header) key (page_id_ new_header));
        run u1 <- put_internal parent_node (snd inserted);
        run parent <- get_internal parent_node;
        if Internal.GetSize parent <? max_size_ (Internal.header parent) then
          run u2 <- UnlockPages;
          run id <- PageId (Guard.write_guard_ parent_page_guard);
          run unpinned <- UnpinPage id true;
          run d <- destroy_write parent_page_guard;
          ret false
        else
          run new_parent_node <- Split t parent_node;
          run new_parent <- get_internal new_parent_node;
          run key0 <- lift (Internal.KeyAt new_parent 0);
          run latched <- InsertIntoParent fuel' t parent_node key0 new_parent_node
                           root_is_latched;
          run id <- PageId (Guard.write_guard_ parent_page_guard);
          run unpinned <- UnpinPage id true;
          run new_parent_header <- get_node new_parent_node;
          run unpinned' <- UnpinPage (page_id_ new_parent_header) true;
          run d <- destroy_write parent_page_guard;
          ret latched
  end.

(** [StartNewTree] *)
Definition StartNewTree (t : BPlusTree) (key : KeyType) (value : ValueType) : M unit :=
  run b <- get_pool;
  let created := BPM.NewPageGuarded INVALID_PAGE_ID b in
  let new_page_id := fst created in
  let new_page_guard := snd created in
  let header_page_guard := BPM.FetchPageWrite (header_page_id_ t) b in
  run header_page <- As (Guard.write_guard_ header_page_guard);
  run u0 <- put_root header_page new_page_id;
  run leaf_page <- As new_page_guard;
  run leaf <- get_leaf leaf_page;
  run u1 <- put_leaf leaf_page
              (Leaf.Init new_page_id INVALID_PAGE_ID (leaf_max_size_ t) leaf);
  run leaf <- get_leaf leaf_page;
  run inserted <- lift (Leaf.Insert comparator leaf key value);
  run u2 <- put_leaf leaf_page (snd inserted);
  run id <- PageId new_page_guard;
  run unpinned <- UnpinPage id true;
  run d1 <- destroy_write header_page_guard;
  destroy_basic new_page_guard.

(** [InsertIntoLeaf] *)
Definition InsertIntoLeaf (fuel : nat) (t : BPlusTree) (key : KeyType)
    (value : ValueType) : M bool :=
  run pair <- FindLeafPageByOperation fuel t key INSERT false false;
  (* WritePageGuard leaf_page_guard = std::move(pair.first); *)
  run moved <- move_construct_write (fst pair);
  let leaf_page_guard := fst moved in
  let pair_first := snd moved in
  let root_is_latched := snd pair in
  run leaf_node <- As (Guard.write_guard_ leaf_page_guard);
  run leaf <- get_leaf leaf_node;
  let size := Leaf.GetSize leaf in
  run inserted <- lift (Leaf.Insert comparator leaf key value);
  let new_size := fst inserted in
  run u0 <- put_leaf leaf_node (snd inserted);
  if new_size =? size then
    run u1 <- UnlockUnpinPages;
    run id <- PageId (Guard.write_guard_ leaf_page_guard);
    run unpinned <- UnpinPage id false;
    run d1 <- destroy_write leaf_page_guard;
    run d2 <- destroy_write pair_first;
    ret false
  else
    run leaf <- get_leaf leaf_node;
    if new_size <? max_size_ (Leaf.header leaf) then
      run id <- PageId (Guard.write_guard_ leaf_page_guard);
      run unpinned <- UnpinPage id true;
      run d1 <- destroy_write leaf_page_guard;
      run d2 <- destroy_write pair_first;
      ret true
    else
      run new_leaf_node <- Split t leaf_node;
      run new_leaf <- get_leaf new_leaf_node;
      run key0 <- lift (Leaf.KeyAt new_leaf 0);
      run latched <- InsertIntoParent fuel t leaf_node key0 new_leaf_node root_is_latched;
      (* the assertion that the root latch has been released *)
      if latched : bool then fail
      else
        run id <- PageId (Guard.write_guard_ leaf_page_guard);
        run unpinned <- UnpinPage id true;
        run new_leaf_header <- get_node new_leaf_node;
        run unpinned' <- UnpinPage (page_id_ new_leaf_header) true;
        run d1 <- destroy_write leaf_page_guard;
        run d2 <- destroy_write pair_first;
        ret true.

(** [Insert] *)
Definition Insert (fuel : nat) (t : BPlusTree) (key : KeyType) (value : ValueType)
  : M bool :=
  run empty <- IsEmpty t;
  if empty : bool then
    run u <- StartNewTree t key value;
    ret true
  else InsertIntoLeaf fuel t key value.

End Defs.
End Tree.

(** ** Integer keys *)

(** Modelled from the spec: [GenericComparator] is not among the sources;
    in the scenarios of the design document keys are integers, compared
    as such, with answers -1, 0 and 1. *)
Definition int_comparator (a b : Z) : Z :=
  if a <? b then -1 else if b <? a then 1 else 0.

(** *** Sample leaves (integer keys and values, four slots) *)

Definition leaf_header (size : Z) : BPlusTreePage :=
  {| page_type_ := LEAF_PAGE; size_ := size; max_size_ := 4;
     parent_page_id_ := INVALID_PAGE_ID; page_id_ := 1 |}.

Definition sample_leaf (size : Z) (slots : list (Z * Z)) : Leaf.BPlusTreeLeafPage Z Z :=
  {| Leaf.header := leaf_header size;
     Leaf.next_page_id_ := INVALID_PAGE_ID;
     Leaf.array_ := slots |}.

(** Records 1 and 3; the last two slots were never written. *)
Definition leaf_1_3 := sample_leaf 2 [(1, 10); (3, 30); (0, 0); (0, 0)].

(** Record 1 only. *)
Definition leaf_1 := sample_leaf 1 [(1, 10); (0, 0); (0, 0); (0, 0)].

(** An internal page with three children: keys below 5 go to page 100,
    keys from 5 and below 9 to page 101, the others to page 102.  The key
    of slot 0 is not in use. *)
Definition internal_5_9 : Internal.BPlusTreeInternalPage Z :=
  {| Internal.header :=
       {| page_type_ := INTERNAL_PAGE; size_ := 3; max_size_ := 4;
          parent_page_id_ := INVALID_PAGE_ID; page_id_ := 2 |};
     Internal.array_ := [(0, 100); (5, 101); (9, 102); (0, 0)] |}.

(** A leaf right after [Init] on a zeroed page: no record, every slot
    reads as key 0 and value 0. *)
Definition leaf_fresh : Leaf.BPlusTreeLeafPage Z Z :=
  Leaf.Init 1 INVALID_PAGE_ID 4
    {| Leaf.header := {| page_type_ := INVALID_INDEX_PAGE; size_ := 0; max_size_ := 0;
                         parent_page_id_ := 0; page_id_ := 0 |};
       Leaf.next_page_id_ := 0;
       Leaf.array_ := [(0, 0); (0, 0); (0, 0); (0, 0)] |}.

(** [leaf_1] after its record was removed. *)
Definition leaf_1_removed := sample_leaf 0 [(1, 10); (0, 0); (0, 0); (0, 0)].

(** [leaf_1_3] after record 3 was removed: the record is still in slot 1,
    which is no longer in use. *)
Definition leaf_1_stale_3 := sample_leaf 1 [(1, 10); (3, 30); (0, 0); (0, 0)].

(** An internal page of four slots that holds nothing yet. *)
Definition internal_blank : Internal.BPlusTreeInternalPage Z :=
  {| Internal.header :=
       {| page_type_ := INTERNAL_PAGE; size_ := 0; max_size_ := 4;
          parent_page_id_ := INVALID_PAGE_ID; page_id_ := 3 |};
     Internal.array_ := [(0, 0); (0, 0); (0, 0); (0, 0)] |}.

(** A full leaf: records 1, 3, 5 and 7. *)
Definition leaf_full := sample_leaf 4 [(1, 10); (3, 30); (5, 50); (7, 70)].

(** Records 1, 3 and 5; one free slot. *)
Definition leaf_1_3_5 := sample_leaf 3 [(1, 10); (3, 30); (5, 50); (0, 0)].

(** Record 5 only. *)
Definition leaf_5 := sample_leaf 1 [(5, 50); (0, 0); (0, 0); (0, 0)].

(* ===================================================================== *)
(** * Properties *)
(* ===================================================================== *)

(** ** Raw arrays and conversions *)

Section RawArrayFacts.
Context {A : Type}.
Implicit Types (a : list A) (i j : Z) (x : A).

Lemma arr_get_Some a i x :
  arr_get a i = Some x -> 0 <= i < Z.of_nat (length a).
Proof.
  unfold arr_get. destruct (Z.ltb_spec i 0); [discriminate|].
  intros H1. apply lookup_lt_Some in H1. lia.
Qed.

Lemma arr_get_in_range a i :
  0 <= i < Z.of_nat (length a) -> exists x, arr_get a i = Some x.
Proof.
  intros Hi. unfold arr_get. destruct (Z.ltb_spec i 0); [lia|].
  destruct (lookup_lt_is_Some_2 a (Z.to_nat i)) as [x Hx]; [lia|eauto].
Qed.

Lemma arr_set_in_range a i x :
  0 <= i < Z.of_nat (length a) ->
  arr_set a i x = Some (<[Z.to_nat i := x]> a).
Proof.
  intros Hi. unfold arr_set.
  destruct (Z.leb_spec 0 i); [|lia].
  destruct (Z.ltb_spec i (Z.of_nat (length a))); [reflexivity|lia].
Qed.

Lemma arr_set_Some a i x a' :
  arr_set a i x = Some a' ->
  0 <= i < Z.of_nat (length a) /\ a' = <[Z.to_nat i := x]> a.
Proof.
  unfold arr_set.
  destruct (Z.leb_spec 0 i); [|discriminate].
  destruct (Z.ltb_spec i (Z.of_nat (length a))); [|discriminate].
  intros [= <-]. split; [lia|reflexivity].
Qed.

Lemma arr_get_set_eq a i x :
  0 <= i < Z.of_nat (length a) ->
  arr_get (<[Z.to_nat i := x]> a) i = Some x.
Proof.
  intros Hi. unfold arr_get. destruct (Z.ltb_spec i 0); [lia|].
  apply list_lookup_insert_eq. lia.
Qed.

Lemma arr_get_set_ne a i j x :
  0 <= i -> 0 <= j -> i <> j ->
  arr_get (<[Z.to_nat i := x]> a) j = arr_get a j.
Proof.
  intros Hi Hj Hne. unfold arr_get. destruct (Z.ltb_spec j 0); [lia|].
  apply list_lookup_insert_ne. lia.
Qed.
Lemma arr_get_of_nat a (n : nat) : arr_get a (Z.of_nat n) = a !! n.
Proof.
  unfold arr_get. destruct (Z.ltb_spec (Z.of_nat n) 0); [lia|].
  rewrite Nat2Z.id. reflexivity.
Qed.

Lemma arr_get_insert a i j x :
  0 <= i < Z.of_nat (length a) -> 0 <= j ->
  arr_get (<[Z.to_nat i := x]> a) j = if j =? i then Some x else arr_get a j.
Proof.
  intros Hi Hj. destruct (Z.eqb_spec j i) as [->|Hne].
  - apply arr_get_set_eq. exact Hi.
  - apply arr_get_set_ne; lia.
Qed.

End RawArrayFacts.

Lemma to_size_t_small x : 0 <= x < 2 ^ 64 -> to_size_t x = x.
Proof. intros Hx. unfold to_size_t. apply Z.mod_small. exact Hx. Qed.

Lemma to_frame_id_t_small x : - 2 ^ 31 <= x < 2 ^ 31 -> to_frame_id_t x = x.
Proof. intros Hx. unfold to_frame_id_t. rewrite Z.mod_small; lia. Qed.


(** ** The CLOCK replacer *)

Section ClockFacts.
Import Clock.
Implicit Types (r : ClockReplacer) (f : frame_id_t).

Lemma NextSlot_in_range r slot :
  0 <= slot < num_pages_ r -> num_pages_ r <= 2 ^ 31 ->
  NextSlot r slot = Some ((slot + 1) mod num_pages_ r).
Proof.
  intros Hs Hn. unfold NextSlot.
  destruct (Z.eqb_spec (num_pages_ r) 0) as [E|_]; [lia|].
  assert (0 <= (slot + 1) mod num_pages_ r < num_pages_ r)
    by (apply Z.mod_pos_bound; lia).
  rewrite to_size_t_small by lia.
  rewrite to_frame_id_t_small by lia. reflexivity.
Qed.

Lemma Clock_wf_new n : 0 <= n <= 2 ^ 31 -> wf (new n).
Proof.
  intros Hn. unfold wf, new; simpl.
  rewrite length_replicate. repeat split; try lia.
Qed.

Lemma Clock_wf_Pin r f r' : wf r -> Pin f r = Some r' -> wf r'.
Proof.
  intros (Hn & Hlen & Hp). unfold Pin.
  destruct (NextSlot r f) as [next|] eqn:En; [|discriminate].
  destruct (arr_set (ref_flag_ r) f false) as [flags|] eqn:Ef; [|discriminate].
  intros [= <-]. apply arr_set_Some in Ef as [Hf ->].
  rewrite NextSlot_in_range in En by lia. injection En as <-.
  unfold wf; simpl. rewrite length_insert.
  repeat split; try lia. right. apply Z.mod_pos_bound. lia.
Qed.

Lemma Clock_wf_Unpin r f r' : wf r -> Unpin f r = Some r' -> wf r'.
Proof.
  intros (Hn & Hlen & Hp). unfold Unpin.
  destruct (arr_set (ref_flag_ r) f true) as [flags|] eqn:Ef; [|discriminate].
  intros [= <-]. apply arr_set_Some in Ef as [Hf ->].
  unfold wf; simpl. rewrite length_insert. repeat split; try lia.
Qed.

(** What the scan of [Victim] computes: starting at [c] and looking at
    [k] slots at most, it stops at the first slot whose bit is set. *)
Lemma Victim_loop_spec r : wf r -> forall k c,
  0 <= c < num_pages_ r ->
  exists res r', Victim_loop k r c = Some (res, r') /\
    match res with
    | None =>
        r' = r /\
        forall e, 0 <= e < Z.of_nat k ->
          arr_get (ref_flag_ r) ((c + e) mod num_pages_ r) = Some false
    | Some f =>
        exists d, 0 <= d < Z.of_nat k /\
          f = (c + d) mod num_pages_ r /\
          arr_get (ref_flag_ r) f = Some true /\
          (forall e, 0 <= e < d ->
             arr_get (ref_flag_ r) ((c + e) mod num_pages_ r) = Some false) /\
          r' = {| num_pages_ := num_pages_ r;
                  pointer_ := (f + 1) mod num_pages_ r;
                  ref_flag_ := <[Z.to_nat f := false]> (ref_flag_ r) |}
    end.
Proof.
  intros (Hn & Hlen & Hp). induction k as [|k IH]; intros c Hc.
  - exists None, r. simpl. split; [reflexivity|]. split; [reflexivity|]. lia.
  - simpl. destruct (arr_get_in_range (ref_flag_ r) c) as [b Hb]; [lia|].
    rewrite Hb. rewrite NextSlot_in_range by lia.
    destruct b; simpl.
    + rewrite arr_set_in_range by lia.
      eexists (Some c), _. split; [reflexivity|].
      exists 0. rewrite Z.add_0_r, Z.mod_small by lia.
      repeat split; try lia. exact Hb.
    + assert (Hc' : 0 <= (c + 1) mod num_pages_ r < num_pages_ r)
        by (apply Z.mod_pos_bound; lia).
      destruct (IH _ Hc') as (res & r' & Hrun & Hres).
      exists res, r'. split; [exact Hrun|].
      assert (Hshift : forall e, ((c + 1) mod num_pages_ r + e) mod num_pages_ r
                                 = (c + (e + 1)) mod num_pages_ r).
      { intros e. rewrite Zplus_mod_idemp_l. f_equal. lia. }
      destruct res as [f|].
      * destruct Hres as (d & Hd & Hf & Hbit & Hbefore & Hr').
        exists (d + 1). rewrite <- Hshift. repeat split; try lia; try assumption.
        intros e He. destruct (Z.eq_dec e 0) as [->|Hne].
        -- rewrite Z.add_0_r, Z.mod_small by lia. exact Hb.
        -- replace e with ((e - 1) + 1) by lia. rewrite <- Hshift.
           apply Hbefore. lia.
      * destruct Hres as (-> & Hall). split; [reflexivity|].
        intros e He. destruct (Z.eq_dec e 0) as [->|Hne].
        -- rewrite Z.add_0_r, Z.mod_small by lia. exact Hb.
        -- replace e with ((e - 1) + 1) by lia. rewrite <- Hshift.
           apply Hall. lia.
Qed.

Lemma Clock_wf_pointer_in_range r :
  wf r -> 0 < num_pages_ r -> 0 <= pointer_ r < num_pages_ r.
Proof. intros (Hn & Hlen & Hp) Hpos. lia. Qed.

(** [Victim] on a well-formed replacer, in terms of offsets from the hand. *)
Lemma Victim_spec r : wf r ->
  exists res r', Victim r = Some (res, r') /\
    match res with
    | None =>
        r' = r /\
        forall i, 0 <= i < num_pages_ r -> arr_get (ref_flag_ r) i = Some false
    | Some f =>
        exists d, 0 <= d < num_pages_ r /\
          f = (pointer_ r + d) mod num_pages_ r /\
          arr_get (ref_flag_ r) f = Some true /\
          (forall e, 0 <= e < d ->
             arr_get (ref_flag_ r) ((pointer_ r + e) mod num_pages_ r) = Some false) /\
          r' = {| num_pages_ := num_pages_ r;
                  pointer_ := (f + 1) mod num_pages_ r;
                  ref_flag_ := <[Z.to_nat f := false]> (ref_flag_ r) |}
    end.
Proof.
  intros Hwf. unfold Victim.
  destruct (Z.eq_dec (num_pages_ r) 0) as [E0|Hne].
  - rewrite E0. simpl. exists None, r. split; [reflexivity|].
    split; [reflexivity|]. lia.
  - pose proof Hwf as (Hn & Hlen & _).
    assert (Hp : 0 <= pointer_ r < num_pages_ r)
      by (apply Clock_wf_pointer_in_range; [assumption|lia]).
    destruct (Victim_loop_spec r Hwf (Z.to_nat (num_pages_ r)) _ Hp)
      as (res & r' & Hrun & Hres).
    exists res, r'. split; [exact Hrun|].
    rewrite Z2Nat.id in Hres by lia.
    destruct res as [f|]; [exact Hres|].
    destruct Hres as (-> & Hall). split; [reflexivity|].
    intros i Hi.
    specialize (Hall ((i - pointer_ r) mod num_pages_ r)).
    rewrite Zplus_mod_idemp_r in Hall.
    replace (pointer_ r + (i - pointer_ r)) with i in Hall by lia.
    rewrite (Z.mod_small i) in Hall by lia.
    apply Hall. apply Z.mod_pos_bound. lia.
Qed.

Lemma Clock_wf_Victim r res r' : wf r -> Victim r = Some (res, r') -> wf r'.
Proof.
  intros Hwf Hv. destruct (Victim_spec r Hwf) as (res0 & r0 & Hv0 & Hres).
  rewrite Hv in Hv0. injection Hv0 as <- <-.
  destruct res as [f|].
  - destruct Hres as (d & Hd & Hf & Hbit & _ & ->).
    destruct Hwf as (Hn & Hlen & Hp).
    unfold wf; simpl. rewrite length_insert. repeat split; try lia.
    right. apply Z.mod_pos_bound. lia.
  - destruct Hres as (-> & _). exact Hwf.
Qed.

Lemma Clock_wf_run_calls h : forall r r', wf r -> run_calls h r = Some r' -> wf r'.
Proof.
  induction h as [|c h IH]; intros r r' Hwf; simpl.
  - intros [= <-]. exact Hwf.
  - destruct (run_call c r) as [r1|] eqn:E1; [|discriminate].
    intros Hrest. apply (IH r1); [|exact Hrest].
    destruct c as [|f|f]; simpl in E1.
    + destruct (Victim r) as [[res r2]|] eqn:Ev; [|discriminate].
      injection E1 as <-. eapply Clock_wf_Victim; eauto.
    + eapply Clock_wf_Pin; eauto.
    + eapply Clock_wf_Unpin; eauto.
Qed.

Lemma Clock_reachable_wf r : reachable r -> wf r.
Proof.
  intros (n & h & Hn & Hrun). eapply Clock_wf_run_calls; [|exact Hrun].
  apply Clock_wf_new. exact Hn.
Qed.

(** C1, as the design document states it, fails.  Run the same calls on
    [ClockReplacer] and on the replacer of the design document, whose
    candidates are the slots unpinned and not pinned or handed out since:
    frames 0 and 2 are unpinned, a victim is taken (frame 0 on both) and
    pinned by its new owner, then frame 1 is unpinned.  Both hands are on
    slot 1, whose reference bit is set.  [Victim] returns that very slot
    at once, the frame used last; second chance clears its bit, passes it
    and returns slot 2, a candidate whose bit the first scan had
    cleared. *)
Lemma Victim_is_not_second_chance :
  run_calls history_recent (new 3) = Some state_recent /\
  second_chance_run history_recent (second_chance_new 3) = Some ([0], second_chance_recent) /\
  victims history_recent (new 3) = Some [0] /\
  pointer_ state_recent = pointer_ (clock_ second_chance_recent) /\
  arr_get (ref_flag_ state_recent) (pointer_ state_recent) = Some true /\
  arr_get (ref_flag_ (clock_ second_chance_recent)) (pointer_ state_recent) = Some true /\
  Victim state_recent
    = Some (Some 1, {| num_pages_ := 3; pointer_ := 2; ref_flag_ := [false; false; true] |}) /\
  second_chance_step second_chance_recent
    = Some (Some 2,
            {| clock_ := {| num_pages_ := 3; pointer_ := 0;
                            ref_flag_ := [false; false; false] |};
               candidate_ := [false; true; false] |}) /\
  victims (history_recent ++ [CallVictim]) (new 3) = Some [0; 1] /\
  (do res <- second_chance_run (history_recent ++ [CallVictim]) (second_chance_new 3);
   Some (fst res)) = Some [0; 2] /\
  (do res <- Victim state_recent; Some (fst res))
  <> (do res <- second_chance_step second_chance_recent; Some (fst res)).
Proof. vm_compute. repeat split; discriminate. Qed.

(** C1 (amended): on every reachable replacer state, [Victim] looks at no
    more than [num_pages_] slots starting at the pointer, passes over the
    slots whose bit is clear without changing them, and returns the first
    slot whose bit is set, clearing that bit and leaving the pointer on
    the slot after it; when no bit is set it returns nothing and leaves
    the replacer unchanged. *)
Theorem Victim_returns_first_set_bit r :
  reachable r ->
  exists res r', Victim r = Some (res, r') /\
    match res with
    | None =>
        r' = r /\
        forall i, 0 <= i < num_pages_ r -> arr_get (ref_flag_ r) i = Some false
    | Some f =>
        exists d, 0 <= d < num_pages_ r /\
          f = (pointer_ r + d) mod num_pages_ r /\
          arr_get (ref_flag_ r) f = Some true /\
          (forall e, 0 <= e < d ->
             arr_get (ref_flag_ r) ((pointer_ r + e) mod num_pages_ r) = Some false) /\
          r' = {| num_pages_ := num_pages_ r;
                  pointer_ := (f + 1) mod num_pages_ r;
                  ref_flag_ := <[Z.to_nat f := false]> (ref_flag_ r) |}
    end.
Proof. intros Hr. apply Victim_spec, Clock_reachable_wf, Hr. Qed.

Lemma Victim_returns_first_set_bit_witness :
  reachable state_2 /\
  exists res r', Victim state_2 = Some (res, r') /\
    match res with
    | None =>
        r' = state_2 /\
        forall i, 0 <= i < num_pages_ state_2 ->
          arr_get (ref_flag_ state_2) i = Some false
    | Some f =>
        exists d, 0 <= d < num_pages_ state_2 /\
          f = (pointer_ state_2 + d) mod num_pages_ state_2 /\
          arr_get (ref_flag_ state_2) f = Some true /\
          (forall e, 0 <= e < d ->
             arr_get (ref_flag_ state_2)
               ((pointer_ state_2 + e) mod num_pages_ state_2) = Some false) /\
          r' = {| num_pages_ := num_pages_ state_2;
                  pointer_ := (f + 1) mod num_pages_ state_2;
                  ref_flag_ := <[Z.to_nat f := false]> (ref_flag_ state_2) |}
    end.
Proof.
  assert (Hr : reachable state_2).
  { exists 2, history_2. split; [lia|]. vm_compute. reflexivity. }
  split; [exact Hr|]. exact (Victim_returns_first_set_bit state_2 Hr).
Defined.

(** C10: on every reachable replacer state and for every frame id [f] of
    the replacer, [Pin f] clears the reference bit of [f], leaves every
    other bit as it was, and moves the clock hand to the slot right after
    [f]; the scan of the next [Victim] therefore starts there: the frame
    it returns is the first one with a set bit in the cyclic order
    [f + 1], [f + 2], ... *)
Theorem Pin_clears_bit_and_moves_hand r f :
  reachable r -> 0 <= f < num_pages_ r ->
  exists r', Pin f r = Some r' /\
    num_pages_ r' = num_pages_ r /\
    pointer_ r' = (f + 1) mod num_pages_ r /\
    arr_get (ref_flag_ r') f = Some false /\
    (forall g, g <> f -> arr_get (ref_flag_ r') g = arr_get (ref_flag_ r) g) /\
    (forall g r'', Victim r' = Some (Some g, r'') ->
       exists d, 0 <= d < num_pages_ r /\
         g = (f + 1 + d) mod num_pages_ r /\
         forall e, 0 <= e < d ->
           arr_get (ref_flag_ r') ((f + 1 + e) mod num_pages_ r) = Some false).
Proof.
  intros Hr Hf. pose proof (Clock_reachable_wf r Hr) as Hwf.
  pose proof Hwf as (Hn & Hlen & Hp).
  assert (Hpin : Pin f r = Some {| num_pages_ := num_pages_ r;
                                   pointer_ := (f + 1) mod num_pages_ r;
                                   ref_flag_ := <[Z.to_nat f := false]> (ref_flag_ r) |}).
  { unfold Pin. rewrite NextSlot_in_range by lia.
    rewrite arr_set_in_range by lia. reflexivity. }
  eexists. split; [exact Hpin|]. simpl.
  split; [reflexivity|]. split; [reflexivity|].
  split; [apply arr_get_set_eq; lia|].
  split.
  - intros g Hg. destruct (Z.ltb_spec g 0) as [Hneg|Hpos].
    + unfold arr_get. destruct (Z.ltb_spec g 0); [reflexivity|lia].
    + apply arr_get_set_ne; lia.
  - intros g r'' Hv.
    destruct (Victim_spec _ (Clock_wf_Pin _ _ _ Hwf Hpin)) as (res & r1 & Hv1 & Hres).
    rewrite Hv in Hv1. injection Hv1 as <- <-. simpl in Hres.
    destruct Hres as (d & Hd & Hg & _ & Hbefore & _).
    exists d. split; [exact Hd|].
    rewrite Zplus_mod_idemp_l in Hg. split; [exact Hg|].
    intros e He. specialize (Hbefore e He).
    rewrite Zplus_mod_idemp_l in Hbefore. exact Hbefore.
Qed.

Lemma Pin_clears_bit_and_moves_hand_witness :
  reachable state_3 /\ 0 <= 1 < num_pages_ state_3 /\
  exists r', Pin 1 state_3 = Some r' /\
    num_pages_ r' = num_pages_ state_3 /\
    pointer_ r' = (1 + 1) mod num_pages_ state_3 /\
    arr_get (ref_flag_ r') 1 = Some false /\
    (forall g, g <> 1 -> arr_get (ref_flag_ r') g = arr_get (ref_flag_ state_3) g) /\
    (forall g r'', Victim r' = Some (Some g, r'') ->
       exists d, 0 <= d < num_pages_ state_3 /\
         g = (1 + 1 + d) mod num_pages_ state_3 /\
         forall e, 0 <= e < d ->
           arr_get (ref_flag_ r') ((1 + 1 + e) mod num_pages_ state_3) = Some false).
Proof.
  assert (Hr : reachable state_3).
  { exists 3, history_3. split; [lia|]. vm_compute. reflexivity. }
  assert (Hf : 0 <= 1 < num_pages_ state_3) by (simpl; lia).
  split; [exact Hr|]. split; [exact Hf|].
  exact (Pin_clears_bit_and_moves_hand state_3 1 Hr Hf).
Defined.

(** The hand movement of [Pin] is observable: after pinning frame 1 in
    [state_3] the next victim is frame 2, whereas it would be frame 0 had
    [Pin] only cleared the bit. *)
Lemma Pin_hand_movement_changes_next_victim :
  (do s1 <- Pin 1 state_3; do v <- Victim s1; Some (fst v)) = Some (Some 2) /\
  (do s2 <- Pin_bit_only 1 state_3; do v <- Victim s2; Some (fst v)) = Some (Some 0).
Proof. vm_compute. split; reflexivity. Qed.

End ClockFacts.

(** ** Key comparators *)

Lemma int_comparator_laws : comparator_laws int_comparator.
Proof.
  split; unfold int_comparator.
  - intros a b. destruct (Z.ltb_spec a b), (Z.ltb_spec b a); simpl; lia.
  - intros a b c.
    destruct (Z.ltb_spec a b), (Z.ltb_spec b a), (Z.ltb_spec b c),
      (Z.ltb_spec c b), (Z.ltb_spec a c), (Z.ltb_spec c a); lia.
Qed.

Section ComparatorFacts.
Context {KeyType : Type}.
Variable comparator : KeyType -> KeyType -> Z.
Hypothesis laws : comparator_laws comparator.

Lemma comparator_lt_gt a b : comparator a b < 0 <-> comparator b a > 0.
Proof.
  pose proof (comparator_swap _ laws a b).
  destruct (Z.sgn_spec (comparator a b)) as [[? ?]|[[? ?]|[? ?]]];
  destruct (Z.sgn_spec (comparator b a)) as [[? ?]|[[? ?]|[? ?]]]; lia.
Qed.

Lemma comparator_eq_sym a b : comparator a b = 0 <-> comparator b a = 0.
Proof.
  pose proof (comparator_swap _ laws a b).
  destruct (Z.sgn_spec (comparator a b)) as [[? ?]|[[? ?]|[? ?]]];
  destruct (Z.sgn_spec (comparator b a)) as [[? ?]|[[? ?]|[? ?]]]; lia.
Qed.

Lemma comparator_lt_le_trans a b c :
  comparator a b < 0 -> comparator b c <= 0 -> comparator a c < 0.
Proof.
  intros Hab Hbc.
  destruct (Z_lt_le_dec (comparator a c) 0) as [?|Hge]; [assumption|].
  assert (Hca : comparator c a <= 0).
  { pose proof (comparator_lt_gt c a). pose proof (comparator_eq_sym a c). lia. }
  pose proof (comparator_trans _ laws b c a Hbc Hca).
  pose proof (comparator_lt_gt a b). lia.
Qed.

Lemma comparator_le_lt_trans a b c :
  comparator a b <= 0 -> comparator b c < 0 -> comparator a c < 0.
Proof.
  intros Hab Hbc.
  destruct (Z_lt_le_dec (comparator a c) 0) as [?|Hge]; [assumption|].
  assert (Hca : comparator c a <= 0).
  { pose proof (comparator_lt_gt c a). pose proof (comparator_eq_sym a c). lia. }
  pose proof (comparator_trans _ laws c a b Hca Hab).
  pose proof (comparator_lt_gt b c). lia.
Qed.

Lemma strictly_increasing_lookup (l : list KeyType) :
  strictly_increasing comparator l = true ->
  forall (i j : nat) a b, (i < j)%nat -> l !! i = Some a -> l !! j = Some b ->
  comparator a b < 0.
Proof.
  induction l as [|k l IH]; intros Hs i j a b Hij Hi Hj.
  - rewrite lookup_nil in Hi. discriminate.
  - simpl in Hs. apply andb_true_iff in Hs as [Hall Hs].
    destruct j as [|j]; [lia|]. simpl in Hj.
    destruct i as [|i]; simpl in Hi.
    + injection Hi as ->. rewrite forallb_forall in Hall.
      apply Z.ltb_lt, Hall. apply list_elem_of_In, list_elem_of_lookup. eauto.
    + apply (IH Hs i j); [lia|assumption|assumption].
Qed.

End ComparatorFacts.

(** ** Leaf pages *)

Section LeafFacts.
Import Leaf.
Context {KeyType ValueType : Type}.
Variable comparator : KeyType -> KeyType -> Z.
Hypothesis laws : comparator_laws comparator.
Implicit Types (p : BPlusTreeLeafPage KeyType ValueType) (key : KeyType).

Lemma KeyAt_in_range p j :
  page_wf p -> 0 <= j < GetSize p -> exists k, KeyAt p j = Some k.
Proof.
  intros Hwf Hj. unfold KeyAt.
  destruct (arr_get_in_range (array_ p) j) as [e He]; [unfold page_wf in Hwf; lia|].
  rewrite He. eauto.
Qed.

Lemma KeyAt_keys p j k :
  0 <= j < GetSize p -> KeyAt p j = Some k -> keys p !! Z.to_nat j = Some k.
Proof.
  intros Hj. unfold KeyAt, arr_get, keys, entries.
  destruct (Z.ltb_spec j 0); [lia|].
  destruct (array_ p !! Z.to_nat j) as [e|] eqn:He; [|discriminate].
  intros [= <-]. rewrite list_lookup_fmap, lookup_take_lt by lia.
  rewrite He. reflexivity.
Qed.

Lemma keys_sorted_KeyAt p i j ki kj :
  strictly_increasing comparator (keys p) = true ->
  0 <= i -> i < j -> j < GetSize p ->
  KeyAt p i = Some ki -> KeyAt p j = Some kj -> comparator ki kj < 0.
Proof.
  intros Hs Hi Hij Hj Hki Hkj.
  apply (strictly_increasing_lookup comparator (keys p) Hs
           (Z.to_nat i) (Z.to_nat j)); [lia| |].
  - apply KeyAt_keys; [lia|assumption].
  - apply KeyAt_keys; [lia|assumption].
Qed.

(** The invariant of the binary search: left of [left] every key is
    below [key], right of [right] none is. *)
Lemma KeyIndex_loop_spec p key :
  page_wf p -> strictly_increasing comparator (keys p) = true ->
  forall fuel left right,
    0 <= left -> right < GetSize p -> left <= right + 1 ->
    right - left + 1 <= Z.of_nat fuel ->
    (forall j k, 0 <= j < left -> KeyAt p j = Some k -> comparator k key < 0) ->
    (forall j k, right < j < GetSize p -> KeyAt p j = Some k -> comparator k key >= 0) ->
    exists i, KeyIndex_loop comparator fuel p key left right = Some i /\
      left <= i <= right + 1 /\
      (forall j k, 0 <= j < i -> KeyAt p j = Some k -> comparator k key < 0) /\
      (forall j k, i <= j < GetSize p -> KeyAt p j = Some k -> comparator k key >= 0).
Proof.
  intros Hwf Hs. induction fuel as [|fuel IH]; intros left right Hl Hr Hlr Hfuel Hlo Hhi.
  - simpl. destruct (Z.leb_spec left right); [lia|].
    exists (right + 1). repeat split; try lia.
    + intros j k Hj. apply Hlo. lia.
    + intros j k Hj. apply Hhi. lia.
  - simpl. destruct (Z.leb_spec left right) as [Hle|Hgt].
    + rewrite Z.shiftr_div_pow2 by lia. change (2 ^ 1) with 2.
      set (mid := left + (right - left) / 2).
      assert (Hmid : left <= mid <= right).
      { unfold mid. pose proof (Z.div_pos (right - left) 2).
        assert ((right - left) / 2 <= right - left)
          by (apply Z.div_le_upper_bound; lia). lia. }
      destruct (KeyAt_in_range p mid Hwf) as [km Hkm]; [lia|].
      rewrite Hkm.
      destruct (Z.geb_spec (comparator km key) 0) as [Hge|Hlt].
      * destruct (IH left (mid - 1)) as (i & Hrun & Hi & Hbelow & Habove);
          try lia; try assumption.
        { intros j k Hj Hk.
          destruct (Z.eq_dec j mid) as [->|Hne].
          - rewrite Hkm in Hk. injection Hk as <-. lia.
          - assert (Hlt : comparator km k < 0)
              by (apply (keys_sorted_KeyAt p mid j); try assumption; lia).
            destruct (Z_lt_le_dec (comparator k key) 0) as [Hk0|?]; [|lia].
            pose proof (comparator_lt_le_trans comparator laws km k key Hlt).
            lia. }
        exists i. repeat split; try lia; assumption.
      * destruct (IH (mid + 1) right) as (i & Hrun & Hi & Hbelow & Habove);
          try lia; try assumption.
        { intros j k Hj Hk.
          destruct (Z.eq_dec j mid) as [->|Hne].
          - rewrite Hkm in Hk. injection Hk as <-. lia.
          - assert (Hlt' : comparator k km < 0)
              by (apply (keys_sorted_KeyAt p j mid); try assumption; lia).
            apply (comparator_lt_le_trans comparator laws k km key Hlt'). lia. }
        exists i. repeat split; try lia; assumption.
    + exists (right + 1). repeat split; try lia.
      * intros j k Hj. apply Hlo. lia.
      * intros j k Hj. apply Hhi. lia.
Qed.

Lemma KeyIndex_spec p key :
  page_wf p -> strictly_increasing comparator (keys p) = true ->
  exists i, KeyIndex comparator p key = Some i /\
    0 <= i <= GetSize p /\
    (forall j k, 0 <= j < i -> KeyAt p j = Some k -> comparator k key < 0) /\
    (forall j k, i <= j < GetSize p -> KeyAt p j = Some k -> comparator k key >= 0).
Proof.
  intros Hwf Hs. unfold KeyIndex.
  destruct (KeyIndex_loop_spec p key Hwf Hs (Z.to_nat (GetSize p)) 0 (GetSize p - 1))
    as (i & Hrun & Hi & Hbelow & Habove); try (unfold page_wf in Hwf; lia).
  exists i. repeat split; try lia; assumption.
Qed.

(** The copy loop of [RemoveAndDeleteRecord]. *)
Lemma shift_left_spec fuel : forall (a : list (KeyType * ValueType)) i size,
  0 <= i <= size -> size < Z.of_nat (length a) -> size - i <= Z.of_nat fuel ->
  exists a', shift_left fuel a i size = Some a' /\
    length a' = length a /\
    forall j, 0 <= j ->
      arr_get a' j = if (i <=? j) && (j <? size) then arr_get a (j + 1) else arr_get a j.
Proof.
  induction fuel as [|fuel IH]; intros a i size Hi Hlen Hfuel; simpl.
  - destruct (Z.ltb_spec i size); [lia|].
    exists a. repeat split. intros j Hj.
    destruct (Z.leb_spec i j), (Z.ltb_spec j size); simpl; try reflexivity; lia.
  - destruct (Z.ltb_spec i size) as [Hlt|Hge].
    + destruct (arr_get_in_range a (i + 1)) as [e He]; [lia|]. rewrite He.
      rewrite arr_set_in_range by lia.
      destruct (IH (<[Z.to_nat i := e]> a) (i + 1) size) as (a' & Hrun & Hl & Hget);
        try lia; [rewrite length_insert; lia|].
      exists a'. split; [exact Hrun|]. split; [rewrite Hl; apply length_insert|].
      intros j Hj. rewrite (Hget j Hj).
      rewrite !arr_get_insert by lia.
      destruct (Z.leb_spec (i + 1) j), (Z.ltb_spec j size), (Z.leb_spec i j),
        (Z.eqb_spec (j + 1) i), (Z.eqb_spec j i); simpl; subst;
        try reflexivity; try lia. symmetry; exact He.
    + exists a. repeat split. intros j Hj.
      destruct (Z.leb_spec i j), (Z.ltb_spec j size); simpl; try reflexivity; lia.
Qed.

(** The copy loop of [Insert]. *)
Lemma shift_right_spec fuel : forall (a : list (KeyType * ValueType)) i insert_index,
  0 <= insert_index <= i -> i < Z.of_nat (length a) ->
  i - insert_index <= Z.of_nat fuel ->
  exists a', shift_right fuel a i insert_index = Some a' /\
    length a' = length a /\
    forall j, 0 <= j ->
      arr_get a' j = if (insert_index <? j) && (j <=? i)
                     then arr_get a (j - 1) else arr_get a j.
Proof.
  induction fuel as [|fuel IH]; intros a i idx Hi Hlen Hfuel; simpl.
  - destruct (Z.gtb_spec i idx); [lia|].
    exists a. repeat split. intros j Hj.
    destruct (Z.ltb_spec idx j), (Z.leb_spec j i); simpl; try reflexivity; lia.
  - destruct (Z.gtb_spec i idx) as [Hgt|Hle].
    + destruct (arr_get_in_range a (i - 1)) as [e He]; [lia|]. rewrite He.
      rewrite arr_set_in_range by lia.
      destruct (IH (<[Z.to_nat i := e]> a) (i - 1) idx) as (a' & Hrun & Hl & Hget);
        try lia; [rewrite length_insert; lia|].
      exists a'. split; [exact Hrun|]. split; [rewrite Hl; apply length_insert|].
      intros j Hj. rewrite (Hget j Hj).
      destruct (Z.eq_dec j 0) as [->|Hj0].
      * destruct (Z.ltb_spec idx 0); [lia|]. simpl.
        rewrite arr_get_insert by lia.
        destruct (Z.eqb_spec 0 i); [lia|reflexivity].
      * rewrite !arr_get_insert by lia.
        destruct (Z.ltb_spec idx j), (Z.leb_spec j (i - 1)), (Z.leb_spec j i),
          (Z.eqb_spec (j - 1) i), (Z.eqb_spec j i); simpl; subst;
          try reflexivity; try lia. symmetry; exact He.
    + exists a. repeat split. intros j Hj.
      destruct (Z.ltb_spec idx j), (Z.leb_spec j i); simpl; try reflexivity; lia.
Qed.

(** An exact match, if there is one, sits at [KeyIndex]. *)
Lemma no_match_elsewhere p key i :
  page_wf p -> strictly_increasing comparator (keys p) = true ->
  0 <= i <= GetSize p ->
  (forall j k, 0 <= j < i -> KeyAt p j = Some k -> comparator k key < 0) ->
  (forall j k, i <= j < GetSize p -> KeyAt p j = Some k -> comparator k key >= 0) ->
  forall j k, 0 <= j < GetSize p -> j <> i -> KeyAt p j = Some k ->
    comparator k key <> 0.
Proof.
  intros Hwf Hs Hi Hbelow Habove j k Hj Hne Hk.
  destruct (Z_lt_le_dec j i) as [Hlt|Hge].
  - pose proof (Hbelow j k ltac:(lia) Hk). lia.
  - destruct (KeyAt_in_range p i Hwf) as [ki Hki]; [lia|].
    pose proof (Habove i ki ltac:(lia) Hki) as Hge_i.
    assert (Hlt : comparator ki k < 0)
      by (apply (keys_sorted_KeyAt p i j); try assumption; lia).
    intros Heq.
    assert (comparator ki key < 0)
      by (apply (comparator_lt_le_trans comparator laws ki k key Hlt); lia).
    lia.
Qed.

(** What [RemoveAndDeleteRecord] does to the page, and what it returns. *)
Lemma RemoveAndDeleteRecord_spec p key :
  page_wf p -> strictly_increasing comparator (keys p) = true ->
  exists (b : bool) p', RemoveAndDeleteRecord comparator p key = Some (b, p') /\
    b = int_to_bool (GetSize p') /\
    ((exists i k, 0 <= i < GetSize p /\ KeyAt p i = Some k /\ comparator k key = 0 /\
        entries p' = delete (Z.to_nat i) (entries p) /\
        GetSize p' = GetSize p - 1)
     \/
     ((forall i k, 0 <= i < GetSize p -> KeyAt p i = Some k -> comparator k key <> 0) /\
      p' = p)).
Proof.
  intros Hwf Hs.
  destruct (KeyIndex_spec p key Hwf Hs) as (i & Hrun & Hi & Hbelow & Habove).
  pose proof (no_match_elsewhere p key i Hwf Hs Hi Hbelow Habove) as Hother.
  unfold RemoveAndDeleteRecord. rewrite Hrun.
  destruct (Z.eqb_spec i (GetSize p)) as [Heq|Hne].
  - exists (int_to_bool (GetSize p)), p. split; [reflexivity|].
    split; [reflexivity|]. right. split; [|reflexivity].
    intros j k Hj Hk. apply (Hother j k Hj); [lia|exact Hk].
  - destruct (KeyAt_in_range p i Hwf) as [ki Hki]; [lia|]. rewrite Hki.
    destruct (Z.eqb_spec (comparator key ki) 0) as [Hmatch|Hmiss]; simpl.
    + set (p1 := with_header (IncreaseSize (-1) (header p)) p).
      assert (Hsz1 : GetSize p1 = GetSize p - 1) by reflexivity.
      unfold page_wf in Hwf.
      destruct (shift_left_spec (Z.to_nat (GetSize p1)) (array_ p) i (GetSize p1))
        as (a' & Hshift & Hlen & Hget); try lia.
      change (array_ p1) with (array_ p). rewrite Hshift.
      eexists _, _. split; [reflexivity|]. split; [reflexivity|].
      left. exists i, ki. split; [lia|]. split; [exact Hki|].
      split; [apply (comparator_eq_sym comparator laws); exact Hmatch|].
      split; [|reflexivity].
      unfold entries. simpl. change (size_ (header p)) with (GetSize p).
      apply list_eq. intros n.
      destruct (Nat.lt_ge_cases n (Z.to_nat (GetSize p + -1))) as [Hn|Hn].
      * rewrite lookup_take_lt by exact Hn.
        rewrite <- arr_get_of_nat, Hget by lia.
        destruct (Z.leb_spec i (Z.of_nat n)) as [Hin|Hin];
          destruct (Z.ltb_spec (Z.of_nat n) (GetSize p1)); try lia; simpl.
        -- rewrite list_lookup_delete_ge by lia.
           rewrite lookup_take_lt by lia.
           replace (Z.of_nat n + 1) with (Z.of_nat (S n)) by lia.
           apply arr_get_of_nat.
        -- rewrite list_lookup_delete_lt by lia.
           rewrite lookup_take_lt by lia. apply arr_get_of_nat.
      * rewrite lookup_take_ge by exact Hn. symmetry.
        apply lookup_ge_None. rewrite length_delete.
        -- rewrite length_take. lia.
        -- apply lookup_lt_is_Some. rewrite length_take. lia.
    + exists (int_to_bool (GetSize p)), p. split; [reflexivity|].
      split; [reflexivity|]. right. split; [|reflexivity].
      intros j k Hj Hk. destruct (Z.eq_dec j i) as [->|Hji].
      * rewrite Hki in Hk. injection Hk as <-.
        intros Hz. apply Hmiss. apply (comparator_eq_sym comparator laws). exact Hz.
      * apply (Hother j k Hj Hji Hk).
Qed.

(** [Insert] decides on the slot at [KeyIndex], whether or not that slot
    is one of the records. *)
Lemma Insert_spec p key value :
  page_wf p -> GetSize p < Z.of_nat (length (array_ p)) ->
  strictly_increasing comparator (keys p) = true ->
  exists i k, KeyIndex comparator p key = Some i /\ KeyAt p i = Some k /\
    0 <= i <= GetSize p /\
    if comparator k key =? 0 then Insert comparator p key value = Some (GetSize p, p)
    else exists p', Insert comparator p key value = Some (GetSize p + 1, p') /\
           GetSize p' = GetSize p + 1 /\
           entries p' = take (Z.to_nat i) (entries p) ++ (key, value)
                          :: drop (Z.to_nat i) (entries p).
Proof.
  intros Hwf Hroom Hs. unfold page_wf in Hwf.
  destruct (KeyIndex_spec p key Hwf Hs) as (i & Hrun & Hi & _).
  assert (Hk : exists k, KeyAt p i = Some k).
  { unfold KeyAt. destruct (arr_get_in_range (array_ p) i) as [e He]; [lia|].
    rewrite He. eauto. }
  destruct Hk as [k Hk]. exists i, k.
  split; [exact Hrun|]. split; [exact Hk|]. split; [exact Hi|].
  unfold Insert. rewrite Hrun, Hk.
  destruct (Z.eqb_spec (comparator k key) 0) as [Heq|Hne]; [reflexivity|].
  destruct (shift_right_spec (Z.to_nat (GetSize p)) (array_ p) (GetSize p) i)
    as (a' & Hshift & Hlen & Hget); try lia.
  rewrite Hshift. rewrite arr_set_in_range by lia.
  eexists. split; [reflexivity|]. split; [reflexivity|].
  unfold entries. simpl. change (size_ (header p)) with (GetSize p).
  assert (HlenE : length (take (Z.to_nat (GetSize p)) (array_ p))
                  = Z.to_nat (GetSize p)) by (rewrite length_take; lia).
  assert (HlenT : length (take (Z.to_nat i) (take (Z.to_nat (GetSize p)) (array_ p)))
                  = Z.to_nat i) by (rewrite length_take, HlenE; lia).
  apply list_eq. intros n.
  destruct (Nat.lt_ge_cases n (Z.to_nat (GetSize p + 1))) as [Hn|Hn].
  - rewrite lookup_take_lt by exact Hn.
    rewrite <- arr_get_of_nat, arr_get_insert by lia.
    destruct (Z.eqb_spec (Z.of_nat n) i) as [Hni|Hni].
    + rewrite lookup_app_r by (rewrite HlenT; lia).
      rewrite HlenT. replace (n - Z.to_nat i)%nat with 0%nat by lia.
      reflexivity.
    + rewrite Hget by lia.
      destruct (Z.ltb_spec i (Z.of_nat n)) as [Hin|Hin];
        destruct (Z.leb_spec (Z.of_nat n) (GetSize p)); try lia; simpl.
      * rewrite lookup_app_r by (rewrite HlenT; lia).
        rewrite HlenT.
        replace (n - Z.to_nat i)%nat with (S (n - Z.to_nat i - 1)) by lia.
        simpl. rewrite lookup_drop, lookup_take_lt by lia.
        replace (Z.of_nat n - 1) with (Z.of_nat (Z.to_nat i + (n - Z.to_nat i - 1))) by lia.
        apply arr_get_of_nat.
      * rewrite lookup_app_l by (rewrite HlenT; lia).
        rewrite !lookup_take_lt by lia. apply arr_get_of_nat.
  - rewrite lookup_take_ge by exact Hn. symmetry.
    apply lookup_ge_None. rewrite length_app. simpl.
    rewrite HlenT, length_drop, HlenE. lia.
Qed.

(** With an exact match among the records, [Insert] changes nothing. *)
Lemma Insert_existing p key value m km :
  page_wf p -> GetSize p < Z.of_nat (length (array_ p)) ->
  strictly_increasing comparator (keys p) = true ->
  0 <= m < GetSize p -> KeyAt p m = Some km -> comparator km key = 0 ->
  Insert comparator p key value = Some (GetSize p, p).
Proof.
  intros Hwf Hroom Hs Hm Hkm Hmatch.
  destruct (Insert_spec p key value Hwf Hroom Hs) as (i & k & Hrun & Hk & Hi & Hins).
  destruct (KeyIndex_spec p key Hwf Hs) as (i' & Hrun' & Hi' & Hbelow & Habove).
  rewrite Hrun in Hrun'. injection Hrun' as <-.
  destruct (Z.eq_dec m i) as [->|Hne].
  - rewrite Hkm in Hk. injection Hk as <-.
    destruct (Z.eqb_spec (comparator km key) 0); [exact Hins|contradiction].
  - exfalso.
    apply (no_match_elsewhere p key i Hwf Hs Hi Hbelow Habove m km Hm Hne Hkm Hmatch).
Qed.

(** Without a match among the records, [Insert] puts the record at
    [KeyIndex], provided the slot right after the records does not happen
    to hold the key. *)
Lemma Insert_fresh p key value :
  page_wf p -> GetSize p < Z.of_nat (length (array_ p)) ->
  strictly_increasing comparator (keys p) = true ->
  (forall j k, 0 <= j < GetSize p -> KeyAt p j = Some k -> comparator k key <> 0) ->
  (forall k, KeyAt p (GetSize p) = Some k -> comparator k key <> 0) ->
  exists i p', KeyIndex comparator p key = Some i /\
    Insert comparator p key value = Some (GetSize p + 1, p') /\
    GetSize p' = GetSize p + 1 /\
    entries p' = take (Z.to_nat i) (entries p) ++ (key, value)
                   :: drop (Z.to_nat i) (entries p).
Proof.
  intros Hwf Hroom Hs Hnone Hfree.
  destruct (Insert_spec p key value Hwf Hroom Hs) as (i & k & Hrun & Hk & Hi & Hins).
  assert (Hne : comparator k key <> 0).
  { destruct (Z.eq_dec i (GetSize p)) as [->|Hlt].
    - apply Hfree. exact Hk.
    - apply (Hnone i); [lia|exact Hk]. }
  destruct (Z.eqb_spec (comparator k key) 0); [contradiction|].
  destruct Hins as (p' & Hp' & Hsz & Hent).
  exists i, p'. repeat split; assumption.
Qed.

(** The slip: a key that is in none of the records but in the slot right
    after them is taken for a duplicate. *)
Lemma Insert_stale p key value k :
  page_wf p -> GetSize p < Z.of_nat (length (array_ p)) ->
  strictly_increasing comparator (keys p) = true ->
  (forall j kj, 0 <= j < GetSize p -> KeyAt p j = Some kj -> comparator kj key < 0) ->
  KeyAt p (GetSize p) = Some k -> comparator k key = 0 ->
  Insert comparator p key value = Some (GetSize p, p).
Proof.
  intros Hwf Hroom Hs Hall Hk Hmatch.
  destruct (Insert_spec p key value Hwf Hroom Hs) as (i & k' & Hrun & Hk' & Hi & Hins).
  destruct (KeyIndex_spec p key Hwf Hs) as (i' & Hrun' & Hi' & Hbelow & Habove).
  rewrite Hrun in Hrun'. injection Hrun' as <-.
  assert (i = GetSize p) as ->.
  { destruct (Z.eq_dec i (GetSize p)) as [?|Hne]; [assumption|].
    destruct (KeyAt_in_range p i Hwf) as [ki Hki]; [lia|].
    pose proof (Habove i ki ltac:(lia) Hki).
    pose proof (Hall i ki ltac:(lia) Hki). lia. }
  rewrite Hk in Hk'. injection Hk' as <-.
  destruct (Z.eqb_spec (comparator k key) 0); [exact Hins|contradiction].
Qed.

End LeafFacts.



Example KeyIndex_leaf_1_3 :
  Leaf.KeyIndex int_comparator leaf_1_3 0 = Some 0 /\
  Leaf.KeyIndex int_comparator leaf_1_3 1 = Some 0 /\
  Leaf.KeyIndex int_comparator leaf_1_3 2 = Some 1 /\
  Leaf.KeyIndex int_comparator leaf_1_3 3 = Some 1 /\
  Leaf.KeyIndex int_comparator leaf_1_3 4 = Some 2.
Proof. vm_compute. repeat split. Qed.

(** C2: the page is updated as the design document says
    ([RemoveAndDeleteRecord_spec]), but the result is not "a record was
    removed": the function returns [GetSize()] through its [bool] return
    type, so the answer is "the page is not empty afterwards".  Removing
    the only record of [leaf_1] answers [false]; asking [leaf_1_3] for the
    absent key 2 answers [true]. *)
Theorem RemoveAndDeleteRecord_answers_page_not_empty :
  Leaf.RemoveAndDeleteRecord int_comparator leaf_1 1 = Some (false, leaf_1_removed) /\
  Leaf.entries leaf_1 = [(1, 10)] /\ Leaf.entries leaf_1_removed = [] /\
  Leaf.RemoveAndDeleteRecord int_comparator leaf_1_3 2 = Some (true, leaf_1_3).
Proof. vm_compute. repeat split. Qed.

(** C4: [Insert] compares the key with the slot at [KeyIndex] even when
    that slot lies after the records.  [leaf_1_stale_3] is what
    [RemoveAndDeleteRecord] leaves of [leaf_1_3] when record 3 goes: its
    only record has key 1, [Lookup] does not find 3, and yet inserting 3
    returns the old size and leaves the page as it was. *)
Theorem Insert_takes_free_slot_for_duplicate :
  Leaf.RemoveAndDeleteRecord int_comparator leaf_1_3 3 = Some (true, leaf_1_stale_3) /\
  Leaf.entries leaf_1_stale_3 = [(1, 10)] /\
  strictly_increasing int_comparator (Leaf.keys leaf_1_stale_3) = true /\
  Leaf.Lookup int_comparator leaf_1_stale_3 3 = Some None /\
  Leaf.KeyIndex int_comparator leaf_1_stale_3 3 = Some 1 /\
  Leaf.Insert int_comparator leaf_1_stale_3 3 33 = Some (1, leaf_1_stale_3).
Proof. vm_compute. repeat split. Qed.

(** ** Internal pages *)

Section InternalFacts.
Import Internal.
Context {KeyType : Type}.
Variable comparator : KeyType -> KeyType -> Z.
Hypothesis laws : comparator_laws comparator.
Implicit Types (p : BPlusTreeInternalPage KeyType) (key : KeyType).

Lemma Internal_KeyAt_in_range p j :
  page_wf p -> 0 <= j < GetSize p -> exists k, KeyAt p j = Some k.
Proof.
  intros Hwf Hj. unfold KeyAt.
  destruct (arr_get_in_range (array_ p) j) as [e He]; [unfold page_wf in Hwf; lia|].
  rewrite He. eauto.
Qed.

Lemma Internal_KeyAt_keys p j k :
  1 <= j < GetSize p -> KeyAt p j = Some k -> keys p !! Z.to_nat (j - 1) = Some k.
Proof.
  intros Hj. unfold KeyAt, arr_get, keys.
  destruct (Z.ltb_spec j 0); [lia|].
  destruct (_ !! Z.to_nat j) as [e|] eqn:He; [|discriminate].
  intros [= <-]. change (map fst) with (fmap (M:=list) (@fst KeyType Z)).
  rewrite list_lookup_fmap, lookup_drop, lookup_take_lt by lia.
  replace (1 + Z.to_nat (j - 1))%nat with (Z.to_nat j) by lia.
  rewrite He. reflexivity.
Qed.

Lemma Internal_keys_sorted_KeyAt p i j ki kj :
  strictly_increasing comparator (keys p) = true ->
  1 <= i -> i < j -> j < GetSize p ->
  KeyAt p i = Some ki -> KeyAt p j = Some kj -> comparator ki kj < 0.
Proof.
  intros Hs Hi Hij Hj Hki Hkj.
  apply (strictly_increasing_lookup comparator (keys p) Hs
           (Z.to_nat (i - 1)) (Z.to_nat (j - 1))); [lia| |].
  - apply Internal_KeyAt_keys; [lia|assumption].
  - apply Internal_KeyAt_keys; [lia|assumption].
Qed.

(** The invariant of the binary search: from index 1 up to [left] no key
    is above [key], right of [right] every key is. *)
Lemma Lookup_loop_spec p key :
  page_wf p -> strictly_increasing comparator (keys p) = true ->
  forall fuel left right,
    1 <= left -> right < GetSize p -> left <= right + 1 ->
    right - left + 1 <= Z.of_nat fuel ->
    (forall j k, 1 <= j < left -> KeyAt p j = Some k -> comparator k key <= 0) ->
    (forall j k, right < j < GetSize p -> KeyAt p j = Some k -> comparator k key > 0) ->
    exists i, Lookup_loop comparator fuel p key left right = Some i /\
      left <= i <= right + 1 /\
      (forall j k, 1 <= j < i -> KeyAt p j = Some k -> comparator k key <= 0) /\
      (forall j k, i <= j < GetSize p -> KeyAt p j = Some k -> comparator k key > 0).
Proof.
  intros Hwf Hs. induction fuel as [|fuel IH]; intros left right Hl Hr Hlr Hfuel Hlo Hhi.
  - simpl. destruct (Z.leb_spec left right); [lia|].
    exists left. repeat split; try lia.
    + exact Hlo.
    + intros j k Hj. apply Hhi. lia.
  - simpl. destruct (Z.leb_spec left right) as [Hle|Hgt].
    + rewrite Z.shiftr_div_pow2 by lia. change (2 ^ 1) with 2.
      set (mid := left + (right - left) / 2).
      assert (Hmid : left <= mid <= right).
      { unfold mid. pose proof (Z.div_pos (right - left) 2).
        assert ((right - left) / 2 <= right - left)
          by (apply Z.div_le_upper_bound; lia). lia. }
      destruct (Internal_KeyAt_in_range p mid Hwf) as [km Hkm]; [lia|].
      rewrite Hkm.
      destruct (Z.gtb_spec (comparator km key) 0) as [Hgt|Hle0].
      * destruct (IH left (mid - 1)) as (i & Hrun & Hi & Hbelow & Habove);
          try lia; try assumption.
        { intros j k Hj Hk.
          destruct (Z.eq_dec j mid) as [->|Hne].
          - rewrite Hkm in Hk. injection Hk as <-. lia.
          - assert (Hlt : comparator km k < 0)
              by (apply (Internal_keys_sorted_KeyAt p mid j); try assumption; lia).
            assert (Hkey : comparator key km < 0)
              by (apply (comparator_lt_gt comparator laws); lia).
            pose proof (comparator_lt_le_trans comparator laws key km k Hkey).
            pose proof (comparator_lt_gt comparator laws key k). lia. }
        exists i. repeat split; try lia; assumption.
      * destruct (IH (mid + 1) right) as (i & Hrun & Hi & Hbelow & Habove);
          try lia; try assumption.
        { intros j k Hj Hk.
          destruct (Z.eq_dec j mid) as [->|Hne].
          - rewrite Hkm in Hk. injection Hk as <-. lia.
          - assert (Hlt' : comparator k km < 0)
              by (apply (Internal_keys_sorted_KeyAt p j mid); try assumption; lia).
            pose proof (comparator_lt_le_trans comparator laws k km key Hlt').
            lia. }
        exists i. repeat split; try lia; assumption.
    + exists left. repeat split; try lia.
      * exact Hlo.
      * intros j k Hj. apply Hhi. lia.
Qed.

(** The search never reads a key at an index below [left]. *)
Lemma Lookup_loop_ext p p' key :
  (forall j, 1 <= j -> KeyAt p' j = KeyAt p j) ->
  forall fuel left right, 1 <= left ->
    Lookup_loop comparator fuel p' key left right
    = Lookup_loop comparator fuel p key left right.
Proof.
  intros Hsame. induction fuel as [|fuel IH]; intros left right Hl; simpl.
  - reflexivity.
  - destruct (Z.leb_spec left right) as [Hle|Hgt]; [|reflexivity].
    assert (Hmid : left <= left + Z.shiftr (right - left) 1).
    { pose proof (Z.shiftr_nonneg (right - left) 1). lia. }
    rewrite Hsame by lia.
    destruct (KeyAt p _) as [k|]; [|reflexivity].
    destruct (comparator k key >? 0); apply IH; lia.
Qed.

Lemma SetKeyAt_0_view p k0 p0 :
  SetKeyAt p 0 k0 = Some p0 ->
  GetSize p0 = GetSize p /\
  (forall j, 1 <= j -> KeyAt p0 j = KeyAt p j) /\
  (forall j, ValueAt p0 j = ValueAt p j).
Proof.
  unfold SetKeyAt.
  destruct (arr_get (array_ p) 0) as [e0|] eqn:He0; [|discriminate].
  destruct (arr_set (array_ p) 0 (k0, e0.2)) as [a|] eqn:Ha; [|discriminate].
  intros [= <-]. apply arr_set_Some in Ha as [Hlen ->].
  split; [reflexivity|]. split.
  - intros j Hj. unfold KeyAt, with_array; simpl.
    rewrite arr_get_set_ne by lia. reflexivity.
  - intros j. unfold ValueAt, with_array; simpl.
    destruct (Z.ltb_spec j 0) as [Hneg|Hpos].
    + unfold arr_get. destruct (Z.ltb_spec j 0); [reflexivity|lia].
    + rewrite arr_get_insert by lia.
      destruct (Z.eqb_spec j 0) as [->|Hne]; [|reflexivity].
      rewrite He0. reflexivity.
Qed.

End InternalFacts.

(** C7: on an internal page with at least one child whose keys at the
    indices [1 .. size - 1] are strictly increasing, [Lookup key] returns
    the value stored in [array_[i - 1]], where [i] is the smallest index
    above 0 whose stored key is above [key], or the size when there is
    none; the key at index 0 plays no part: whatever key is stored there,
    by [SetKeyAt] or in the array itself, the answer is the same. *)
Theorem Lookup_child_before_first_greater_key
    {KeyType : Type} (comparator : KeyType -> KeyType -> Z)
    (p : Internal.BPlusTreeInternalPage KeyType) (key : KeyType) :
  comparator_laws comparator ->
  Internal.page_wf p ->
  strictly_increasing comparator (Internal.keys p) = true ->
  exists i e, 1 <= i <= Internal.GetSize p /\
    (forall j ej, 1 <= j < i -> arr_get (Internal.array_ p) j = Some ej ->
       comparator (fst ej) key <= 0) /\
    (i = Internal.GetSize p \/
     exists ei, arr_get (Internal.array_ p) i = Some ei /\ comparator (fst ei) key > 0) /\
    arr_get (Internal.array_ p) (i - 1) = Some e /\
    Internal.Lookup comparator p key = Some (snd e) /\
    (forall k0 e0, arr_get (Internal.array_ p) 0 = Some e0 ->
       Internal.Lookup comparator
         (Internal.with_array (<[0%nat := (k0, snd e0)]> (Internal.array_ p)) p) key
       = Some (snd e)) /\
    (forall k0 p0, Internal.SetKeyAt p 0 k0 = Some p0 ->
       Internal.Lookup comparator p0 key = Some (snd e)).
Proof.
  intros laws Hwf Hs.
  destruct (Lookup_loop_spec comparator laws p key Hwf Hs
              (Z.to_nat (Internal.GetSize p)) 1 (Internal.GetSize p - 1))
    as (i & Hrun & Hi & Hbelow & Habove); try (unfold Internal.page_wf in Hwf; lia).
  assert (He : exists e, arr_get (Internal.array_ p) (i - 1) = Some e).
  { unfold Internal.page_wf in Hwf. apply arr_get_in_range. lia. }
  destruct He as [e He].
  assert (Hv : Internal.ValueAt p (i - 1) = Some (snd e)).
  { unfold Internal.ValueAt. rewrite He. reflexivity. }
  assert (Hlook : Internal.Lookup comparator p key = Some (snd e)).
  { unfold Internal.Lookup. rewrite Hrun.
    destruct (Z.geb_spec (i - 1) 0); [exact Hv|lia]. }
  assert (Hset : forall k0 p0, Internal.SetKeyAt p 0 k0 = Some p0 ->
            Internal.Lookup comparator p0 key = Some (snd e)).
  { intros k0 p0 Hset.
    destruct (SetKeyAt_0_view p k0 p0 Hset) as (Hsz & Hkeys & Hvals).
    unfold Internal.Lookup. rewrite Hsz.
    rewrite (Lookup_loop_ext comparator p p0 key Hkeys) by lia.
    rewrite Hrun. destruct (Z.geb_spec (i - 1) 0); [|lia].
    rewrite Hvals. exact Hv. }
  exists i, e. split; [lia|]. split; [|split; [|split; [exact He|split; [exact Hlook|split]]]].
  - intros j ej Hj Hej. apply (Hbelow j); [exact Hj|].
    unfold Internal.KeyAt. rewrite Hej. reflexivity.
  - destruct (Z.eq_dec i (Internal.GetSize p)) as [?|Hne]; [left; assumption|right].
    destruct (arr_get_in_range (Internal.array_ p) i) as [ei Hei];
      [unfold Internal.page_wf in Hwf; lia|].
    exists ei. split; [exact Hei|]. apply (Habove i); [lia|].
    unfold Internal.KeyAt. rewrite Hei. reflexivity.
  - intros k0 e0 He0. apply (Hset k0).
    unfold Internal.SetKeyAt. rewrite He0. simpl.
    rewrite arr_set_in_range by (apply arr_get_Some in He0; lia). reflexivity.
  - exact Hset.
Qed.

Lemma Lookup_child_before_first_greater_key_witness :
  comparator_laws int_comparator /\
  Internal.page_wf internal_5_9 /\
  strictly_increasing int_comparator (Internal.keys internal_5_9) = true /\
  exists i e, 1 <= i <= Internal.GetSize internal_5_9 /\
    (forall j ej, 1 <= j < i -> arr_get (Internal.array_ internal_5_9) j = Some ej ->
       int_comparator (fst ej) 7 <= 0) /\
    (i = Internal.GetSize internal_5_9 \/
     exists ei, arr_get (Internal.array_ internal_5_9) i = Some ei /\
                int_comparator (fst ei) 7 > 0) /\
    arr_get (Internal.array_ internal_5_9) (i - 1) = Some e /\
    Internal.Lookup int_comparator internal_5_9 7 = Some (snd e) /\
    (forall k0 e0, arr_get (Internal.array_ internal_5_9) 0 = Some e0 ->
       Internal.Lookup int_comparator
         (Internal.with_array (<[0%nat := (k0, snd e0)]> (Internal.array_ internal_5_9))
            internal_5_9) 7
       = Some (snd e)) /\
    (forall k0 p0, Internal.SetKeyAt internal_5_9 0 k0 = Some p0 ->
       Internal.Lookup int_comparator p0 7 = Some (snd e)).
Proof.
  assert (Hwf : Internal.page_wf internal_5_9) by (unfold Internal.page_wf; cbn; lia).
  assert (Hs : strictly_increasing int_comparator (Internal.keys internal_5_9) = true)
    by reflexivity.
  split; [exact int_comparator_laws|]. split; [exact Hwf|]. split; [exact Hs|].
  exact (Lookup_child_before_first_greater_key int_comparator internal_5_9 7
           int_comparator_laws Hwf Hs).
Defined.

Example Lookup_internal_5_9 :
  Internal.Lookup int_comparator internal_5_9 4 = Some 100 /\
  Internal.Lookup int_comparator internal_5_9 5 = Some 101 /\
  Internal.Lookup int_comparator internal_5_9 7 = Some 101 /\
  Internal.Lookup int_comparator internal_5_9 9 = Some 102 /\
  Internal.Lookup int_comparator internal_5_9 12 = Some 102.
Proof. vm_compute. repeat split. Qed.

(** ** The buffer pool manager *)

Section BPMFacts.
Import BPM.
Variable PAGE_SIZE : nat.
Implicit Types (b : BufferPoolManager) (f : Z) (page : Frame.Page).

Lemma wf_new pool_size disk :
  0 <= pool_size < 2 ^ 31 -> wf (new PAGE_SIZE pool_size disk).
Proof.
  intros Hn. unfold wf, new; simpl.
  rewrite length_replicate.
  split; [lia|]. split; [lia|]. split; [apply Clock_wf_new; lia|].
  split; [reflexivity|]. split.
  - intros f Hf. apply list_elem_of_In, in_map_iff in Hf as (n & <- & Hin).
    apply in_seq in Hin. lia.
  - intros id f Hlook. rewrite lookup_empty in Hlook. discriminate.
Qed.

(** Replacing a frame by one with the same page id keeps the invariant. *)
Lemma wf_with_pages b f page page' :
  wf b -> arr_get (pages_ b) f = Some page ->
  Frame.page_id_ page' = Frame.page_id_ page ->
  wf (with_pages (<[Z.to_nat f := page']> (pages_ b)) b).
Proof.
  intros (Hn & Hlen & Hr & Hrn & Hfree & Htab) Hpage Hid.
  pose proof (arr_get_Some _ _ _ Hpage) as Hf.
  unfold wf; simpl. rewrite length_insert.
  split; [exact Hn|]. split; [exact Hlen|]. split; [exact Hr|].
  split; [exact Hrn|]. split; [exact Hfree|].
  intros id f0 Hlook. destruct (Htab id f0 Hlook) as (Hf0 & pg & Hpg & Hpgid).
  split; [exact Hf0|]. rewrite arr_get_insert by lia.
  destruct (Z.eqb_spec f0 f) as [->|Hne].
  - exists page'. split; [reflexivity|]. rewrite Hpage in Hpg.
    injection Hpg as <-. congruence.
  - exists pg. split; assumption.
Qed.

Lemma wf_with_replacer b r :
  wf b -> Clock.wf r -> Clock.num_pages_ r = pool_size_ b -> wf (with_replacer r b).
Proof.
  intros (Hn & Hlen & Hr & Hrn & Hfree & Htab) Hwf Hnum.
  unfold wf; simpl.
  split; [exact Hn|]. split; [exact Hlen|]. split; [exact Hwf|].
  split; [exact Hnum|]. split; [exact Hfree|exact Htab].
Qed.

Lemma Clock_Pin_num_pages r f r' :
  Clock.Pin f r = Some r' -> Clock.num_pages_ r' = Clock.num_pages_ r.
Proof.
  unfold Clock.Pin. destruct (Clock.NextSlot r f); [|discriminate].
  destruct (arr_set _ _ _); [|discriminate]. intros [= <-]. reflexivity.
Qed.

Lemma Clock_Unpin_num_pages r f r' :
  Clock.Unpin f r = Some r' -> Clock.num_pages_ r' = Clock.num_pages_ r.
Proof.
  unfold Clock.Unpin. destruct (arr_set _ _ _); [|discriminate].
  intros [= <-]. reflexivity.
Qed.

Lemma wf_UpdatePage b f new_page_id b' :
  wf b -> UpdatePage PAGE_SIZE f new_page_id f b = Some b' ->
  wf b' /\ 0 <= f < pool_size_ b /\ pool_size_ b' = pool_size_ b /\
  replacer_ b' = replacer_ b /\ free_list_ b' = free_list_ b.
Proof.
  intros (Hn & Hlen & Hr & Hrn & Hfree & Htab). unfold UpdatePage.
  destruct (arr_get (pages_ b) f) as [page|] eqn:Hpage; [|discriminate].
  destruct (arr_set (pages_ b) f _) as [pages|] eqn:Hset; [|discriminate].
  intros [= <-]. apply arr_set_Some in Hset as [Hf ->].
  split; [|repeat split; simpl; lia].
  unfold wf; simpl. rewrite length_insert.
  split; [lia|]. split; [lia|]. split; [assumption|]. split; [assumption|].
  split; [assumption|].
  assert (Hold : forall id f0, delete (Frame.page_id_ page) (page_table_ b) !! id = Some f0 ->
            0 <= f0 < pool_size_ b /\ f0 <> f /\
            exists pg, arr_get (pages_ b) f0 = Some pg /\ Frame.page_id_ pg = id).
  { intros id f0 Hlook. apply lookup_delete_Some in Hlook as [Hne Hlook].
    destruct (Htab id f0 Hlook) as (Hf0 & pg & Hpg & Hpgid).
    split; [exact Hf0|]. split; [|eauto].
    intros ->. rewrite Hpage in Hpg. injection Hpg as <-. congruence. }
  intros id f0 Hlook.
  assert (Hcases : (id = new_page_id /\ f0 = f) \/
                   delete (Frame.page_id_ page) (page_table_ b) !! id = Some f0).
  { destruct (Z.eqb_spec new_page_id INVALID_PAGE_ID); [right; exact Hlook|].
    unfold emplace in Hlook.
    destruct (delete (Frame.page_id_ page) (page_table_ b) !! new_page_id) eqn:E;
      [right; exact Hlook|].
    destruct (Z.eq_dec id new_page_id) as [->|Hne].
    - rewrite lookup_insert_eq in Hlook. injection Hlook as <-. left. split; reflexivity.
    - rewrite lookup_insert_ne in Hlook by congruence. right. exact Hlook. }
  destruct Hcases as [[-> ->]|Hrest].
  - split; [lia|]. eexists. split; [apply arr_get_set_eq; lia|reflexivity].
  - destruct (Hold id f0 Hrest) as (Hf0 & Hne & pg & Hpg & Hpgid).
    split; [exact Hf0|]. exists pg. split; [|exact Hpgid].
    rewrite arr_get_set_ne by lia. exact Hpg.
Qed.

Lemma wf_FindVictimPage b res b1 :
  wf b -> FindVictimPage b = Some (res, b1) ->
  wf b1 /\ match res with Some f => 0 <= f < pool_size_ b1 | None => True end.
Proof.
  intros Hwf. pose proof Hwf as (Hn & Hlen & Hr & Hrn & Hfree & Htab).
  unfold FindVictimPage.
  destruct (free_list_ b) as [|frame rest] eqn:Efree.
  - destruct (Clock.Victim (replacer_ b)) as [[v r']|] eqn:Ev; [|discriminate].
    intros [= <- <-]. simpl.
    split.
    + apply wf_with_replacer; [exact Hwf|eapply Clock_wf_Victim; eauto|].
      destruct (Victim_spec _ Hr) as (res0 & r0 & Hv0 & Hres).
      rewrite Ev in Hv0. injection Hv0 as <- <-.
      destruct v as [g|].
      * destruct Hres as (d & _ & _ & _ & _ & ->). exact Hrn.
      * destruct Hres as (-> & _). exact Hrn.
    + destruct v as [g|]; [|exact I].
      destruct (Victim_spec _ Hr) as (res0 & r0 & Hv0 & Hres).
      rewrite Ev in Hv0. injection Hv0 as <- <-.
      destruct Hres as (d & Hd & -> & _). rewrite Hrn. apply Z.mod_pos_bound. lia.
  - intros [= <- <-]. simpl. split.
    + unfold wf; simpl.
      split; [exact Hn|]. split; [exact Hlen|]. split; [exact Hr|].
      split; [exact Hrn|]. split; [|exact Htab].
      intros f Hf. apply Hfree. rewrite ?Efree. right. exact Hf.
    + apply (Hfree frame). rewrite ?Efree. left.
Qed.

Lemma wf_pin_frame b f page r n :
  wf b -> arr_get (pages_ b) f = Some page -> Clock.Pin f (replacer_ b) = Some r ->
  wf (with_pages (<[Z.to_nat f := Frame.set_pin_count n page]> (pages_ b))
        (with_replacer r b)).
Proof.
  intros Hwf Hpage Hpin. pose proof Hwf as (Hn & Hlen & Hr & Hrn & Hfree & Htab).
  apply (wf_with_pages (with_replacer r b) f page); [|exact Hpage|reflexivity].
  apply wf_with_replacer; [exact Hwf|eapply Clock_wf_Pin; eauto|].
  rewrite (Clock_Pin_num_pages _ _ _ Hpin). exact Hrn.
Qed.

Lemma wf_NewPage b res b' : wf b -> NewPage PAGE_SIZE b = Some (res, b') -> wf b'.
Proof.
  intros Hwf. unfold NewPage.
  destruct (FindVictimPage b) as [[[frame|] b1]|] eqn:Ef; [| |discriminate].
  - destruct (wf_FindVictimPage _ _ _ Hwf Ef) as [Hwf1 Hframe].
    unfold AllocatePage.
    destruct (UpdatePage _ _ _ _ _) as [b3|] eqn:Eu; [|discriminate].
    assert (Hwf2 : wf (with_next_page_id (to_page_id_t (next_page_id_ b1 + 1)) b1)).
    { exact Hwf1. }
    destruct (wf_UpdatePage _ _ _ _ Hwf2 Eu) as (Hwf3 & _).
    destruct (Clock.Pin frame (replacer_ b3)) as [r|] eqn:Ep; [|discriminate].
    destruct (arr_get (pages_ b3) frame) as [page|] eqn:Epage; [|discriminate].
    destruct (arr_set _ _ _) as [pages|] eqn:Eset; [|discriminate].
    intros [= <- <-]. apply arr_set_Some in Eset as [_ ->].
    eapply wf_pin_frame; eauto.
  - intros [= <- <-]. apply (wf_FindVictimPage _ _ _ Hwf Ef).
Qed.

Lemma wf_FetchPage b id res b' : wf b -> FetchPage PAGE_SIZE id b = Some (res, b') -> wf b'.
Proof.
  intros Hwf. unfold FetchPage.
  destruct (page_table_ b !! id) as [frame|] eqn:Et.
  - destruct (arr_get (pages_ b) frame) as [page|] eqn:Epage; [|discriminate].
    destruct (Clock.Pin frame (replacer_ b)) as [r|] eqn:Ep; [|discriminate].
    destruct (int_incr _) as [n|]; [|discriminate].
    destruct (arr_set _ _ _) as [pages|] eqn:Eset; [|discriminate].
    intros [= <- <-]. apply arr_set_Some in Eset as [_ ->].
    eapply wf_pin_frame; eauto.
  - destruct (FindVictimPage b) as [[[frame|] b1]|] eqn:Ef; [| |discriminate].
    + destruct (wf_FindVictimPage _ _ _ Hwf Ef) as [Hwf1 Hframe].
      destruct (UpdatePage _ _ _ _ _) as [b2|] eqn:Eu; [|discriminate].
      destruct (wf_UpdatePage _ _ _ _ Hwf1 Eu) as (Hwf2 & _).
      destruct (arr_get (pages_ b2) frame) as [page|] eqn:Epage; [|discriminate].
      destruct (Clock.Pin frame (replacer_ b2)) as [r|] eqn:Ep; [|discriminate].
      destruct (int_incr _) as [n|]; [|discriminate]. simpl.
      destruct (_ =? 1); [|discriminate].
      destruct (arr_set _ _ _) as [pages|] eqn:Eset; [|discriminate].
      intros [= <- <-]. apply arr_set_Some in Eset as [_ ->].
      apply (wf_with_pages (with_replacer r b2) frame page); [|exact Epage|reflexivity].
      pose proof Hwf2 as (Hn & Hlen & Hr & Hrn & Hfree & Htab).
      apply wf_with_replacer; [exact Hwf2|eapply Clock_wf_Pin; eauto|].
      rewrite (Clock_Pin_num_pages _ _ _ Ep). exact Hrn.
    + intros [= <- <-]. apply (wf_FindVictimPage _ _ _ Hwf Ef).
Qed.

(** [UnpinPage], case by case. *)
Lemma UnpinPage_spec b page_id is_dirty :
  wf b ->
  match page_table_ b !! page_id with
  | None => UnpinPage page_id is_dirty b = Some (false, b)
  | Some f =>
      exists page, arr_get (pages_ b) f = Some page /\ Frame.page_id_ page = page_id /\
        if Frame.pin_count_ page =? 0 then UnpinPage page_id is_dirty b = Some (false, b)
        else
          UnpinPage page_id is_dirty b
          = Some (true,
              with_pages
                (<[Z.to_nat f :=
                     {| Frame.data_ := Frame.data_ page;
                        Frame.page_id_ := page_id;
                        Frame.pin_count_ := Frame.pin_count_ page - 1;
                        Frame.is_dirty_ := Frame.is_dirty_ page || is_dirty |}]> (pages_ b))
                (with_replacer
                   (if Frame.pin_count_ page - 1 =? 0
                    then {| Clock.num_pages_ := Clock.num_pages_ (replacer_ b);
                            Clock.pointer_ := Clock.pointer_ (replacer_ b);
                            Clock.ref_flag_ :=
                              <[Z.to_nat f := true]> (Clock.ref_flag_ (replacer_ b)) |}
                    else replacer_ b) b))
  end.
Proof.
  intros (Hn & Hlen & Hr & Hrn & Hfree & Htab). unfold UnpinPage.
  destruct (page_table_ b !! page_id) as [f|] eqn:Et; [|reflexivity].
  destruct (Htab page_id f Et) as (Hf & page & Hpage & Hid).
  exists page. split; [exact Hpage|]. split; [exact Hid|]. rewrite Hpage.
  destruct (Frame.pin_count_ page =? 0); [reflexivity|]. simpl.
  destruct Hr as (Hrn' & Hrlen & Hrp).
  assert (Hunpin : Clock.Unpin f (replacer_ b)
                   = Some {| Clock.num_pages_ := Clock.num_pages_ (replacer_ b);
                             Clock.pointer_ := Clock.pointer_ (replacer_ b);
                             Clock.ref_flag_ :=
                               <[Z.to_nat f := true]> (Clock.ref_flag_ (replacer_ b)) |}).
  { unfold Clock.Unpin. rewrite arr_set_in_range by lia. reflexivity. }
  rewrite arr_set_in_range by lia.
  destruct (Frame.pin_count_ page - 1 =? 0); [rewrite Hunpin|];
    destruct is_dirty, page as [d i n dirty]; simpl in *; subst;
    rewrite ?orb_true_r, ?orb_false_r; reflexivity.
Qed.

(** [DeletePage], case by case. *)
Lemma DeletePage_spec b page_id :
  wf b ->
  match page_table_ b !! page_id with
  | None => DeletePage PAGE_SIZE page_id b = Some (true, b)
  | Some f =>
      exists page, arr_get (pages_ b) f = Some page /\ Frame.page_id_ page = page_id /\
        if Frame.pin_count_ page >? 0 then DeletePage PAGE_SIZE page_id b = Some (false, b)
        else
          DeletePage PAGE_SIZE page_id b
          = Some (true,
              {| pool_size_ := pool_size_ b;
                 pages_ :=
                   <[Z.to_nat f :=
                       {| Frame.data_ := zero_data PAGE_SIZE;
                          Frame.page_id_ := INVALID_PAGE_ID;
                          Frame.pin_count_ := Frame.pin_count_ page;
                          Frame.is_dirty_ := false |}]> (pages_ b);
                 replacer_ := replacer_ b;
                 free_list_ := free_list_ b ++ [f];
                 page_table_ := delete page_id (page_table_ b);
                 next_page_id_ := next_page_id_ b;
                 disk_manager_ :=
                   if Frame.is_dirty_ page
                   then WritePage page_id (Frame.data_ page) (disk_manager_ b)
                   else disk_manager_ b |})
  end.
Proof.
  intros (Hn & Hlen & Hr & Hrn & Hfree & Htab). unfold DeletePage.
  destruct (page_table_ b !! page_id) as [f|] eqn:Et; [|reflexivity].
  destruct (Htab page_id f Et) as (Hf & page & Hpage & Hid).
  exists page. split; [exact Hpage|]. split; [exact Hid|]. rewrite Hpage.
  destruct (Frame.pin_count_ page >? 0); [reflexivity|].
  unfold UpdatePage. rewrite Hpage. rewrite arr_set_in_range by lia.
  rewrite Z.eqb_refl, Hid. reflexivity.
Qed.

Lemma wf_UnpinPage b id dirty res b' :
  wf b -> UnpinPage id dirty b = Some (res, b') -> wf b'.
Proof.
  intros Hwf Hrun. pose proof (UnpinPage_spec b id dirty Hwf) as Hspec.
  pose proof Hwf as (Hn & Hlen & Hr & Hrn & Hfree & Htab).
  destruct (page_table_ b !! id) as [f|] eqn:Et.
  - destruct Hspec as (page & Hpage & Hid & Hspec).
    destruct (Frame.pin_count_ page =? 0).
    + rewrite Hrun in Hspec. injection Hspec as -> ->. exact Hwf.
    + rewrite Hrun in Hspec. injection Hspec as -> ->.
      destruct (Htab id f Et) as (Hf & _).
      eapply (wf_with_pages (with_replacer _ b) f page);
        [|exact Hpage|simpl; congruence].
      apply wf_with_replacer; [exact Hwf| |].
      * destruct (_ =? 0); [|exact Hr].
        apply (Clock_wf_Unpin (replacer_ b) f); [exact Hr|].
        destruct Hr as (_ & Hrlen & _).
        unfold Clock.Unpin. rewrite arr_set_in_range by lia. reflexivity.
      * destruct (_ =? 0); exact Hrn.
  - rewrite Hrun in Hspec. injection Hspec as -> ->. exact Hwf.
Qed.

Lemma wf_DeletePage b id res b' :
  wf b -> DeletePage PAGE_SIZE id b = Some (res, b') -> wf b'.
Proof.
  intros Hwf. unfold DeletePage.
  destruct (page_table_ b !! id) as [f|] eqn:Et.
  - destruct (arr_get (pages_ b) f) as [page|] eqn:Epage; [|discriminate].
    destruct (Frame.pin_count_ page >? 0).
    + intros [= <- <-]. exact Hwf.
    + destruct (UpdatePage _ _ _ _ _) as [b1|] eqn:Eu; [|discriminate].
      intros [= <- <-].
      destruct (wf_UpdatePage _ _ _ _ Hwf Eu) as (Hwf1 & Hf & Hsz & _).
      destruct Hwf1 as (Hn & Hlen & Hr & Hrn & Hfree & Htab).
      unfold wf; simpl.
      split; [exact Hn|]. split; [exact Hlen|]. split; [exact Hr|].
      split; [exact Hrn|]. split; [|exact Htab].
      intros g Hg. apply elem_of_app in Hg as [Hg|Hg]; [apply Hfree; exact Hg|].
      apply list_elem_of_singleton in Hg as ->. lia.
  - intros [= <- <-]. exact Hwf.
Qed.

Lemma wf_FlushPage b id res b' :
  wf b -> FlushPage id b = Some (res, b') -> wf b'.
Proof.
  intros Hwf. unfold FlushPage.
  destruct (id =? INVALID_PAGE_ID); [intros [= <- <-]; exact Hwf|].
  destruct (page_table_ b !! id) as [f|] eqn:Et; [|intros [= <- <-]; exact Hwf].
  destruct (arr_get (pages_ b) f) as [page|] eqn:Epage; [|discriminate].
  destruct (arr_set _ _ _) as [pages|] eqn:Eset; [|discriminate].
  intros [= <- <-]. apply arr_set_Some in Eset as [_ ->].
  apply (wf_with_pages (with_disk _ b) f page); [|exact Epage|reflexivity].
  exact Hwf.
Qed.

Lemma wf_FlushAllPages_loop n : forall i b b',
  wf b -> FlushAllPages_loop n i b = Some b' -> wf b'.
Proof.
  induction n as [|n IH]; intros i b b' Hwf; simpl.
  - intros [= <-]. exact Hwf.
  - destruct (arr_get (pages_ b) i) as [page|] eqn:Epage; [|discriminate].
    destruct (negb _).
    + destruct (arr_set _ _ _) as [pages|] eqn:Eset; [|discriminate].
      apply arr_set_Some in Eset as [_ ->]. apply IH.
      apply (wf_with_pages (with_disk _ b) i page); [|exact Epage|reflexivity].
      exact Hwf.
    + apply IH. exact Hwf.
Qed.

Lemma wf_WriteData b id data b' : wf b -> WriteData id data b = Some b' -> wf b'.
Proof.
  intros Hwf. unfold WriteData.
  destruct (page_table_ b !! id) as [f|]; [|discriminate].
  destruct (arr_get (pages_ b) f) as [page|] eqn:Epage; [|discriminate].
  destruct (arr_set _ _ _) as [pages|] eqn:Eset; [|discriminate].
  intros [= <-]. apply arr_set_Some in Eset as [_ ->].
  apply (wf_with_pages b f page); [exact Hwf|exact Epage|reflexivity].
Qed.

Lemma wf_run_calls h : forall b b', wf b -> run_calls PAGE_SIZE h b = Some b' -> wf b'.
Proof.
  induction h as [|c h IH]; intros b b' Hwf; simpl.
  - intros [= <-]. exact Hwf.
  - destruct (run_call PAGE_SIZE c b) as [b1|] eqn:E1; [|discriminate].
    apply IH. destruct c; simpl in E1.
    + destruct (NewPage PAGE_SIZE b) as [[res b2]|] eqn:E; [|discriminate].
      injection E1 as <-. eapply wf_NewPage; eauto.
    + destruct (FetchPage PAGE_SIZE page_id b) as [[res b2]|] eqn:E; [|discriminate].
      injection E1 as <-. eapply wf_FetchPage; eauto.
    + destruct (UnpinPage page_id is_dirty b) as [[res b2]|] eqn:E; [|discriminate].
      injection E1 as <-. eapply wf_UnpinPage; eauto.
    + destruct (FlushPage page_id b) as [[res b2]|] eqn:E; [|discriminate].
      injection E1 as <-. eapply wf_FlushPage; eauto.
    + eapply wf_FlushAllPages_loop; eauto.
    + destruct (DeletePage PAGE_SIZE page_id b) as [[res b2]|] eqn:E; [|discriminate].
      injection E1 as <-. eapply wf_DeletePage; eauto.
    + eapply wf_WriteData; eauto.
Qed.

Lemma reachable_wf b : reachable PAGE_SIZE b -> wf b.
Proof.
  intros (n & disk & h & Hn & Hrun). eapply wf_run_calls; [|exact Hrun].
  apply wf_new. exact Hn.
Qed.

End BPMFacts.

(** C5: in every reachable pool, [UnpinPage(id, is_dirty)] returns [false]
    and leaves the pool as it is when [id] is not in the page table or
    the pin count of its frame is 0; otherwise it returns [true], the pin
    count of the frame is one less, the dirty flag is the old one or-ed
    with [is_dirty], the replacer has received [Unpin] for the frame
    (its bit is set) exactly when the new count is 0, and nothing else
    changes. *)
Theorem UnpinPage_contract (PAGE_SIZE : nat) (b : BPM.BufferPoolManager)
    (page_id : page_id_t) (is_dirty : bool) :
  BPM.reachable PAGE_SIZE b ->
  match BPM.page_table_ b !! page_id with
  | None => BPM.UnpinPage page_id is_dirty b = Some (false, b)
  | Some f =>
      exists page, arr_get (BPM.pages_ b) f = Some page /\ Frame.page_id_ page = page_id /\
        if Frame.pin_count_ page =? 0
        then BPM.UnpinPage page_id is_dirty b = Some (false, b)
        else
          BPM.UnpinPage page_id is_dirty b
          = Some (true,
              BPM.with_pages
                (<[Z.to_nat f :=
                     {| Frame.data_ := Frame.data_ page;
                        Frame.page_id_ := page_id;
                        Frame.pin_count_ := Frame.pin_count_ page - 1;
                        Frame.is_dirty_ := Frame.is_dirty_ page || is_dirty |}]>
                   (BPM.pages_ b))
                (BPM.with_replacer
                   (if Frame.pin_count_ page - 1 =? 0
                    then {| Clock.num_pages_ := Clock.num_pages_ (BPM.replacer_ b);
                            Clock.pointer_ := Clock.pointer_ (BPM.replacer_ b);
                            Clock.ref_flag_ :=
                              <[Z.to_nat f := true]>
                                (Clock.ref_flag_ (BPM.replacer_ b)) |}
                    else BPM.replacer_ b) b))
  end.
Proof.
  intros Hr. apply UnpinPage_spec. apply (reachable_wf PAGE_SIZE). exact Hr.
Qed.

Lemma UnpinPage_contract_witness :
  BPM.reachable 4 pool_pinned /\
  match BPM.page_table_ pool_pinned !! 0 with
  | None => BPM.UnpinPage 0 true pool_pinned = Some (false, pool_pinned)
  | Some f =>
      exists page, arr_get (BPM.pages_ pool_pinned) f = Some page /\ Frame.page_id_ page = 0 /\
        if Frame.pin_count_ page =? 0
        then BPM.UnpinPage 0 true pool_pinned = Some (false, pool_pinned)
        else
          BPM.UnpinPage 0 true pool_pinned
          = Some (true,
              BPM.with_pages
                (<[Z.to_nat f :=
                     {| Frame.data_ := Frame.data_ page;
                        Frame.page_id_ := 0;
                        Frame.pin_count_ := Frame.pin_count_ page - 1;
                        Frame.is_dirty_ := Frame.is_dirty_ page || true |}]>
                   (BPM.pages_ pool_pinned))
                (BPM.with_replacer
                   (if Frame.pin_count_ page - 1 =? 0
                    then {| Clock.num_pages_ := Clock.num_pages_ (BPM.replacer_ pool_pinned);
                            Clock.pointer_ := Clock.pointer_ (BPM.replacer_ pool_pinned);
                            Clock.ref_flag_ :=
                              <[Z.to_nat f := true]>
                                (Clock.ref_flag_ (BPM.replacer_ pool_pinned)) |}
                    else BPM.replacer_ pool_pinned) pool_pinned))
  end.
Proof.
  assert (Hr : BPM.reachable 4 pool_pinned).
  { exists 2, [], history_pinned. split; [lia|]. vm_compute. reflexivity. }
  split; [exact Hr|]. exact (UnpinPage_contract 4 pool_pinned 0 true Hr).
Defined.

(** C6: in every reachable pool, [DeletePage(id)] returns [true] and
    leaves the pool as it is when [id] is not in the page table; returns
    [false] and leaves the pool as it is when the pin count of its frame
    is above 0; otherwise it returns [true], the disk has received the
    frame's data exactly when the frame was dirty, the mapping of [id] is
    gone from the page table, the frame is reset (zeroed, clean, page id
    [INVALID_PAGE_ID]) and its index is at the end of the free list. *)
Theorem DeletePage_contract (PAGE_SIZE : nat) (b : BPM.BufferPoolManager)
    (page_id : page_id_t) :
  BPM.reachable PAGE_SIZE b ->
  match BPM.page_table_ b !! page_id with
  | None => BPM.DeletePage PAGE_SIZE page_id b = Some (true, b)
  | Some f =>
      exists page, arr_get (BPM.pages_ b) f = Some page /\ Frame.page_id_ page = page_id /\
        if Frame.pin_count_ page >? 0
        then BPM.DeletePage PAGE_SIZE page_id b = Some (false, b)
        else
          BPM.DeletePage PAGE_SIZE page_id b
          = Some (true,
              {| BPM.pool_size_ := BPM.pool_size_ b;
                 BPM.pages_ :=
                   <[Z.to_nat f :=
                       {| Frame.data_ := zero_data PAGE_SIZE;
                          Frame.page_id_ := INVALID_PAGE_ID;
                          Frame.pin_count_ := Frame.pin_count_ page;
                          Frame.is_dirty_ := false |}]> (BPM.pages_ b);
                 BPM.replacer_ := BPM.replacer_ b;
                 BPM.free_list_ := BPM.free_list_ b ++ [f];
                 BPM.page_table_ := delete page_id (BPM.page_table_ b);
                 BPM.next_page_id_ := BPM.next_page_id_ b;
                 BPM.disk_manager_ :=
                   if Frame.is_dirty_ page
                   then WritePage page_id (Frame.data_ page) (BPM.disk_manager_ b)
                   else BPM.disk_manager_ b |})
  end.
Proof.
  intros Hr. apply DeletePage_spec. apply (reachable_wf PAGE_SIZE). exact Hr.
Qed.

Lemma DeletePage_contract_witness :
  BPM.reachable 4 pool_dirty /\
  match BPM.page_table_ pool_dirty !! 0 with
  | None => BPM.DeletePage 4 0 pool_dirty = Some (true, pool_dirty)
  | Some f =>
      exists page, arr_get (BPM.pages_ pool_dirty) f = Some page /\ Frame.page_id_ page = 0 /\
        if Frame.pin_count_ page >? 0
        then BPM.DeletePage 4 0 pool_dirty = Some (false, pool_dirty)
        else
          BPM.DeletePage 4 0 pool_dirty
          = Some (true,
              {| BPM.pool_size_ := BPM.pool_size_ pool_dirty;
                 BPM.pages_ :=
                   <[Z.to_nat f :=
                       {| Frame.data_ := zero_data 4;
                          Frame.page_id_ := INVALID_PAGE_ID;
                          Frame.pin_count_ := Frame.pin_count_ page;
                          Frame.is_dirty_ := false |}]> (BPM.pages_ pool_dirty);
                 BPM.replacer_ := BPM.replacer_ pool_dirty;
                 BPM.free_list_ := BPM.free_list_ pool_dirty ++ [f];
                 BPM.page_table_ := delete 0 (BPM.page_table_ pool_dirty);
                 BPM.next_page_id_ := BPM.next_page_id_ pool_dirty;
                 BPM.disk_manager_ :=
                   if Frame.is_dirty_ page
                   then WritePage 0 (Frame.data_ page) (BPM.disk_manager_ pool_dirty)
                   else BPM.disk_manager_ pool_dirty |})
  end.
Proof.
  assert (Hr : BPM.reachable 4 pool_dirty).
  { exists 2, [], history_dirty. split; [lia|]. vm_compute. reflexivity. }
  split; [exact Hr|]. exact (DeletePage_contract 4 pool_dirty 0 Hr).
Defined.

Example DeletePage_pool_dirty :
  BPM.DeletePage 4 0 pool_dirty
  = Some (true,
      {| BPM.pool_size_ := 2;
         BPM.pages_ := [Frame.fresh_page 4; Frame.fresh_page 4];
         BPM.replacer_ := {| Clock.num_pages_ := 2; Clock.pointer_ := 1;
                             Clock.ref_flag_ := [true; false] |};
         BPM.free_list_ := [1; 0];
         BPM.page_table_ := ∅;
         BPM.next_page_id_ := 1;
         BPM.disk_manager_ := [(0, zero_data 4)] |}) /\
  BPM.DeletePage 4 0 pool_pinned = Some (false, pool_pinned) /\
  BPM.DeletePage 4 7 pool_pinned = Some (true, pool_pinned).
Proof. vm_compute. repeat split. Qed.

Example UnpinPage_pool_pinned :
  BPM.UnpinPage 0 true pool_pinned = Some (true, pool_dirty) /\
  BPM.UnpinPage 0 false pool_dirty = Some (false, pool_dirty) /\
  BPM.UnpinPage 7 true pool_pinned = Some (false, pool_pinned).
Proof. vm_compute. repeat split. Qed.

(** ** Page guards *)

Section GuardFacts.
Import Guard PageGuard.

(** The move constructor empties its source: dropping it changes nothing. *)
Lemma move_construct_source_inert that b this' that' b' :
  move_construct that b = Some (this', that', b') ->
  b' = b /\ this' = that /\ Drop that' b' = Some (that', b').
Proof.
  unfold move_construct. simpl. intros [= <- <- <-].
  split; [reflexivity|]. split; [destruct that; reflexivity|reflexivity].
Qed.

(** Move assignment leaves its source as it was. *)
Lemma move_assign_source_unchanged this that b this' that' b' :
  move_assign this that b = Some (this', that', b') -> that' = that /\ this' = that.
Proof.
  unfold move_assign. destruct (Drop this b) as [dropped|]; [|discriminate].
  intros [= <- <- <-]. split; [reflexivity|destruct that; reflexivity].
Qed.

Lemma Write_move_assign_source_unchanged this that b this' that' b' :
  Write_move_assign this that b = Some (this', that', b') -> that' = that.
Proof.
  unfold Write_move_assign. destruct (Drop _ b) as [dropped|]; [|discriminate].
  intros [= <- <- <-]. reflexivity.
Qed.

End GuardFacts.

(** C3: holds for the move constructor of [BasicPageGuard]
    ([move_construct_source_inert]) and fails for the assignments, which
    copy the three members and leave the source as it was.  Page 0 of
    [pool_pinned_twice] has two pins, one of them owned by [guard_0].
    After [h = std::move(guard_0)] both guards own that pin: dropping the
    moved-from guard unpins the page, dropping [h] unpins it a second
    time, and the pin count is 0 although the other pin was never given
    back.  [WritePageGuard::operator=] and the move constructor of
    [WritePageGuard], which assigns, do the same. *)
Theorem move_assignment_keeps_source_owning :
  BPM.run_calls 4 history_pinned_twice (BPM.new 4 2 []) = Some pool_pinned_twice /\
  PageGuard.pin_count 0 pool_pinned_twice = Some 2 /\
  PageGuard.move_assign Guard.empty Guard.guard_0 pool_pinned_twice
    = Some (Guard.guard_0, Guard.guard_0, pool_pinned_twice) /\
  (do d1 <- PageGuard.Drop Guard.guard_0 pool_pinned_twice;
   PageGuard.pin_count 0 (snd d1)) = Some 1 /\
  (do d1 <- PageGuard.Drop Guard.guard_0 pool_pinned_twice;
   do d2 <- PageGuard.Drop Guard.guard_0 (snd d1);
   PageGuard.pin_count 0 (snd d2)) = Some 0 /\
  PageGuard.Write_move_assign {| Guard.write_guard_ := Guard.empty |}
      {| Guard.write_guard_ := Guard.guard_0 |} pool_pinned_twice
    = Some ({| Guard.write_guard_ := Guard.guard_0 |},
            {| Guard.write_guard_ := Guard.guard_0 |}, pool_pinned_twice) /\
  PageGuard.Write_move_construct {| Guard.write_guard_ := Guard.guard_0 |} pool_pinned_twice
    = Some ({| Guard.write_guard_ := Guard.guard_0 |},
            {| Guard.write_guard_ := Guard.guard_0 |}, pool_pinned_twice).
Proof. vm_compute. repeat split. Qed.

(** The same slip on a leaf that has just been initialised on a zeroed
    page, as [StartNewTree] does: the key that reads as zero is taken for
    a duplicate of the first, unused slot and is not stored. *)
Example Insert_zero_key_into_fresh_leaf :
  Leaf.entries leaf_fresh = [] /\
  Leaf.Insert int_comparator leaf_fresh 0 7 = Some (0, leaf_fresh) /\
  Leaf.Lookup int_comparator leaf_fresh 0 = Some None /\
  (do r <- Leaf.Insert int_comparator leaf_fresh 5 7; Some (fst r, Leaf.entries (snd r)))
    = Some (1, [(5, 7)]).
Proof. vm_compute. repeat split. Qed.

(** ** The B+tree *)

Section TreeFacts.
Import Tree.
Context {KeyType ValueType : Type}.
Variable comparator : KeyType -> KeyType -> Z.
Variable layout : Layout (KeyType:=KeyType) (ValueType:=ValueType).

(** A guard handed out by the pool has no page. *)
Lemma As_FetchPageRead id b w : As (Guard.read_guard_ (BPM.FetchPageRead id b)) w = None.
Proof. reflexivity. Qed.

Lemma As_FetchPageWrite id b w : As (Guard.write_guard_ (BPM.FetchPageWrite id b)) w = None.
Proof. reflexivity. Qed.

Lemma IsEmpty_undefined t w : IsEmpty layout t w = None.
Proof. reflexivity. Qed.

Lemma FindLeafPageByOperation_FIND_undefined fuel t key w :
  FindLeafPageByOperation comparator layout fuel t key FIND false false w = None.
Proof. reflexivity. Qed.

End TreeFacts.

(** The tree reaches its pages only through [FetchPageRead],
    [FetchPageWrite], [FetchPageBasic] and [NewPageGuarded], which hand out
    guards without a page.  [Insert] starts with [IsEmpty], which takes the
    typed view of such a guard: whatever the tree, the key and the value,
    [Insert] has no defined result, so it never returns [true]; neither
    has [GetValue].  An insertion followed by a lookup cannot be run on
    this code. *)
Lemma Insert_and_GetValue_have_no_result
    {KeyType ValueType : Type} (comparator : KeyType -> KeyType -> Z)
    (layout : Tree.Layout (KeyType:=KeyType) (ValueType:=ValueType))
    (fuel : nat) (t : Tree.BPlusTree) (key : KeyType) (value : ValueType)
    (result : list ValueType) (w : Tree.World) :
  Tree.Insert comparator layout fuel t key value w = None /\
  Tree.GetValue comparator layout fuel t key result w = None.
Proof.
  split.
  - unfold Tree.Insert, Tree.bind. rewrite IsEmpty_undefined. reflexivity.
  - unfold Tree.GetValue, Tree.bind.
    rewrite FindLeafPageByOperation_FIND_undefined. reflexivity.
Qed.

(* ===================================================================== *)
(** * Further properties of the code *)
(* ===================================================================== *)

(** ** The CLOCK replacer: candidates *)

Section ClockCandidates.
Import Clock.
Implicit Types (r : ClockReplacer) (f : frame_id_t).

Lemma count_set_nonneg (l : list bool) : 0 <= count_set l.
Proof. induction l as [|[] l IH]; simpl; lia. Qed.

Lemma count_set_replicate_false n : count_set (replicate n false) = 0.
Proof. induction n as [|n IH]; simpl; [reflexivity|exact IH]. Qed.

Lemma count_set_insert (l : list bool) : forall (i : nat) (old new : bool),
  l !! i = Some old ->
  count_set (<[i := new]> l)
  = count_set l - (if old then 1 else 0) + (if new then 1 else 0).
Proof.
  induction l as [|b l IH]; intros i old new Hi.
  - rewrite lookup_nil in Hi. discriminate.
  - destruct i as [|i]; simpl in *.
    + injection Hi as ->. destruct old, new; lia.
    + rewrite (IH i old new Hi). destruct b; lia.
Qed.

Lemma count_set_zero_iff (l : list bool) :
  count_set l = 0 <-> forall (i : nat) b, l !! i = Some b -> b = false.
Proof.
  induction l as [|b l IH]; simpl.
  - split; [intros _ i b Hi; rewrite lookup_nil in Hi; discriminate|reflexivity].
  - pose proof (count_set_nonneg l). split.
    + intros H0 i b' Hi. destruct b; [lia|].
      destruct i as [|i]; simpl in Hi; [congruence|].
      apply IH in Hi; [exact Hi|lia].
    + intros Hall. rewrite (Hall 0%nat b eq_refl).
      assert (count_set l = 0) by (apply IH; intros i b' Hi; apply (Hall (S i)); exact Hi).
      lia.
Qed.

Lemma Size_loop_spec r : forall n i acc,
  0 <= i -> (Z.to_nat i + n)%nat = length (ref_flag_ r) ->
  Size_loop n r i acc = Some (acc + count_set (drop (Z.to_nat i) (ref_flag_ r))).
Proof.
  induction n as [|n IH]; intros i acc Hi Hlen; simpl.
  - rewrite drop_ge by lia. simpl. f_equal. lia.
  - unfold arr_get. destruct (Z.ltb_spec i 0); [lia|].
    destruct (ref_flag_ r !! Z.to_nat i) as [b|] eqn:Hb.
    + rewrite (drop_S _ _ _ Hb). simpl.
      rewrite IH by lia. replace (Z.to_nat (i + 1)) with (S (Z.to_nat i)) by lia.
      f_equal. destruct b; lia.
    + apply lookup_ge_None in Hb. lia.
Qed.

Lemma Size_spec r : wf r -> Size r = Some (count_set (ref_flag_ r)).
Proof.
  intros (Hn & Hlen & _). unfold Size.
  rewrite Size_loop_spec by (simpl; lia). reflexivity.
Qed.

Lemma arr_get_lookup (l : list bool) i b :
  arr_get l i = Some b -> l !! Z.to_nat i = Some b.
Proof. unfold arr_get. destruct (i <? 0); [discriminate|auto]. Qed.

End ClockCandidates.

(** X1: on every reachable replacer [Size] is the number of set reference
    bits; it is 0 right after construction. *)
Theorem Size_counts_set_bits (r : Clock.ClockReplacer) :
  Clock.reachable r ->
  Clock.Size r = Some (Clock.count_set (Clock.ref_flag_ r)) /\
  Clock.Size (Clock.new (Clock.num_pages_ r)) = Some 0.
Proof.
  intros Hr. pose proof (Clock_reachable_wf r Hr) as Hwf. split.
  - apply Size_spec. exact Hwf.
  - destruct Hwf as (Hn & _). rewrite Size_spec by (apply Clock_wf_new; exact Hn).
    simpl. rewrite count_set_replicate_false. reflexivity.
Qed.

Lemma Size_counts_set_bits_witness :
  Clock.reachable Clock.state_3 /\
  Clock.Size Clock.state_3 = Some (Clock.count_set (Clock.ref_flag_ Clock.state_3)) /\
  Clock.Size (Clock.new (Clock.num_pages_ Clock.state_3)) = Some 0.
Proof.
  assert (Hr : Clock.reachable Clock.state_3).
  { exists 3, Clock.history_3. split; [lia|]. vm_compute. reflexivity. }
  split; [exact Hr|]. exact (Size_counts_set_bits Clock.state_3 Hr).
Defined.

(** X2: [Unpin f] on a frame of a reachable replacer sets the bit of [f],
    leaves the hand and every other bit alone, makes [Size] grow by one
    exactly when [f] was no candidate before, and a second [Unpin f]
    changes nothing. *)
Theorem Unpin_makes_candidate_once (r : Clock.ClockReplacer) (f : Clock.frame_id_t) :
  Clock.reachable r -> 0 <= f < Clock.num_pages_ r ->
  exists (old : bool) r',
    arr_get (Clock.ref_flag_ r) f = Some old /\
    Clock.Unpin f r = Some r' /\
    Clock.pointer_ r' = Clock.pointer_ r /\
    arr_get (Clock.ref_flag_ r') f = Some true /\
    (forall g, g <> f ->
       arr_get (Clock.ref_flag_ r') g = arr_get (Clock.ref_flag_ r) g) /\
    Clock.Size r' = Some (Clock.count_set (Clock.ref_flag_ r) + (if old then 0 else 1)) /\
    Clock.Unpin f r' = Some r'.
Proof.
  intros Hr Hf. pose proof (Clock_reachable_wf r Hr) as Hwf.
  pose proof Hwf as (Hn & Hlen & Hp).
  destruct (arr_get_in_range (Clock.ref_flag_ r) f) as [old Hold]; [lia|].
  assert (Hun : Clock.Unpin f r
                = Some {| Clock.num_pages_ := Clock.num_pages_ r;
                          Clock.pointer_ := Clock.pointer_ r;
                          Clock.ref_flag_ := <[Z.to_nat f := true]> (Clock.ref_flag_ r) |}).
  { unfold Clock.Unpin. rewrite arr_set_in_range by lia. reflexivity. }
  exists old. eexists. split; [exact Hold|]. split; [exact Hun|]. simpl.
  split; [reflexivity|]. split; [apply arr_get_set_eq; lia|].
  split; [|split].
  - intros g Hg. destruct (Z.ltb_spec g 0).
    + unfold arr_get. destruct (Z.ltb_spec g 0); [reflexivity|lia].
    + apply arr_get_set_ne; lia.
  - rewrite Size_spec by (eapply Clock_wf_Unpin; eauto). simpl.
    rewrite (count_set_insert _ _ old true (arr_get_lookup _ _ _ Hold)).
    f_equal. destruct old; lia.
  - unfold Clock.Unpin. simpl.
    rewrite arr_set_in_range by (rewrite length_insert; lia).
    rewrite list_insert_insert_eq. reflexivity.
Qed.

Lemma Unpin_makes_candidate_once_witness :
  Clock.reachable Clock.state_2 /\ 0 <= 1 < Clock.num_pages_ Clock.state_2 /\
  exists (old : bool) r',
    arr_get (Clock.ref_flag_ Clock.state_2) 1 = Some old /\
    Clock.Unpin 1 Clock.state_2 = Some r' /\
    Clock.pointer_ r' = Clock.pointer_ Clock.state_2 /\
    arr_get (Clock.ref_flag_ r') 1 = Some true /\
    (forall g, g <> 1 ->
       arr_get (Clock.ref_flag_ r') g = arr_get (Clock.ref_flag_ Clock.state_2) g) /\
    Clock.Size r'
    = Some (Clock.count_set (Clock.ref_flag_ Clock.state_2) + (if old then 0 else 1)) /\
    Clock.Unpin 1 r' = Some r'.
Proof.
  assert (Hr : Clock.reachable Clock.state_2).
  { exists 2, Clock.history_2. split; [lia|]. vm_compute. reflexivity. }
  assert (Hf : 0 <= 1 < Clock.num_pages_ Clock.state_2) by (simpl; lia).
  split; [exact Hr|]. split; [exact Hf|].
  exact (Unpin_makes_candidate_once Clock.state_2 1 Hr Hf).
Defined.

(** X3: on every reachable replacer, [Victim] finds nothing exactly when
    [Size] is 0, and then leaves the replacer as it is; when it hands out
    a frame, [Size] goes down by exactly one. *)
Theorem Victim_takes_one_candidate (r : Clock.ClockReplacer) :
  Clock.reachable r ->
  exists res r', Clock.Victim r = Some (res, r') /\
    (res = None <-> Clock.Size r = Some 0) /\
    (res = None -> r' = r) /\
    (forall f, res = Some f ->
       Clock.Size r' = Some (Clock.count_set (Clock.ref_flag_ r) - 1)).
Proof.
  intros Hr. pose proof (Clock_reachable_wf r Hr) as Hwf.
  pose proof Hwf as (Hn & Hlen & Hp).
  destruct (Victim_spec r Hwf) as (res & r' & Hv & Hres).
  exists res, r'. split; [exact Hv|].
  rewrite (Size_spec r Hwf).
  destruct res as [f|].
  - destruct Hres as (d & Hd & Hf & Hbit & _ & ->).
    pose proof (arr_get_lookup _ _ _ Hbit) as Hlook.
    split; [|split].
    + split; [discriminate|]. intros [= H0].
      apply count_set_zero_iff with (i := Z.to_nat f) (b := true) in H0;
        [discriminate|exact Hlook].
    + discriminate.
    + intros g [= <-].
      rewrite Size_spec by (eapply Clock_wf_Victim; eauto). simpl.
      rewrite (count_set_insert _ _ true false Hlook). f_equal. lia.
  - destruct Hres as (-> & Hall).
    split; [|split]; [|reflexivity|discriminate].
    split; [|reflexivity]. intros _. f_equal.
    apply count_set_zero_iff. intros i b Hi.
    pose proof (lookup_lt_Some _ _ _ Hi) as Hlt.
    specialize (Hall (Z.of_nat i) ltac:(lia)).
    rewrite arr_get_of_nat in Hall. congruence.
Qed.

Lemma Victim_takes_one_candidate_witness :
  Clock.reachable Clock.state_2 /\
  exists res r', Clock.Victim Clock.state_2 = Some (res, r') /\
    (res = None <-> Clock.Size Clock.state_2 = Some 0) /\
    (res = None -> r' = Clock.state_2) /\
    (forall f, res = Some f ->
       Clock.Size r' = Some (Clock.count_set (Clock.ref_flag_ Clock.state_2) - 1)).
Proof.
  assert (Hr : Clock.reachable Clock.state_2).
  { exists 2, Clock.history_2. split; [lia|]. vm_compute. reflexivity. }
  split; [exact Hr|]. exact (Victim_takes_one_candidate Clock.state_2 Hr).
Defined.

Section ClockPinned.
Import Clock.

Lemma victims_avoid_clear_bit f h : forall r vs,
  wf r -> arr_get (ref_flag_ r) f = Some false ->
  unpins f h = false -> victims h r = Some vs -> f ∉ vs.
Proof.
  induction h as [|c h IH]; intros r vs Hwf Hbit Hno Hrun.
  - simpl in Hrun. injection Hrun as <-. apply not_elem_of_nil.
  - simpl in Hno. apply orb_false_iff in Hno as [Hc Hno].
    pose proof (arr_get_Some _ _ _ Hbit) as Hf.
    destruct c as [|g|g]; simpl in Hrun.
    + destruct (Victim r) as [[res r1]|] eqn:Ev; [|discriminate]. simpl in Hrun.
      destruct (victims h r1) as [vs1|] eqn:Evs; [|discriminate].
      injection Hrun as <-.
      destruct (Victim_spec r Hwf) as (res0 & r0 & Hv0 & Hres).
      rewrite Ev in Hv0. injection Hv0 as <- <-.
      assert (Hwf1 : wf r1) by (eapply Clock_wf_Victim; eauto).
      destruct res as [v|].
      * destruct Hres as (d & Hd & Hv & Hvbit & _ & Hr1).
        assert (Hne : v <> f) by (intros ->; congruence).
        apply not_elem_of_cons. split; [congruence|].
        apply (IH r1 vs1 Hwf1); [|exact Hno|exact Evs].
        rewrite Hr1. simpl. pose proof (arr_get_Some _ _ _ Hvbit).
        rewrite arr_get_set_ne by lia. exact Hbit.
      * destruct Hres as (-> & _). apply (IH r vs1 Hwf Hbit Hno Evs).
    + destruct (Pin g r) as [r1|] eqn:Ep; [|discriminate].
      apply (IH r1 vs (Clock_wf_Pin _ _ _ Hwf Ep)); [|exact Hno|exact Hrun].
      unfold Pin in Ep. destruct (NextSlot r g); [|discriminate].
      destruct (arr_set (ref_flag_ r) g false) as [flags|] eqn:Es; [|discriminate].
      injection Ep as <-. simpl. apply arr_set_Some in Es as [Hg ->].
      rewrite arr_get_insert by lia. destruct (f =? g); [reflexivity|exact Hbit].
    + destruct (Unpin g r) as [r1|] eqn:Eu; [|discriminate].
      apply (IH r1 vs (Clock_wf_Unpin _ _ _ Hwf Eu)); [|exact Hno|exact Hrun].
      unfold Unpin in Eu.
      destruct (arr_set (ref_flag_ r) g true) as [flags|] eqn:Es; [|discriminate].
      injection Eu as <-. simpl. apply arr_set_Some in Es as [Hg ->].
      apply Z.eqb_neq in Hc. rewrite arr_get_set_ne by lia. exact Hbit.
Qed.

End ClockPinned.

(** X4: a pinned frame is never handed out.  Once [Pin f] has been called
    on a reachable replacer, no [Victim] call returns [f] for as long as
    [Unpin f] is not called, whatever else is called in between. *)
Theorem pinned_frame_is_never_victim
    (r r' : Clock.ClockReplacer) (f : Clock.frame_id_t)
    (h : list Clock.call) (vs : list Clock.frame_id_t) :
  Clock.reachable r -> Clock.Pin f r = Some r' ->
  Clock.unpins f h = false -> Clock.victims h r' = Some vs ->
  f ∉ vs.
Proof.
  intros Hr Hpin Hno Hrun. pose proof (Clock_reachable_wf r Hr) as Hwf.
  apply (victims_avoid_clear_bit f h r' vs); try assumption.
  - eapply Clock_wf_Pin; eauto.
  - unfold Clock.Pin in Hpin. destruct (Clock.NextSlot r f); [|discriminate].
    destruct (arr_set (Clock.ref_flag_ r) f false) as [flags|] eqn:Es; [|discriminate].
    injection Hpin as <-. simpl. apply arr_set_Some in Es as [Hf ->].
    apply arr_get_set_eq. exact Hf.
Qed.

Lemma pinned_frame_is_never_victim_witness :
  Clock.reachable Clock.state_3 /\
  Clock.Pin 1 Clock.state_3 = Some Clock.state_3_pinned_1 /\
  Clock.unpins 1 Clock.history_after_pin = false /\
  Clock.victims Clock.history_after_pin Clock.state_3_pinned_1 = Some [2] /\
  1 ∉ [2].
Proof.
  assert (Hr : Clock.reachable Clock.state_3).
  { exists 3, Clock.history_3. split; [lia|]. vm_compute. reflexivity. }
  assert (Hp : Clock.Pin 1 Clock.state_3 = Some Clock.state_3_pinned_1)
    by (vm_compute; reflexivity).
  assert (Hn : Clock.unpins 1 Clock.history_after_pin = false) by reflexivity.
  assert (Hv : Clock.victims Clock.history_after_pin Clock.state_3_pinned_1 = Some [2])
    by (vm_compute; reflexivity).
  split; [exact Hr|]. split; [exact Hp|]. split; [exact Hn|]. split; [exact Hv|].
  exact (pinned_frame_is_never_victim Clock.state_3 Clock.state_3_pinned_1 1
           Clock.history_after_pin [2] Hr Hp Hn Hv).
Defined.

(** ** The buffer pool manager: pins and eviction *)

Section BPMPins.
Import BPM.
Variable PAGE_SIZE : nat.
Implicit Types (b : BufferPoolManager) (f g : Z) (page : Frame.Page).

Lemma pool_eta b :
  b = {| pool_size_ := pool_size_ b; pages_ := pages_ b; replacer_ := replacer_ b;
         free_list_ := free_list_ b; page_table_ := page_table_ b;
         next_page_id_ := next_page_id_ b; disk_manager_ := disk_manager_ b |}.
Proof. destruct b. reflexivity. Qed.

Lemma pins_wf_new pool_size disk :
  0 <= pool_size < 2 ^ 31 -> pins_wf (new PAGE_SIZE pool_size disk).
Proof.
  intros Hn. unfold pins_wf, new; simpl.
  assert (Hfresh : forall f page,
            arr_get (replicate (Z.to_nat pool_size) (Frame.fresh_page PAGE_SIZE)) f
            = Some page -> page = Frame.fresh_page PAGE_SIZE).
  { intros f page Hp. unfold arr_get in Hp. destruct (f <? 0); [discriminate|].
    apply lookup_replicate in Hp as [-> _]. reflexivity. }
  split; [|split; [|split; [|split; [|split]]]].
  - intros f page Hp. rewrite (Hfresh f page Hp). simpl. lia.
  - intros f page Hp. rewrite (Hfresh f page Hp). simpl. lia.
  - apply NoDup_ListNoDup, Finite.Injective_map_NoDup; [|apply List.seq_NoDup].
    intros x y. lia.
  - intros f Hf. apply list_elem_of_In, in_map_iff in Hf as (n & <- & Hin).
    apply in_seq in Hin. exists (Frame.fresh_page PAGE_SIZE).
    split; [|repeat split].
    rewrite arr_get_of_nat. apply lookup_replicate. split; [reflexivity|lia].
  - apply lookup_empty.
  - intros f page Hp. rewrite (Hfresh f page Hp). simpl. intros _ H. contradiction.
Qed.

(** What [UpdatePage] leaves behind. *)
Lemma UpdatePage_explicit f id b b' :
  UpdatePage PAGE_SIZE f id f b = Some b' ->
  exists page, arr_get (pages_ b) f = Some page /\
    b' = {| pool_size_ := pool_size_ b;
            pages_ := <[Z.to_nat f :=
                          {| Frame.data_ := zero_data PAGE_SIZE;
                             Frame.page_id_ := id;
                             Frame.pin_count_ := Frame.pin_count_ page;
                             Frame.is_dirty_ := false |}]> (pages_ b);
            replacer_ := replacer_ b;
            free_list_ := free_list_ b;
            page_table_ :=
              if id =? INVALID_PAGE_ID
              then delete (Frame.page_id_ page) (page_table_ b)
              else emplace id f (delete (Frame.page_id_ page) (page_table_ b));
            next_page_id_ := next_page_id_ b;
            disk_manager_ :=
              if Frame.is_dirty_ page
              then WritePage (Frame.page_id_ page) (Frame.data_ page) (disk_manager_ b)
              else disk_manager_ b |}.
Proof.
  unfold UpdatePage.
  destruct (arr_get (pages_ b) f) as [page|] eqn:Hpage; [|discriminate].
  destruct (arr_set (pages_ b) f _) as [pages|] eqn:Hset; [|discriminate].
  intros [= <-]. apply arr_set_Some in Hset as [Hf ->].
  exists page. split; [reflexivity|]. reflexivity.
Qed.

Lemma Clock_Pin_flags r f r' :
  Clock.Pin f r = Some r' ->
  0 <= f < Z.of_nat (length (Clock.ref_flag_ r)) /\
  Clock.ref_flag_ r' = <[Z.to_nat f := false]> (Clock.ref_flag_ r).
Proof.
  unfold Clock.Pin. destruct (Clock.NextSlot r f); [|discriminate].
  destruct (arr_set (Clock.ref_flag_ r) f false) as [flags|] eqn:Es; [|discriminate].
  intros [= <-]. apply arr_set_Some in Es as [Hf ->]. split; [exact Hf|reflexivity].
Qed.

Lemma Clock_Pin_clears r f r' :
  Clock.Pin f r = Some r' ->
  arr_get (Clock.ref_flag_ r') f = Some false /\
  forall g, arr_get (Clock.ref_flag_ r) g = Some false ->
            arr_get (Clock.ref_flag_ r') g = Some false.
Proof.
  intros Hpin. destruct (Clock_Pin_flags r f r' Hpin) as [Hf ->]. split.
  - apply arr_get_set_eq. exact Hf.
  - intros g Hg. pose proof (arr_get_Some _ _ _ Hg).
    rewrite arr_get_insert by lia. destruct (g =? f); [reflexivity|exact Hg].
Qed.

(** The frame that [FindVictimPage] gives is unpinned, and is no longer
    in the free list. *)
Lemma pins_wf_FindVictimPage b res b1 :
  wf b -> pins_wf b -> FindVictimPage b = Some (res, b1) ->
  pins_wf b1 /\
  pages_ b1 = pages_ b /\ page_table_ b1 = page_table_ b /\
  next_page_id_ b1 = next_page_id_ b /\ disk_manager_ b1 = disk_manager_ b /\
  pool_size_ b1 = pool_size_ b /\
  match res with
  | Some f =>
      (f ∉ free_list_ b1) /\
      exists page, arr_get (pages_ b) f = Some page /\ Frame.pin_count_ page = 0
  | None =>
      b1 = b /\ free_list_ b = [] /\
      forall g, 0 <= g < pool_size_ b ->
        arr_get (Clock.ref_flag_ (replacer_ b)) g = Some false
  end.
Proof.
  intros Hwf (Hpin & Hbit & Hnd & Hfree & Hinv & Hmap).
  pose proof Hwf as (Hn & Hlen & Hr & Hrn & Hfl & Htab).
  unfold FindVictimPage. destruct (free_list_ b) as [|frame rest] eqn:Efl.
  - destruct (Clock.Victim (replacer_ b)) as [[v r']|] eqn:Ev; [|discriminate].
    intros [= <- <-]. simpl.
    destruct (Victim_spec _ Hr) as (res0 & r0 & Hv0 & Hres).
    rewrite Ev in Hv0. injection Hv0 as <- <-.
    destruct v as [g|].
    + destruct Hres as (d & Hd & Hg & Hgbit & _ & ->).
      pose proof (arr_get_Some _ _ _ Hgbit) as Hgr.
      split; [|repeat split; try reflexivity].
      * unfold pins_wf; simpl. rewrite Efl.
        split; [exact Hpin|]. split; [|split; [exact Hnd|]].
        -- intros f page Hp Hpos. specialize (Hbit f page Hp Hpos).
           pose proof (arr_get_Some _ _ _ Hbit).
           rewrite arr_get_insert by lia. destruct (f =? g); [reflexivity|exact Hbit].
        -- split; [intros f Hf; apply elem_of_nil in Hf; contradiction|].
           split; [exact Hinv|exact Hmap].
      * rewrite Efl. apply not_elem_of_nil.
      * pose proof Hr as (_ & Hrlen & _).
        destruct (arr_get_in_range (pages_ b) g) as [page Hpage]; [lia|].
        exists page. split; [exact Hpage|].
        pose proof (Hpin g page Hpage).
        destruct (Z_lt_le_dec 0 (Frame.pin_count_ page)) as [Hpos|]; [|lia].
        specialize (Hbit g page Hpage Hpos). congruence.
    + destruct Hres as (-> & Hall). split; [|repeat split; try reflexivity].
      * unfold pins_wf; simpl. rewrite Efl. repeat split; try assumption.
      * destruct b; reflexivity.
      * intros g Hg. apply Hall. lia.
  - intros [= <- <-]. simpl.
    apply NoDup_cons in Hnd as [Hnotin Hnd'].
    split; [|repeat split; try reflexivity].
    + unfold pins_wf; simpl. repeat split; try assumption.
      intros f Hf. apply Hfree. right. exact Hf.
    + exact Hnotin.
    + destruct (Hfree frame) as (page & Hpage & Hp0 & _); [left|].
      exists page. split; assumption.
Qed.

(** One frame changes: what has to be checked for [pins_wf]. *)
Lemma pins_wf_frame_update b b' f page page' :
  pins_wf b -> arr_get (pages_ b) f = Some page ->
  pages_ b' = <[Z.to_nat f := page']> (pages_ b) ->
  0 <= Frame.pin_count_ page' ->
  (0 < Frame.pin_count_ page' ->
   arr_get (Clock.ref_flag_ (replacer_ b')) f = Some false) ->
  (forall g, g <> f -> arr_get (Clock.ref_flag_ (replacer_ b)) g = Some false ->
     arr_get (Clock.ref_flag_ (replacer_ b')) g = Some false) ->
  NoDup (free_list_ b') ->
  (forall g, g ∈ free_list_ b' ->
     (g ∈ free_list_ b /\ g <> f) \/
     (g = f /\ Frame.pin_count_ page' = 0 /\ Frame.is_dirty_ page' = false /\
      Frame.page_id_ page' = INVALID_PAGE_ID)) ->
  page_table_ b' !! INVALID_PAGE_ID = None ->
  (forall k g, g <> f -> page_table_ b !! k = Some g -> page_table_ b' !! k = Some g) ->
  (Frame.pin_count_ page' = 0 -> Frame.page_id_ page' <> INVALID_PAGE_ID ->
   page_table_ b' !! Frame.page_id_ page' = Some f) ->
  pins_wf b'.
Proof.
  intros (Hpin & Hbit & Hnd & Hfree & Hinv & Hmap) Hpage Hpages Hpin' Hbit' Hmono
         Hnd' Hfree' Hinv' Hsurv Hmap'.
  pose proof (arr_get_Some _ _ _ Hpage) as Hf.
  assert (Hget : forall g, 0 <= g ->
            arr_get (pages_ b') g = if g =? f then Some page' else arr_get (pages_ b) g).
  { intros g Hg. rewrite Hpages. apply arr_get_insert; lia. }
  assert (Hcases : forall g pg, arr_get (pages_ b') g = Some pg ->
            (g = f /\ pg = page') \/ (g <> f /\ arr_get (pages_ b) g = Some pg)).
  { intros g pg Hg. pose proof (arr_get_Some _ _ _ Hg) as Hr.
    rewrite Hget in Hg by lia. destruct (Z.eqb_spec g f) as [->|Hne].
    - left. split; [reflexivity|congruence].
    - right. split; assumption. }
  unfold pins_wf. split; [|split; [|split; [exact Hnd'|split; [|split; [exact Hinv'|]]]]].
  - intros g pg Hg. destruct (Hcases g pg Hg) as [[-> ->]|[Hne Hold]];
      [exact Hpin'|eapply Hpin; eauto].
  - intros g pg Hg Hpos. destruct (Hcases g pg Hg) as [[-> ->]|[Hne Hold]].
    + apply Hbit'. exact Hpos.
    + apply Hmono; [exact Hne|]. eapply Hbit; eauto.
  - intros g Hg. destruct (Hfree' g Hg) as [[Hin Hne]|(-> & H1 & H2 & H3)].
    + destruct (Hfree g Hin) as (pg & Hpg & Hrest). exists pg. split; [|exact Hrest].
      pose proof (arr_get_Some _ _ _ Hpg). rewrite Hget by lia.
      destruct (Z.eqb_spec g f); [contradiction|exact Hpg].
    + exists page'. split; [|auto]. rewrite Hget by lia. rewrite Z.eqb_refl. reflexivity.
  - intros g pg Hg H0 Hid. destruct (Hcases g pg Hg) as [[-> ->]|[Hne Hold]].
    + apply Hmap'; assumption.
    + apply Hsurv; [exact Hne|]. apply Hmap; assumption.
Qed.

(** A frame that is in the page table is not in the free list. *)
Lemma mapped_not_free b id f :
  wf b -> pins_wf b -> page_table_ b !! id = Some f -> f ∉ free_list_ b.
Proof.
  intros (_ & _ & _ & _ & _ & Htab) (_ & _ & _ & Hfree & Hinv & _) Hlook Hin.
  destruct (Htab id f Hlook) as (_ & page & Hpage & Hid).
  destruct (Hfree f Hin) as (page0 & Hpage0 & _ & _ & Hinvalid).
  rewrite Hpage in Hpage0. injection Hpage0 as <-. congruence.
Qed.

Lemma pins_wf_UnpinPage b id dirty res b' :
  wf b -> pins_wf b -> UnpinPage id dirty b = Some (res, b') -> pins_wf b'.
Proof.
  intros Hwf Hp Hrun. pose proof (UnpinPage_spec b id dirty Hwf) as Hspec.
  pose proof Hwf as (Hn & Hlen & Hr & Hrn & Hfl & Htab).
  destruct (page_table_ b !! id) as [f|] eqn:Et.
  - destruct Hspec as (page & Hpage & Hid & Hspec).
    pose proof (mapped_not_free b id f Hwf Hp Et) as Hnotfree.
    pose proof Hp as (Hpin & Hbit & Hnd & Hfree & Hinv & Hmap).
    pose proof (Hpin f page Hpage) as Hpos.
    destruct (Z.eqb_spec (Frame.pin_count_ page) 0) as [H0|Hne].
    + rewrite Hrun in Hspec. injection Hspec as -> ->. exact Hp.
    + rewrite Hrun in Hspec. injection Hspec as -> ->.
      pose proof (arr_get_Some _ _ _ Hpage) as Hf.
      destruct Hr as (_ & Hrlen & _).
      eapply (pins_wf_frame_update b _ f page); try exact Hp; try exact Hwf;
        try exact Hpage; try reflexivity; simpl.
      * lia.
      * intros Hpos'. destruct (Z.eqb_spec (Frame.pin_count_ page - 1) 0); [lia|].
        apply (Hbit f page Hpage). lia.
      * intros g Hg Hold. destruct (_ =? 0); [|exact Hold]. simpl.
        pose proof (arr_get_Some _ _ _ Hold). rewrite arr_get_set_ne by lia. exact Hold.
      * exact Hnd.
      * intros g Hg. left. split; [exact Hg|]. intros ->. contradiction.
      * exact Hinv.
      * intros k g _ Hk. exact Hk.
      * intros _ _. exact Et.
  - rewrite Hrun in Hspec. injection Hspec as -> ->. exact Hp.
Qed.

Lemma pins_wf_DeletePage b id res b' :
  wf b -> pins_wf b -> DeletePage PAGE_SIZE id b = Some (res, b') -> pins_wf b'.
Proof.
  intros Hwf Hp Hrun. pose proof (DeletePage_spec PAGE_SIZE b id Hwf) as Hspec.
  pose proof Hwf as (Hn & Hlen & Hr & Hrn & Hfl & Htab).
  destruct (page_table_ b !! id) as [f|] eqn:Et.
  - destruct Hspec as (page & Hpage & Hid & Hspec).
    pose proof (mapped_not_free b id f Hwf Hp Et) as Hnotfree.
    pose proof Hp as (Hpin & Hbit & Hnd & Hfree & Hinv & Hmap).
    pose proof (Hpin f page Hpage) as Hpos.
    destruct (Z.gtb_spec (Frame.pin_count_ page) 0) as [Hgt|Hle].
    + rewrite Hrun in Hspec. injection Hspec as -> ->. exact Hp.
    + rewrite Hrun in Hspec. injection Hspec as -> ->.
      eapply (pins_wf_frame_update b _ f page); try exact Hp; try exact Hwf;
        try exact Hpage; try reflexivity; simpl.
      * lia.
      * lia.
      * intros g _ Hold. exact Hold.
      * apply NoDup_app. split; [exact Hnd|]. split; [|apply NoDup_singleton].
        intros g Hg Hg'. apply list_elem_of_singleton in Hg' as ->. contradiction.
      * intros g Hg. apply elem_of_app in Hg as [Hg|Hg].
        -- left. split; [exact Hg|]. intros ->. contradiction.
        -- apply list_elem_of_singleton in Hg as ->. right.
           repeat split; try reflexivity. lia.
      * rewrite lookup_delete_ne; [exact Hinv|]. intros Heq. congruence.
      * intros k g Hne Hk. rewrite lookup_delete_ne; [exact Hk|].
        intros Heq. congruence.
      * intros _ H. contradiction.
  - rewrite Hrun in Hspec. injection Hspec as -> ->. exact Hp.
Qed.

(** [NewPage] with a frame at hand, written out. *)
Lemma NewPage_explicit b id f b' :
  wf b -> pins_wf b -> NewPage PAGE_SIZE b = Some (Some (id, f), b') ->
  exists b1 old r,
    FindVictimPage b = Some (Some f, b1) /\
    arr_get (pages_ b) f = Some old /\ Frame.pin_count_ old = 0 /\
    Clock.Pin f (replacer_ b1) = Some r /\ (f ∉ free_list_ b1) /\ pins_wf b1 /\
    id = next_page_id_ b /\
    b' = {| pool_size_ := pool_size_ b;
            pages_ := <[Z.to_nat f :=
                          {| Frame.data_ := zero_data PAGE_SIZE;
                             Frame.page_id_ := id;
                             Frame.pin_count_ := 1;
                             Frame.is_dirty_ := false |}]> (pages_ b);
            replacer_ := r;
            free_list_ := free_list_ b1;
            page_table_ :=
              if id =? INVALID_PAGE_ID
              then delete (Frame.page_id_ old) (page_table_ b)
              else emplace id f (delete (Frame.page_id_ old) (page_table_ b));
            next_page_id_ := to_page_id_t (next_page_id_ b + 1);
            disk_manager_ :=
              if Frame.is_dirty_ old
              then WritePage (Frame.page_id_ old) (Frame.data_ old) (disk_manager_ b)
              else disk_manager_ b |}.
Proof.
  intros Hwf Hp. unfold NewPage.
  destruct (FindVictimPage b) as [[[frame|] b1]|] eqn:Ef; [|intros [=]|discriminate].
  destruct (pins_wf_FindVictimPage _ _ _ Hwf Hp Ef)
    as (Hp1 & Hpages & Htable & Hnext & Hdisk & Hsize & Hnotin & old & Hold & Hpin0).
  unfold AllocatePage.
  destruct (UpdatePage _ _ _ _ _) as [b3|] eqn:Eu; [|discriminate].
  apply UpdatePage_explicit in Eu as (old' & Hold' & ->). simpl in *.
  rewrite Hpages in Hold'. rewrite Hold in Hold'. injection Hold' as <-.
  destruct (Clock.Pin frame (replacer_ b1)) as [r|] eqn:Ep; [|discriminate].
  pose proof (arr_get_Some _ _ _ Hold) as Hf.
  rewrite Hpages. rewrite arr_get_set_eq by exact Hf. simpl.
  destruct (arr_set _ _ _) as [pages|] eqn:Eset; [|discriminate].
  apply arr_set_Some in Eset as [_ ->]. rewrite list_insert_insert_eq.
  intros [= <- <- <-]. exists b1, old, r.
  rewrite Hsize, Htable, Hnext, Hdisk.
  split; [reflexivity|]. split; [exact Hold|]. split; [exact Hpin0|].
  split; [exact Ep|]. split; [exact Hnotin|]. split; [exact Hp1|].
  split; reflexivity.
Qed.

(** [FetchPage] of a page that is not resident, with a frame at hand,
    written out. *)
Lemma FetchPage_miss_explicit b id f b' :
  wf b -> pins_wf b -> page_table_ b !! id = None ->
  FetchPage PAGE_SIZE id b = Some (Some f, b') ->
  exists b1 old r,
    FindVictimPage b = Some (Some f, b1) /\
    arr_get (pages_ b) f = Some old /\ Frame.pin_count_ old = 0 /\
    Clock.Pin f (replacer_ b1) = Some r /\ (f ∉ free_list_ b1) /\ pins_wf b1 /\
    b' = {| pool_size_ := pool_size_ b;
            pages_ := <[Z.to_nat f :=
                          {| Frame.data_ :=
                               ReadPage PAGE_SIZE id
                                 (if Frame.is_dirty_ old
                                  then WritePage (Frame.page_id_ old) (Frame.data_ old)
                                         (disk_manager_ b)
                                  else disk_manager_ b);
                             Frame.page_id_ := id;
                             Frame.pin_count_ := 1;
                             Frame.is_dirty_ := false |}]> (pages_ b);
            replacer_ := r;
            free_list_ := free_list_ b1;
            page_table_ :=
              if id =? INVALID_PAGE_ID
              then delete (Frame.page_id_ old) (page_table_ b)
              else emplace id f (delete (Frame.page_id_ old) (page_table_ b));
            next_page_id_ := next_page_id_ b;
            disk_manager_ :=
              if Frame.is_dirty_ old
              then WritePage (Frame.page_id_ old) (Frame.data_ old) (disk_manager_ b)
              else disk_manager_ b |}.
Proof.
  intros Hwf Hp Hmiss. unfold FetchPage. rewrite Hmiss.
  destruct (FindVictimPage b) as [[[frame|] b1]|] eqn:Ef; [|intros [=]|discriminate].
  destruct (pins_wf_FindVictimPage _ _ _ Hwf Hp Ef)
    as (Hp1 & Hpages & Htable & Hnext & Hdisk & Hsize & Hnotin & old & Hold & Hpin0).
  destruct (UpdatePage _ _ _ _ _) as [b3|] eqn:Eu; [|discriminate].
  apply UpdatePage_explicit in Eu as (old' & Hold' & ->). simpl in *.
  rewrite Hpages in Hold'. rewrite Hold in Hold'. injection Hold' as <-.
  pose proof (arr_get_Some _ _ _ Hold) as Hf.
  rewrite Hpages. rewrite arr_get_set_eq by exact Hf. simpl.
  destruct (Clock.Pin frame (replacer_ b1)) as [r|] eqn:Ep; [|discriminate].
  rewrite Hpin0. change (int_incr 0) with (Some 1). simpl.
  destruct (arr_set _ _ _) as [pages|] eqn:Eset; [|discriminate].
  apply arr_set_Some in Eset as [_ ->]. rewrite list_insert_insert_eq.
  intros [= <- <-]. exists b1, old, r.
  rewrite Hsize, Htable, Hnext, Hdisk.
  split; [reflexivity|]. split; [exact Hold|]. split; [exact Hpin0|].
  split; [exact Ep|]. split; [exact Hnotin|]. split; [exact Hp1|].
  reflexivity.
Qed.

(** Putting a pinned page into a frame that [FindVictimPage] gave keeps
    [pins_wf]. *)
Lemma pins_wf_install b b1 b' f old r page' id :
  wf b -> pins_wf b -> pins_wf b1 ->
  arr_get (pages_ b) f = Some old -> Frame.pin_count_ old = 0 ->
  pages_ b1 = pages_ b -> page_table_ b1 = page_table_ b ->
  Clock.Pin f (replacer_ b1) = Some r -> f ∉ free_list_ b1 ->
  0 < Frame.pin_count_ page' ->
  pages_ b' = <[Z.to_nat f := page']> (pages_ b) ->
  replacer_ b' = r -> free_list_ b' = free_list_ b1 ->
  page_table_ b' = (if id =? INVALID_PAGE_ID
                    then delete (Frame.page_id_ old) (page_table_ b)
                    else emplace id f (delete (Frame.page_id_ old) (page_table_ b))) ->
  pins_wf b'.
Proof.
  intros Hwf Hp Hp1 Hold Hpin0 Hpages Htable Hpin Hnotin Hpos Hpages' Hrep Hfl Htab'.
  destruct (Clock_Pin_clears _ _ _ Hpin) as [Hclr Hmono].
  pose proof Hp as (_ & _ & _ & _ & Hinv & Hmap).
  pose proof Hp1 as (Hpin1 & Hbit1 & Hnd1 & Hfree1 & Hinv1 & Hmap1).
  assert (Hwf1 : forall k g, g <> f -> page_table_ b !! k = Some g ->
            delete (Frame.page_id_ old) (page_table_ b) !! k = Some g).
  { intros k g Hne Hk. rewrite lookup_delete_ne; [exact Hk|]. intros Heq.
    destruct (Z.eq_dec (Frame.page_id_ old) INVALID_PAGE_ID) as [Hi|Hi].
    - congruence.
    - pose proof (Hmap f old Hold Hpin0 Hi) as Hm. congruence. }
  assert (Hdel : delete (Frame.page_id_ old) (page_table_ b) !! INVALID_PAGE_ID = None).
  { apply lookup_delete_None. right. exact Hinv. }
  apply (pins_wf_frame_update b1 b' f old page').
  - exact Hp1.
  - rewrite Hpages. exact Hold.
  - rewrite Hpages. exact Hpages'.
  - lia.
  - intros _. rewrite Hrep. exact Hclr.
  - intros g _ Hg. rewrite Hrep. apply Hmono. exact Hg.
  - rewrite Hfl. exact Hnd1.
  - intros g Hg. rewrite Hfl in Hg. left. split; [exact Hg|]. intros ->. contradiction.
  - rewrite Htab'. destruct (Z.eqb_spec id INVALID_PAGE_ID) as [Hi|Hi]; [exact Hdel|].
    unfold emplace. destruct (delete _ _ !! id); [exact Hdel|].
    rewrite lookup_insert_ne; [exact Hdel|exact Hi].
  - intros k g Hne Hk. rewrite Htable in Hk. rewrite Htab'.
    pose proof (Hwf1 k g Hne Hk) as Hk'.
    destruct (id =? INVALID_PAGE_ID); [exact Hk'|].
    unfold emplace. destruct (delete _ _ !! id) eqn:Eid; [exact Hk'|].
    rewrite lookup_insert_ne; [exact Hk'|]. intros <-. congruence.
  - lia.
Qed.

Lemma pins_wf_NewPage b res b' :
  wf b -> pins_wf b -> NewPage PAGE_SIZE b = Some (res, b') -> pins_wf b'.
Proof.
  intros Hwf Hp Hrun. destruct res as [[id f]|].
  - destruct (NewPage_explicit _ _ _ _ Hwf Hp Hrun)
      as (b1 & old & r & Ef & Hold & Hpin0 & Hpin & Hnotin & Hp1 & Hid & ->).
    destruct (pins_wf_FindVictimPage _ _ _ Hwf Hp Ef) as (_ & Hpages & Htable & _).
    eapply (pins_wf_install b b1 _ f old r _ id); eauto; simpl; try reflexivity; lia.
  - unfold NewPage in Hrun.
    destruct (FindVictimPage b) as [[[frame|] b1]|] eqn:Ef; [| |discriminate].
    + unfold AllocatePage in Hrun.
      destruct (UpdatePage _ _ _ _ _); [|discriminate].
      destruct (Clock.Pin _ _); [|discriminate].
      destruct (arr_get _ _); [|discriminate].
      destruct (arr_set _ _ _); discriminate.
    + injection Hrun as <-.
      destruct (pins_wf_FindVictimPage _ _ _ Hwf Hp Ef) as (Hp1 & _). exact Hp1.
Qed.

Lemma pins_wf_touch b b' f page page' :
  pins_wf b -> arr_get (pages_ b) f = Some page ->
  Frame.page_id_ page <> INVALID_PAGE_ID ->
  Frame.pin_count_ page' = Frame.pin_count_ page ->
  Frame.page_id_ page' = Frame.page_id_ page ->
  pages_ b' = <[Z.to_nat f := page']> (pages_ b) ->
  replacer_ b' = replacer_ b -> free_list_ b' = free_list_ b ->
  page_table_ b' = page_table_ b ->
  pins_wf b'.
Proof.
  intros Hp Hpage Hvalid Hpin' Hid' Hpages Hrep Hfl Htab.
  pose proof Hp as (Hpin & Hbit & Hnd & Hfree & Hinv & Hmap).
  assert (Hnotfree : f ∉ free_list_ b).
  { intros Hin. destruct (Hfree f Hin) as (page0 & Hpage0 & _ & _ & Hi). congruence. }
  apply (pins_wf_frame_update b b' f page page'); try assumption.
  - rewrite Hpin'. eapply Hpin; eauto.
  - rewrite Hpin', Hrep. eapply Hbit; eauto.
  - rewrite Hrep. intros g _ Hg. exact Hg.
  - rewrite Hfl. exact Hnd.
  - rewrite Hfl. intros g Hg. left. split; [exact Hg|]. intros ->. contradiction.
  - rewrite Htab. exact Hinv.
  - rewrite Htab. intros k g _ Hk. exact Hk.
  - rewrite Hpin', Hid', Htab. intros H0 Hi. apply Hmap; assumption.
Qed.

Lemma mapped_valid b id f page :
  wf b -> pins_wf b -> page_table_ b !! id = Some f ->
  arr_get (pages_ b) f = Some page ->
  Frame.page_id_ page = id /\ id <> INVALID_PAGE_ID.
Proof.
  intros (_ & _ & _ & _ & _ & Htab) (_ & _ & _ & _ & Hinv & _) Hlook Hpage.
  destruct (Htab id f Hlook) as (_ & page0 & Hpage0 & Hid).
  rewrite Hpage in Hpage0. injection Hpage0 as <-. split; [exact Hid|].
  intros ->. congruence.
Qed.

Lemma pins_wf_FetchPage b id res b' :
  wf b -> pins_wf b -> FetchPage PAGE_SIZE id b = Some (res, b') -> pins_wf b'.
Proof.
  intros Hwf Hp Hrun. destruct (page_table_ b !! id) as [f|] eqn:Et.
  - unfold FetchPage in Hrun. rewrite Et in Hrun.
    destruct (arr_get (pages_ b) f) as [page|] eqn:Epage; [|discriminate].
    destruct (Clock.Pin f (replacer_ b)) as [r|] eqn:Ep; [|discriminate].
    unfold int_incr in Hrun.
    destruct (Frame.pin_count_ page <? INT_MAX); [|discriminate]. simpl in Hrun.
    destruct (arr_set _ _ _) as [pages|] eqn:Eset; [|discriminate].
    injection Hrun as <- <-. apply arr_set_Some in Eset as [_ ->].
    destruct (Clock_Pin_clears _ _ _ Ep) as [Hclr Hmono].
    pose proof Hp as (Hpin & Hbit & Hnd & Hfree & Hinv & Hmap).
    pose proof (mapped_not_free b id f Hwf Hp Et) as Hnotfree.
    pose proof (Hpin f page Epage) as Hpos.
    apply (pins_wf_frame_update b _ f page
             (Frame.set_pin_count (Frame.pin_count_ page + 1) page));
      try assumption; try reflexivity; simpl.
    + lia.
    + intros _. exact Hclr.
    + intros g _ Hg. apply Hmono. exact Hg.
    + intros g Hg. left. split; [exact Hg|]. intros ->. contradiction.
    + intros k g _ Hk. exact Hk.
    + lia.
  - destruct res as [f|].
    + destruct (FetchPage_miss_explicit _ _ _ _ Hwf Hp Et Hrun)
        as (b1 & old & r & Ef & Hold & Hpin0 & Hpin & Hnotin & Hp1 & ->).
      destruct (pins_wf_FindVictimPage _ _ _ Hwf Hp Ef) as (_ & Hpages & Htable & _).
      eapply (pins_wf_install b b1 _ f old r _ id); eauto; simpl; try reflexivity; lia.
    + unfold FetchPage in Hrun. rewrite Et in Hrun.
      destruct (FindVictimPage b) as [[[frame|] b1]|] eqn:Ef; [| |discriminate].
      * destruct (UpdatePage _ _ _ _ _); [|discriminate].
        destruct (arr_get _ _); [|discriminate].
        destruct (Clock.Pin _ _); [|discriminate].
        destruct (int_incr _); [|discriminate]. simpl in Hrun.
        destruct (_ =? 1); [|discriminate].
        destruct (arr_set _ _ _); discriminate.
      * injection Hrun as <-.
        destruct (pins_wf_FindVictimPage _ _ _ Hwf Hp Ef) as (Hp1 & _). exact Hp1.
Qed.

Lemma pins_wf_FlushPage b id res b' :
  wf b -> pins_wf b -> FlushPage id b = Some (res, b') -> pins_wf b'.
Proof.
  intros Hwf Hp. unfold FlushPage.
  destruct (id =? INVALID_PAGE_ID); [intros [= <- <-]; exact Hp|].
  destruct (page_table_ b !! id) as [f|] eqn:Et; [|intros [= <- <-]; exact Hp].
  destruct (arr_get (pages_ b) f) as [page|] eqn:Epage; [|discriminate].
  destruct (arr_set _ _ _) as [pages|] eqn:Eset; [|discriminate].
  intros [= <- <-]. apply arr_set_Some in Eset as [_ ->].
  destruct (mapped_valid b id f page Hwf Hp Et Epage) as [Hid Hvalid].
  apply (pins_wf_touch b _ f page (Frame.set_is_dirty false page));
    try assumption; try reflexivity. congruence.
Qed.

Lemma pins_wf_FlushAllPages_loop n : forall i b b',
  pins_wf b -> FlushAllPages_loop n i b = Some b' -> pins_wf b'.
Proof.
  induction n as [|n IH]; intros i b b' Hp; simpl.
  - intros [= <-]. exact Hp.
  - destruct (arr_get (pages_ b) i) as [page|] eqn:Epage; [|discriminate].
    destruct (Z.eqb_spec (Frame.page_id_ page) INVALID_PAGE_ID) as [Hi|Hi]; simpl.
    + apply IH. exact Hp.
    + destruct (arr_set _ _ _) as [pages|] eqn:Eset; [|discriminate].
      apply arr_set_Some in Eset as [_ ->]. apply IH.
      apply (pins_wf_touch b _ i page (Frame.set_is_dirty false page));
        try assumption; reflexivity.
Qed.

Lemma pins_wf_WriteData b id data b' :
  wf b -> pins_wf b -> WriteData id data b = Some b' -> pins_wf b'.
Proof.
  intros Hwf Hp. unfold WriteData.
  destruct (page_table_ b !! id) as [f|] eqn:Et; [|discriminate]. simpl.
  destruct (arr_get (pages_ b) f) as [page|] eqn:Epage; [|discriminate].
  destruct (arr_set _ _ _) as [pages|] eqn:Eset; [|discriminate].
  intros [= <-]. apply arr_set_Some in Eset as [_ ->].
  destruct (mapped_valid b id f page Hwf Hp Et Epage) as [Hid Hvalid].
  apply (pins_wf_touch b _ f page (Frame.set_data data page));
    try assumption; try reflexivity. congruence.
Qed.

Lemma pins_wf_run_call c b b' :
  wf b -> pins_wf b -> run_call PAGE_SIZE c b = Some b' -> pins_wf b'.
Proof.
  intros Hwf Hp E1. destruct c; simpl in E1.
  - destruct (NewPage PAGE_SIZE b) as [[res b2]|] eqn:E; [|discriminate].
    injection E1 as <-. eapply pins_wf_NewPage; eauto.
  - destruct (FetchPage PAGE_SIZE page_id b) as [[res b2]|] eqn:E; [|discriminate].
    injection E1 as <-. eapply pins_wf_FetchPage; eauto.
  - destruct (UnpinPage page_id is_dirty b) as [[res b2]|] eqn:E; [|discriminate].
    injection E1 as <-. eapply pins_wf_UnpinPage; eauto.
  - destruct (FlushPage page_id b) as [[res b2]|] eqn:E; [|discriminate].
    injection E1 as <-. eapply pins_wf_FlushPage; eauto.
  - eapply pins_wf_FlushAllPages_loop; eauto.
  - destruct (DeletePage PAGE_SIZE page_id b) as [[res b2]|] eqn:E; [|discriminate].
    injection E1 as <-. eapply pins_wf_DeletePage; eauto.
  - eapply pins_wf_WriteData; eauto.
Qed.

Lemma wf_run_call c b b' :
  wf b -> run_call PAGE_SIZE c b = Some b' -> wf b'.
Proof.
  intros Hwf E1. apply (wf_run_calls PAGE_SIZE [c] b b' Hwf). simpl. rewrite E1. reflexivity.
Qed.

Lemma pins_wf_run_calls h : forall b b',
  wf b -> pins_wf b -> run_calls PAGE_SIZE h b = Some b' -> wf b' /\ pins_wf b'.
Proof.
  induction h as [|c h IH]; intros b b' Hwf Hp; simpl.
  - intros [= <-]. split; assumption.
  - destruct (run_call PAGE_SIZE c b) as [b1|] eqn:E1; [|discriminate].
    apply IH; [eapply wf_run_call; eauto|eapply pins_wf_run_call; eauto].
Qed.

Lemma reachable_pins_wf b : reachable PAGE_SIZE b -> wf b /\ pins_wf b.
Proof.
  intros (n & disk & h & Hn & Hrun). eapply pins_wf_run_calls; [| |exact Hrun].
  - apply wf_new. exact Hn.
  - apply pins_wf_new. exact Hn.
Qed.

(** *** Unpinned frames stay at hand *)

Lemma FindVictimPage_total b :
  wf b -> exists res b1, FindVictimPage b = Some (res, b1).
Proof.
  intros (_ & _ & Hr & _). unfold FindVictimPage.
  destruct (free_list_ b) as [|frame rest]; [|eauto].
  destruct (Victim_spec _ Hr) as (res & r' & -> & _). simpl. eauto.
Qed.

Lemma FindVictimPage_others b f b1 :
  wf b -> FindVictimPage b = Some (Some f, b1) ->
  forall g, g <> f ->
    (g ∈ free_list_ b -> g ∈ free_list_ b1) /\
    (arr_get (Clock.ref_flag_ (replacer_ b)) g = Some true ->
     arr_get (Clock.ref_flag_ (replacer_ b1)) g = Some true).
Proof.
  intros (_ & _ & Hr & _). unfold FindVictimPage.
  destruct (free_list_ b) as [|frame rest] eqn:Efl.
  - destruct (Victim_spec _ Hr) as (res & r' & Hv & Hres). rewrite Hv. simpl.
    intros [= -> <-] g Hne. simpl. split; [rewrite Efl; intros H; exact H|].
    destruct Hres as (d & _ & _ & Hft & _ & ->). simpl. intros Hg.
    pose proof (arr_get_Some _ _ _ Hg). pose proof (arr_get_Some _ _ _ Hft).
    rewrite arr_get_set_ne by lia. exact Hg.
  - intros [= <- <-] g Hne. simpl. split; [|intros H; exact H].
    intros Hg. apply elem_of_cons in Hg as [Hg|Hg]; [contradiction|exact Hg].
Qed.

Lemma accounted_new pool_size disk :
  0 <= pool_size < 2 ^ 31 -> frames_accounted (new PAGE_SIZE pool_size disk).
Proof.
  intros Hn f page Hpage _. left. simpl.
  apply arr_get_Some in Hpage. simpl in Hpage. rewrite length_replicate in Hpage.
  apply list_elem_of_fmap. exists (Z.to_nat f). split; [lia|].
  apply elem_of_seq. lia.
Qed.

Lemma accounted_frame_update b b' f page' :
  frames_accounted b -> 0 <= f < Z.of_nat (length (pages_ b)) ->
  pages_ b' = <[Z.to_nat f := page']> (pages_ b) ->
  (Frame.pin_count_ page' = 0 ->
   f ∈ free_list_ b' \/ arr_get (Clock.ref_flag_ (replacer_ b')) f = Some true) ->
  (forall g, g <> f -> g ∈ free_list_ b -> g ∈ free_list_ b') ->
  (forall g, g <> f -> arr_get (Clock.ref_flag_ (replacer_ b)) g = Some true ->
     arr_get (Clock.ref_flag_ (replacer_ b')) g = Some true) ->
  frames_accounted b'.
Proof.
  intros Hacc Hf Hpages Hf' Hfl Hbits g pg Hg H0.
  pose proof (arr_get_Some _ _ _ Hg) as Hr.
  rewrite Hpages in Hg. rewrite arr_get_insert in Hg by lia.
  destruct (Z.eqb_spec g f) as [->|Hne].
  - injection Hg as <-. apply Hf'. exact H0.
  - destruct (Hacc g pg Hg H0) as [Hin|Hbit]; [left; apply Hfl|right; apply Hbits];
      assumption.
Qed.

Lemma Clock_Pin_others r f r' g :
  Clock.Pin f r = Some r' -> g <> f ->
  arr_get (Clock.ref_flag_ r') g = arr_get (Clock.ref_flag_ r) g.
Proof.
  intros Hpin Hne. destruct (Clock_Pin_flags r f r' Hpin) as [Hf ->].
  unfold arr_get. destruct (g <? 0) eqn:Eg; [reflexivity|].
  apply Z.ltb_ge in Eg. rewrite list_lookup_insert_ne; [reflexivity|]. lia.
Qed.

Lemma accounted_install b b1 b' f r page' :
  wf b -> frames_accounted b -> FindVictimPage b = Some (Some f, b1) ->
  0 <= f < Z.of_nat (length (pages_ b)) ->
  Clock.Pin f (replacer_ b1) = Some r ->
  0 < Frame.pin_count_ page' ->
  pages_ b' = <[Z.to_nat f := page']> (pages_ b) ->
  replacer_ b' = r -> free_list_ b' = free_list_ b1 ->
  frames_accounted b'.
Proof.
  intros Hwf Hacc Ef Hf Hpin Hpos Hpages Hrep Hfl.
  apply (accounted_frame_update b b' f page'); try assumption.
  - lia.
  - intros g Hne Hg. rewrite Hfl.
    apply (FindVictimPage_others b f b1 Hwf Ef g Hne). exact Hg.
  - intros g Hne Hg. rewrite Hrep. rewrite (Clock_Pin_others _ _ _ g Hpin Hne).
    apply (FindVictimPage_others b f b1 Hwf Ef g Hne). exact Hg.
Qed.

Lemma NewPage_None b b' :
  wf b -> pins_wf b -> NewPage PAGE_SIZE b = Some (None, b') ->
  b' = b /\ free_list_ b = [] /\
  forall g, 0 <= g < pool_size_ b ->
    arr_get (Clock.ref_flag_ (replacer_ b)) g = Some false.
Proof.
  intros Hwf Hp Hrun. unfold NewPage in Hrun.
  destruct (FindVictimPage b) as [[[frame|] b1]|] eqn:Ef; [| |discriminate].
  - unfold AllocatePage in Hrun.
    destruct (UpdatePage _ _ _ _ _); [|discriminate].
    destruct (Clock.Pin _ _); [|discriminate].
    destruct (arr_get _ _); [|discriminate].
    destruct (arr_set _ _ _); discriminate.
  - injection Hrun as <-.
    destruct (pins_wf_FindVictimPage _ _ _ Hwf Hp Ef) as (_ & _ & _ & _ & _ & _ & H).
    exact H.
Qed.

Lemma FetchPage_miss_None b id b' :
  wf b -> pins_wf b -> page_table_ b !! id = None ->
  FetchPage PAGE_SIZE id b = Some (None, b') ->
  b' = b /\ free_list_ b = [] /\
  forall g, 0 <= g < pool_size_ b ->
    arr_get (Clock.ref_flag_ (replacer_ b)) g = Some false.
Proof.
  intros Hwf Hp Et Hrun. unfold FetchPage in Hrun. rewrite Et in Hrun.
  destruct (FindVictimPage b) as [[[frame|] b1]|] eqn:Ef; [| |discriminate].
  - destruct (UpdatePage _ _ _ _ _); [|discriminate].
    destruct (arr_get _ _); [|discriminate].
    destruct (Clock.Pin _ _); [|discriminate].
    destruct (int_incr _); [|discriminate]. simpl in Hrun.
    destruct (_ =? 1); [|discriminate].
    destruct (arr_set _ _ _); discriminate.
  - injection Hrun as <-.
    destruct (pins_wf_FindVictimPage _ _ _ Hwf Hp Ef) as (_ & _ & _ & _ & _ & _ & H).
    exact H.
Qed.

(** [FetchPage] of a resident page, written out. *)
Lemma FetchPage_hit_explicit b id f :
  wf b -> page_table_ b !! id = Some f ->
  exists page next,
    arr_get (pages_ b) f = Some page /\ Frame.page_id_ page = id /\
    Clock.NextSlot (replacer_ b) f = Some next /\
    FetchPage PAGE_SIZE id b
    = if Frame.pin_count_ page <? INT_MAX then
        Some (Some f,
          with_pages
            (<[Z.to_nat f := Frame.set_pin_count (Frame.pin_count_ page + 1) page]> (pages_ b))
            (with_replacer
               {| Clock.num_pages_ := Clock.num_pages_ (replacer_ b);
                  Clock.pointer_ := next;
                  Clock.ref_flag_ := <[Z.to_nat f := false]> (Clock.ref_flag_ (replacer_ b)) |}
               b))
      else None.
Proof.
  intros (Hn & Hlen & Hr & Hrn & Hfree & Htab) Et. unfold FetchPage. rewrite Et.
  destruct (Htab id f Et) as (Hf & page & Hpage & Hid). rewrite Hpage. simpl.
  destruct Hr as (Hrn' & Hrlen & Hrp).
  unfold Clock.Pin, Clock.NextSlot.
  destruct (Z.eqb_spec (Clock.num_pages_ (replacer_ b)) 0) as [E0|Hne]; [lia|]. simpl.
  rewrite arr_set_in_range by lia. simpl.
  eexists page, _. split; [reflexivity|]. split; [exact Hid|]. split; [reflexivity|].
  unfold int_incr. destruct (Frame.pin_count_ page <? INT_MAX); [|reflexivity]. simpl.
  rewrite arr_set_in_range by lia. reflexivity.
Qed.

Lemma accounted_NewPage b res b' :
  wf b -> pins_wf b -> frames_accounted b ->
  NewPage PAGE_SIZE b = Some (res, b') -> frames_accounted b'.
Proof.
  intros Hwf Hp Hacc Hrun. destruct res as [[id f]|].
  - destruct (NewPage_explicit _ _ _ _ Hwf Hp Hrun)
      as (b1 & old & r & Ef & Hold & Hpin0 & Hpin & Hnotin & Hp1 & Hid & ->).
    eapply (accounted_install b b1 _ f r); eauto; simpl; try reflexivity; try lia;
      try (eapply arr_get_Some; eauto).
  - destruct (NewPage_None _ _ Hwf Hp Hrun) as (-> & _). exact Hacc.
Qed.

Lemma accounted_FetchPage b id res b' :
  wf b -> pins_wf b -> frames_accounted b ->
  FetchPage PAGE_SIZE id b = Some (res, b') -> frames_accounted b'.
Proof.
  intros Hwf Hp Hacc Hrun. destruct (page_table_ b !! id) as [f|] eqn:Et.
  - destruct (FetchPage_hit_explicit b id f Hwf Et)
      as (page & next & Hpage & Hid & Hnext & Hrun').
    rewrite Hrun in Hrun'.
    destruct (Frame.pin_count_ page <? INT_MAX); [|discriminate].
    injection Hrun' as -> ->.
    pose proof Hp as (Hpin & _).
    pose proof (Hpin f page Hpage) as Hpos.
    apply (accounted_frame_update b _ f
             (Frame.set_pin_count (Frame.pin_count_ page + 1) page)); try assumption;
      simpl.
    + eapply arr_get_Some; eauto.
    + reflexivity.
    + lia.
    + intros g _ Hg. exact Hg.
    + intros g Hne Hg. pose proof (arr_get_Some _ _ _ Hg).
      pose proof (arr_get_Some _ _ _ Hpage).
      rewrite arr_get_set_ne by lia. exact Hg.
  - destruct res as [f|].
    + destruct (FetchPage_miss_explicit _ _ _ _ Hwf Hp Et Hrun)
        as (b1 & old & r & Ef & Hold & Hpin0 & Hpin & Hnotin & Hp1 & ->).
      eapply (accounted_install b b1 _ f r); eauto; simpl; try reflexivity; try lia;
        try (eapply arr_get_Some; eauto).
    + destruct (FetchPage_miss_None _ _ _ Hwf Hp Et Hrun) as (-> & _). exact Hacc.
Qed.

Lemma accounted_UnpinPage b id dirty res b' :
  wf b -> pins_wf b -> frames_accounted b ->
  UnpinPage id dirty b = Some (res, b') -> frames_accounted b'.
Proof.
  intros Hwf Hp Hacc Hrun. pose proof (UnpinPage_spec b id dirty Hwf) as Hspec.
  pose proof Hwf as (Hn & Hlen & Hr & Hrn & Hfl & Htab).
  destruct (page_table_ b !! id) as [f|] eqn:Et.
  - destruct Hspec as (page & Hpage & Hid & Hspec).
    destruct (Z.eqb_spec (Frame.pin_count_ page) 0) as [H0|Hne].
    + rewrite Hrun in Hspec. injection Hspec as -> ->. exact Hacc.
    + rewrite Hrun in Hspec. injection Hspec as -> ->.
      pose proof (arr_get_Some _ _ _ Hpage) as Hf.
      destruct Hr as (_ & Hrlen & _).
      eapply (accounted_frame_update b _ f); try exact Hacc; try exact Hf;
        try reflexivity; simpl.
      * intros H0. right. destruct (Z.eqb_spec (Frame.pin_count_ page - 1) 0); [|lia].
        simpl. apply arr_get_set_eq. lia.
      * intros g _ Hg. exact Hg.
      * intros g Hg Hold. destruct (_ =? 0); [|exact Hold]. simpl.
        pose proof (arr_get_Some _ _ _ Hold). rewrite arr_get_set_ne by lia. exact Hold.
  - rewrite Hrun in Hspec. injection Hspec as -> ->. exact Hacc.
Qed.

Lemma accounted_DeletePage b id res b' :
  wf b -> frames_accounted b ->
  DeletePage PAGE_SIZE id b = Some (res, b') -> frames_accounted b'.
Proof.
  intros Hwf Hacc Hrun. pose proof (DeletePage_spec PAGE_SIZE b id Hwf) as Hspec.
  destruct (page_table_ b !! id) as [f|] eqn:Et.
  - destruct Hspec as (page & Hpage & Hid & Hspec).
    destruct (Frame.pin_count_ page >? 0).
    + rewrite Hrun in Hspec. injection Hspec as -> ->. exact Hacc.
    + rewrite Hrun in Hspec. injection Hspec as -> ->.
      pose proof (arr_get_Some _ _ _ Hpage) as Hf.
      eapply (accounted_frame_update b _ f); try exact Hacc; try exact Hf;
        try reflexivity; simpl.
      * intros _. left. apply elem_of_app. right. apply list_elem_of_singleton. reflexivity.
      * intros g _ Hg. apply elem_of_app. left. exact Hg.
      * intros g _ Hg. exact Hg.
  - rewrite Hrun in Hspec. injection Hspec as -> ->. exact Hacc.
Qed.

Lemma accounted_touch b b' f page page' :
  frames_accounted b -> arr_get (pages_ b) f = Some page ->
  Frame.pin_count_ page' = Frame.pin_count_ page ->
  pages_ b' = <[Z.to_nat f := page']> (pages_ b) ->
  replacer_ b' = replacer_ b -> free_list_ b' = free_list_ b ->
  frames_accounted b'.
Proof.
  intros Hacc Hpage Hpin Hpages Hrep Hfl.
  apply (accounted_frame_update b b' f page'); try assumption.
  - eapply arr_get_Some; eauto.
  - rewrite Hpin, Hrep, Hfl. apply Hacc. exact Hpage.
  - rewrite Hfl. intros g _ Hg. exact Hg.
  - rewrite Hrep. intros g _ Hg. exact Hg.
Qed.

Lemma accounted_FlushAllPages_loop n : forall i b b',
  frames_accounted b -> FlushAllPages_loop n i b = Some b' -> frames_accounted b'.
Proof.
  induction n as [|n IH]; intros i b b' Hacc; simpl.
  - intros [= <-]. exact Hacc.
  - destruct (arr_get (pages_ b) i) as [page|] eqn:Epage; [|discriminate].
    destruct (negb _); simpl.
    + destruct (arr_set _ _ _) as [pages|] eqn:Eset; [|discriminate].
      apply arr_set_Some in Eset as [_ ->]. apply IH.
      apply (accounted_touch b _ i page (Frame.set_is_dirty false page));
        try assumption; reflexivity.
    + apply IH. exact Hacc.
Qed.

Lemma accounted_run_call c b b' :
  wf b -> pins_wf b -> frames_accounted b ->
  run_call PAGE_SIZE c b = Some b' -> frames_accounted b'.
Proof.
  intros Hwf Hp Hacc E1. destruct c; simpl in E1.
  - destruct (NewPage PAGE_SIZE b) as [[res b2]|] eqn:E; [|discriminate].
    injection E1 as <-. eapply accounted_NewPage; eauto.
  - destruct (FetchPage PAGE_SIZE page_id b) as [[res b2]|] eqn:E; [|discriminate].
    injection E1 as <-. eapply accounted_FetchPage; eauto.
  - destruct (UnpinPage page_id is_dirty b) as [[res b2]|] eqn:E; [|discriminate].
    injection E1 as <-. eapply accounted_UnpinPage; eauto.
  - destruct (FlushPage page_id b) as [[res b2]|] eqn:E; [|discriminate].
    injection E1 as <-. unfold FlushPage in E.
    destruct (page_id =? INVALID_PAGE_ID); [injection E as _ <-; exact Hacc|].
    destruct (page_table_ b !! page_id) as [f|]; [|injection E as _ <-; exact Hacc].
    destruct (arr_get (pages_ b) f) as [page|] eqn:Epage; [|discriminate].
    destruct (arr_set _ _ _) as [pages|] eqn:Eset; [|discriminate].
    injection E as _ <-. apply arr_set_Some in Eset as [_ ->].
    apply (accounted_touch b _ f page (Frame.set_is_dirty false page));
      try assumption; reflexivity.
  - eapply accounted_FlushAllPages_loop; eauto.
  - destruct (DeletePage PAGE_SIZE page_id b) as [[res b2]|] eqn:E; [|discriminate].
    injection E1 as <-. eapply accounted_DeletePage; eauto.
  - unfold WriteData in E1.
    destruct (page_table_ b !! page_id) as [f|]; [|discriminate]. simpl in E1.
    destruct (arr_get (pages_ b) f) as [page|] eqn:Epage; [|discriminate].
    destruct (arr_set _ _ _) as [pages|] eqn:Eset; [|discriminate].
    injection E1 as <-. apply arr_set_Some in Eset as [_ ->].
    apply (accounted_touch b _ f page (Frame.set_data data page));
      try assumption; reflexivity.
Qed.

Lemma invariants_run_calls h : forall b b',
  wf b -> pins_wf b -> frames_accounted b -> run_calls PAGE_SIZE h b = Some b' ->
  wf b' /\ pins_wf b' /\ frames_accounted b'.
Proof.
  induction h as [|c h IH]; intros b b' Hwf Hp Hacc; simpl.
  - intros [= <-]. split; [exact Hwf|]. split; [exact Hp|exact Hacc].
  - destruct (run_call PAGE_SIZE c b) as [b1|] eqn:E1; [|discriminate].
    apply IH; [eapply wf_run_call|eapply pins_wf_run_call|eapply accounted_run_call]; eauto.
Qed.

Lemma reachable_invariants b :
  reachable PAGE_SIZE b -> wf b /\ pins_wf b /\ frames_accounted b.
Proof.
  intros (n & disk & h & Hn & Hrun). eapply invariants_run_calls; [| | |exact Hrun].
  - apply wf_new. exact Hn.
  - apply pins_wf_new. exact Hn.
  - apply accounted_new. exact Hn.
Qed.

(** *** The counters stay in the range of their types *)

Lemma to_page_id_t_in_range x : - 2 ^ 31 <= to_page_id_t x < 2 ^ 31.
Proof.
  unfold to_page_id_t. pose proof (Z.mod_pos_bound (x + 2 ^ 31) (2 ^ 32)). lia.
Qed.

Lemma to_page_id_t_id x : - 2 ^ 31 <= x < 2 ^ 31 -> to_page_id_t x = x.
Proof.
  intros Hx. unfold to_page_id_t. rewrite Z.mod_small by lia. lia.
Qed.

Lemma counters_wf_new pool_size disk : counters_wf (new PAGE_SIZE pool_size disk).
Proof.
  split; [|simpl; lia]. intros f page Hp. simpl in Hp.
  unfold arr_get in Hp. destruct (f <? 0); [discriminate|].
  apply lookup_replicate in Hp as [-> _]. unfold INT_MAX. simpl. lia.
Qed.

Lemma counters_wf_frame_update b b' f page' :
  counters_wf b -> 0 <= f ->
  pages_ b' = <[Z.to_nat f := page']> (pages_ b) ->
  Frame.pin_count_ page' <= INT_MAX ->
  next_page_id_ b' = next_page_id_ b \/ next_page_id_ b' = to_page_id_t (next_page_id_ b + 1) ->
  counters_wf b'.
Proof.
  intros [Hpin Hnext] Hf Hpages Hle Hn. split.
  - intros g page Hg. rewrite Hpages in Hg.
    pose proof (arr_get_Some _ _ _ Hg) as Hgr. rewrite length_insert in Hgr.
    destruct (Z.eq_dec f g) as [<-|Hne].
    + rewrite arr_get_set_eq in Hg by lia. injection Hg as <-. exact Hle.
    + rewrite arr_get_set_ne in Hg by lia. eapply Hpin; eauto.
  - destruct Hn as [->| ->]; [exact Hnext|apply to_page_id_t_in_range].
Qed.

Lemma counters_wf_FlushAllPages_loop n : forall i b b',
  counters_wf b -> FlushAllPages_loop n i b = Some b' -> counters_wf b'.
Proof.
  induction n as [|n IH]; intros i b b' Hc; simpl.
  - intros [= <-]. exact Hc.
  - destruct (arr_get (pages_ b) i) as [page|] eqn:Epage; [|discriminate].
    destruct (Frame.page_id_ page =? INVALID_PAGE_ID); simpl.
    + apply IH. exact Hc.
    + destruct (arr_set _ _ _) as [pages|] eqn:Eset; [|discriminate].
      apply arr_set_Some in Eset as [Hi ->]. apply IH.
      apply (counters_wf_frame_update b _ i (Frame.set_is_dirty false page));
        try assumption; try reflexivity; [lia| |left; reflexivity].
      simpl. destruct Hc as [Hpin _]. eapply Hpin; eauto.
Qed.

Lemma counters_wf_run_call c b b' :
  wf b -> pins_wf b -> counters_wf b -> run_call PAGE_SIZE c b = Some b' -> counters_wf b'.
Proof.
  intros Hwf Hp Hc E1. pose proof Hc as [Hpin Hnext]. destruct c; simpl in E1.
  - (* NewPage *)
    destruct (NewPage PAGE_SIZE b) as [[res b2]|] eqn:E; [|discriminate].
    injection E1 as <-. destruct res as [[id f]|].
    + destruct (NewPage_explicit _ _ _ _ Hwf Hp E)
        as (b1 & old & r & Ef & Hold & Hpin0 & Hpin1 & Hnotin & Hp1 & Hid & ->).
      pose proof (arr_get_Some _ _ _ Hold) as Hf.
      eapply (counters_wf_frame_update b _ f); [exact Hc|lia|reflexivity| |right; reflexivity].
      unfold INT_MAX. simpl. lia.
    + destruct (NewPage_None _ _ Hwf Hp E) as (-> & _). exact Hc.
  - (* FetchPage *)
    destruct (FetchPage PAGE_SIZE page_id b) as [[res b2]|] eqn:E; [|discriminate].
    injection E1 as <-. destruct (page_table_ b !! page_id) as [g|] eqn:Et.
    + destruct (FetchPage_hit_explicit b page_id g Hwf Et)
        as (page & next & Hpage & Hid & Hnext' & Hrun').
      rewrite E in Hrun'.
      destruct (Z.ltb_spec (Frame.pin_count_ page) INT_MAX) as [Hlt|_]; [|discriminate].
      injection Hrun' as -> ->.
      pose proof (arr_get_Some _ _ _ Hpage) as Hg.
      eapply (counters_wf_frame_update b _ g); [exact Hc|lia|reflexivity| |left; reflexivity].
      simpl. lia.
    + destruct res as [g|].
      * destruct (FetchPage_miss_explicit _ _ _ _ Hwf Hp Et E)
          as (b1 & old & r & Ef & Hold & Hpin0 & Hpin1 & Hnotin & Hp1 & ->).
        pose proof (arr_get_Some _ _ _ Hold) as Hg.
        eapply (counters_wf_frame_update b _ g); [exact Hc|lia|reflexivity| |left; reflexivity].
        unfold INT_MAX. simpl. lia.
      * destruct (FetchPage_miss_None _ _ _ Hwf Hp Et E) as (-> & _). exact Hc.
  - (* UnpinPage *)
    destruct (UnpinPage page_id is_dirty b) as [[res b2]|] eqn:E; [|discriminate].
    injection E1 as <-. pose proof (UnpinPage_spec b page_id is_dirty Hwf) as Hspec.
    destruct (page_table_ b !! page_id) as [g|] eqn:Et.
    + destruct Hspec as (page & Hpage & Hid & Hspec).
      pose proof (arr_get_Some _ _ _ Hpage) as Hg.
      pose proof (Hpin g page Hpage) as Hle.
      destruct (Frame.pin_count_ page =? 0).
      * rewrite E in Hspec. injection Hspec as -> ->. exact Hc.
      * rewrite E in Hspec. injection Hspec as -> ->.
        eapply (counters_wf_frame_update b _ g); [exact Hc|lia|reflexivity| |left; reflexivity].
        simpl. lia.
    + rewrite E in Hspec. injection Hspec as -> ->. exact Hc.
  - (* FlushPage *)
    destruct (FlushPage page_id b) as [[res b2]|] eqn:E; [|discriminate].
    injection E1 as <-. unfold FlushPage in E.
    destruct (page_id =? INVALID_PAGE_ID); [injection E as _ <-; exact Hc|].
    destruct (page_table_ b !! page_id) as [g|]; [|injection E as _ <-; exact Hc].
    destruct (arr_get (pages_ b) g) as [page|] eqn:Epage; [|discriminate].
    destruct (arr_set _ _ _) as [pages|] eqn:Eset; [|discriminate].
    injection E as _ <-. apply arr_set_Some in Eset as [Hg ->].
    eapply (counters_wf_frame_update b _ g); [exact Hc|lia|reflexivity| |left; reflexivity].
    simpl. eapply Hpin; eauto.
  - (* FlushAllPages *)
    eapply counters_wf_FlushAllPages_loop; eauto.
  - (* DeletePage *)
    destruct (DeletePage PAGE_SIZE page_id b) as [[res b2]|] eqn:E; [|discriminate].
    injection E1 as <-. pose proof (DeletePage_spec PAGE_SIZE b page_id Hwf) as Hspec.
    destruct (page_table_ b !! page_id) as [g|] eqn:Et.
    + destruct Hspec as (page & Hpage & Hid & Hspec).
      pose proof (arr_get_Some _ _ _ Hpage) as Hg.
      pose proof (Hpin g page Hpage) as Hle.
      destruct (Frame.pin_count_ page >? 0).
      * rewrite E in Hspec. injection Hspec as -> ->. exact Hc.
      * rewrite E in Hspec. injection Hspec as -> ->.
        eapply (counters_wf_frame_update b _ g); [exact Hc|lia|reflexivity| |left; reflexivity].
        simpl. lia.
    + rewrite E in Hspec. injection Hspec as -> ->. exact Hc.
  - (* a client writes *)
    unfold WriteData in E1.
    destruct (page_table_ b !! page_id) as [g|]; [|discriminate]. simpl in E1.
    destruct (arr_get (pages_ b) g) as [page|] eqn:Epage; [|discriminate].
    destruct (arr_set _ _ _) as [pages|] eqn:Eset; [|discriminate].
    injection E1 as <-. apply arr_set_Some in Eset as [Hg ->].
    eapply (counters_wf_frame_update b _ g); [exact Hc|lia|reflexivity| |left; reflexivity].
    simpl. eapply Hpin; eauto.
Qed.

Lemma counters_wf_run_calls h : forall b b',
  wf b -> pins_wf b -> counters_wf b -> run_calls PAGE_SIZE h b = Some b' ->
  counters_wf b'.
Proof.
  induction h as [|c h IH]; intros b b' Hwf Hp Hc; simpl.
  - intros [= <-]. exact Hc.
  - destruct (run_call PAGE_SIZE c b) as [b1|] eqn:E1; [|discriminate].
    apply IH;
      [eapply wf_run_call|eapply pins_wf_run_call|eapply counters_wf_run_call]; eauto.
Qed.

Lemma reachable_counters_wf b : reachable PAGE_SIZE b -> counters_wf b.
Proof.
  intros (n & disk & h & Hn & Hrun).
  eapply counters_wf_run_calls; [| | |exact Hrun].
  - apply wf_new. exact Hn.
  - apply pins_wf_new. exact Hn.
  - apply counters_wf_new.
Qed.

(** *** No undefined behaviour in well-formed pools *)

Lemma Clock_Pin_total r f :
  Clock.wf r -> 0 <= f < Clock.num_pages_ r -> exists r', Clock.Pin f r = Some r'.
Proof.
  intros (Hn & Hlen & _) Hf. unfold Clock.Pin, Clock.NextSlot.
  destruct (Z.eqb_spec (Clock.num_pages_ r) 0); [lia|]. simpl.
  rewrite arr_set_in_range by lia. simpl. eauto.
Qed.

Lemma UpdatePage_total b f id :
  wf b -> 0 <= f < pool_size_ b -> exists b', UpdatePage PAGE_SIZE f id f b = Some b'.
Proof.
  intros (Hn & Hlen & _) Hf. unfold UpdatePage.
  destruct (arr_get_in_range (pages_ b) f) as [page ->]; [lia|]. simpl.
  rewrite arr_set_in_range by lia. simpl. eauto.
Qed.

Lemma NewPage_total b : wf b -> exists res b', NewPage PAGE_SIZE b = Some (res, b').
Proof.
  intros Hwf. destruct (FindVictimPage_total b Hwf) as (res & b1 & Ef).
  destruct (wf_FindVictimPage _ _ _ Hwf Ef) as [Hwf1 Hf].
  unfold NewPage. rewrite Ef. simpl. destruct res as [f|]; [|eauto].
  unfold AllocatePage.
  assert (Hwf2 : wf (with_next_page_id (to_page_id_t (next_page_id_ b1 + 1)) b1))
    by exact Hwf1.
  destruct (UpdatePage_total _ f (next_page_id_ b1) Hwf2 Hf) as [b3 Eu].
  rewrite Eu. simpl.
  destruct (wf_UpdatePage PAGE_SIZE _ _ _ _ Hwf2 Eu) as (Hwf3 & _ & Hsz & Hrep & _).
  pose proof Hwf3 as (_ & Hlen3 & Hr3 & Hrn3 & _). simpl in Hsz.
  destruct (Clock_Pin_total (replacer_ b3) f Hr3) as [r Ep]; [lia|].
  rewrite Ep. simpl.
  destruct (arr_get_in_range (pages_ b3) f) as [page ->]; [lia|]. simpl.
  rewrite arr_set_in_range by lia. simpl. eauto.
Qed.

Lemma FetchPage_miss_total b id :
  wf b -> pins_wf b -> page_table_ b !! id = None ->
  exists res b', FetchPage PAGE_SIZE id b = Some (res, b').
Proof.
  intros Hwf Hp Et.
  destruct (FindVictimPage_total b Hwf) as (res & b1 & Ef).
  destruct (wf_FindVictimPage _ _ _ Hwf Ef) as [Hwf1 Hf].
  destruct (pins_wf_FindVictimPage _ _ _ Hwf Hp Ef) as (_ & Hpages & _ & _ & _ & _ & Hres).
  unfold FetchPage. rewrite Et, Ef. simpl. destruct res as [f|]; [|eauto].
  destruct Hres as (_ & old & Hold & Hpin0).
  destruct (UpdatePage_total b1 f id Hwf1 Hf) as [b2 Eu]. rewrite Eu. simpl.
  destruct (wf_UpdatePage PAGE_SIZE _ _ _ _ Hwf1 Eu) as (Hwf2 & _ & Hsz & Hrep & _).
  pose proof Hwf2 as (_ & Hlen2 & Hr2 & Hrn2 & _).
  apply UpdatePage_explicit in Eu as (old' & Hold' & ->). simpl in *.
  rewrite Hpages, Hold in Hold'. injection Hold' as <-.
  pose proof (arr_get_Some _ _ _ Hold) as Hfr.
  rewrite Hpages. rewrite arr_get_set_eq by exact Hfr. simpl.
  destruct (Clock_Pin_total (replacer_ b1) f Hr2) as [r Ep]; [lia|].
  rewrite Ep. simpl. rewrite Hpin0. change (int_incr 0) with (Some 1). simpl.
  rewrite arr_set_in_range by (rewrite length_insert; lia). simpl. eauto.
Qed.

Lemma no_victim_all_pinned b :
  wf b -> pins_wf b -> frames_accounted b -> free_list_ b = [] ->
  (forall g, 0 <= g < pool_size_ b ->
     arr_get (Clock.ref_flag_ (replacer_ b)) g = Some false) ->
  all_pinned b.
Proof.
  intros (_ & Hlen & _) (Hpin & _) Hacc Hfl Hbits f page Hpage.
  pose proof (Hpin f page Hpage) as Hge.
  destruct (Z.eq_dec (Frame.pin_count_ page) 0) as [H0|Hne]; [|lia].
  pose proof (arr_get_Some _ _ _ Hpage) as Hf.
  destruct (Hacc f page Hpage H0) as [Hin|Hbit].
  - rewrite Hfl in Hin. apply not_elem_of_nil in Hin. contradiction.
  - rewrite Hbits in Hbit by lia. discriminate.
Qed.

(** *** A pinned page stays where it is *)

Lemma same_frame_same_id b id id' f :
  wf b -> page_table_ b !! id = Some f -> page_table_ b !! id' = Some f -> id = id'.
Proof.
  intros (_ & _ & _ & _ & _ & Htab) H1 H2.
  destruct (Htab id f H1) as (_ & page & Hpage & Hid).
  destruct (Htab id' f H2) as (_ & page' & Hpage' & Hid').
  congruence.
Qed.

Lemma install_table_survives b f old id k g :
  pins_wf b -> arr_get (pages_ b) f = Some old -> Frame.pin_count_ old = 0 ->
  g <> f -> page_table_ b !! k = Some g ->
  (if id =? INVALID_PAGE_ID
   then delete (Frame.page_id_ old) (page_table_ b)
   else emplace id f (delete (Frame.page_id_ old) (page_table_ b))) !! k = Some g.
Proof.
  intros (_ & _ & _ & _ & Hinv & Hmap) Hold Hpin0 Hne Hk.
  assert (Hk' : delete (Frame.page_id_ old) (page_table_ b) !! k = Some g).
  { rewrite lookup_delete_ne; [exact Hk|]. intros Heq.
    destruct (Z.eq_dec (Frame.page_id_ old) INVALID_PAGE_ID) as [Hi|Hi].
    - congruence.
    - pose proof (Hmap f old Hold Hpin0 Hi) as Hm. congruence. }
  destruct (id =? INVALID_PAGE_ID); [exact Hk'|].
  unfold emplace. destruct (delete _ _ !! id) eqn:Eid; [exact Hk'|].
  rewrite lookup_insert_ne; [exact Hk'|]. intros <-. congruence.
Qed.

Lemma holds_pinned_update b b' id f data g page page' :
  holds_pinned b id f data -> arr_get (pages_ b) g = Some page ->
  pages_ b' = <[Z.to_nat g := page']> (pages_ b) ->
  (g = f -> Frame.data_ page' = Frame.data_ page /\ 0 < Frame.pin_count_ page') ->
  page_table_ b' !! id = Some f ->
  holds_pinned b' id f data.
Proof.
  intros (Ht & pf & Hpf & Hdata & Hpos) Hpage Hpages Hsame Ht'.
  split; [exact Ht'|]. rewrite Hpages.
  pose proof (arr_get_Some _ _ _ Hpage) as Hg.
  pose proof (arr_get_Some _ _ _ Hpf) as Hf.
  rewrite arr_get_insert by lia. destruct (Z.eqb_spec f g) as [->|Hne].
  - destruct Hsame as [Hd Hp]; [reflexivity|]. exists page'.
    split; [reflexivity|]. split; [|exact Hp]. congruence.
  - exists pf. split; [exact Hpf|]. split; assumption.
Qed.

Lemma holds_pinned_FlushAllPages_loop n id f data : forall i b b',
  holds_pinned b id f data -> FlushAllPages_loop n i b = Some b' ->
  holds_pinned b' id f data.
Proof.
  induction n as [|n IH]; intros i b b' Hh; simpl.
  - intros [= <-]. exact Hh.
  - destruct (arr_get (pages_ b) i) as [page|] eqn:Epage; [|discriminate].
    destruct (negb _); simpl.
    + destruct (arr_set _ _ _) as [pages|] eqn:Eset; [|discriminate].
      apply arr_set_Some in Eset as [_ ->]. apply IH.
      apply (holds_pinned_update b _ id f data i page (Frame.set_is_dirty false page));
        try assumption; try reflexivity.
      * intros ->. destruct Hh as (_ & pf & Hpf & _ & Hpos).
        split; [reflexivity|]. simpl. congruence.
      * destruct Hh as (Ht & _). exact Ht.
    + apply IH. exact Hh.
Qed.

Lemma holds_pinned_run_call c b b' id f data :
  wf b -> pins_wf b -> holds_pinned b id f data ->
  releases_or_writes id [c] = false ->
  run_call PAGE_SIZE c b = Some b' -> holds_pinned b' id f data.
Proof.
  intros Hwf Hp Hh Hc E1.
  pose proof Hh as (Ht & pf & Hpf & Hdata & Hpos).
  destruct c; simpl in E1, Hc.
  - (* NewPage *)
    destruct (NewPage PAGE_SIZE b) as [[res b2]|] eqn:E; [|discriminate].
    injection E1 as <-. destruct res as [[id' g]|].
    + destruct (NewPage_explicit _ _ _ _ Hwf Hp E)
        as (b1 & old & r & Ef & Hold & Hpin0 & Hpin & Hnotin & Hp1 & Hid & ->).
      assert (Hne : f <> g) by (intros ->; rewrite Hold in Hpf; injection Hpf as <-; lia).
      apply (holds_pinned_update b _ id f data g old
               {| Frame.data_ := zero_data PAGE_SIZE; Frame.page_id_ := id';
                  Frame.pin_count_ := 1; Frame.is_dirty_ := false |});
        try assumption; try reflexivity.
      * intros ->. contradiction.
      * simpl. apply (install_table_survives b g old id' id f Hp Hold Hpin0 Hne Ht).
    + destruct (NewPage_None _ _ Hwf Hp E) as (-> & _). exact Hh.
  - (* FetchPage *)
    destruct (FetchPage PAGE_SIZE page_id b) as [[res b2]|] eqn:E; [|discriminate].
    injection E1 as <-. destruct (page_table_ b !! page_id) as [g|] eqn:Et'.
    + destruct (FetchPage_hit_explicit b page_id g Hwf Et')
        as (page & next & Hpage & Hid & Hnext & Hrun').
      rewrite E in Hrun'.
      destruct (Frame.pin_count_ page <? INT_MAX); [|discriminate].
      injection Hrun' as -> ->.
      apply (holds_pinned_update b _ id f data g page
               (Frame.set_pin_count (Frame.pin_count_ page + 1) page));
        try assumption; try reflexivity.
      intros ->. split; [reflexivity|]. simpl.
      rewrite Hpage in Hpf. injection Hpf as <-. lia.
    + destruct res as [g|].
      * destruct (FetchPage_miss_explicit _ _ _ _ Hwf Hp Et' E)
          as (b1 & old & r & Ef & Hold & Hpin0 & Hpin & Hnotin & Hp1 & ->).
        assert (Hne : f <> g) by (intros ->; rewrite Hold in Hpf; injection Hpf as <-; lia).
        eapply (holds_pinned_update b _ id f data g old); try eassumption;
          try reflexivity.
        -- intros ->. contradiction.
        -- simpl. apply (install_table_survives b g old page_id id f Hp Hold Hpin0 Hne Ht).
      * destruct (FetchPage_miss_None _ _ _ Hwf Hp Et' E) as (-> & _). exact Hh.
  - (* UnpinPage *)
    rewrite orb_false_r in Hc. apply Z.eqb_neq in Hc.
    destruct (UnpinPage page_id is_dirty b) as [[res b2]|] eqn:E; [|discriminate].
    injection E1 as <-. pose proof (UnpinPage_spec b page_id is_dirty Hwf) as Hspec.
    destruct (page_table_ b !! page_id) as [g|] eqn:Et'.
    + destruct Hspec as (page & Hpage & Hid & Hspec).
      assert (Hne : f <> g).
      { intros ->. apply Hc. symmetry. eapply same_frame_same_id; eauto. }
      destruct (Frame.pin_count_ page =? 0).
      * rewrite E in Hspec. injection Hspec as -> ->. exact Hh.
      * rewrite E in Hspec. injection Hspec as -> ->.
        eapply (holds_pinned_update b _ id f data g page); try eassumption;
          try reflexivity.
        intros ->. contradiction.
    + rewrite E in Hspec. injection Hspec as -> ->. exact Hh.
  - (* FlushPage *)
    destruct (FlushPage page_id b) as [[res b2]|] eqn:E; [|discriminate].
    injection E1 as <-. unfold FlushPage in E.
    destruct (page_id =? INVALID_PAGE_ID); [injection E as _ <-; exact Hh|].
    destruct (page_table_ b !! page_id) as [g|]; [|injection E as _ <-; exact Hh].
    destruct (arr_get (pages_ b) g) as [page|] eqn:Epage; [|discriminate].
    destruct (arr_set _ _ _) as [pages|] eqn:Eset; [|discriminate].
    injection E as _ <-. apply arr_set_Some in Eset as [_ ->].
    apply (holds_pinned_update b _ id f data g page (Frame.set_is_dirty false page));
      try assumption; try reflexivity.
    intros ->. split; [reflexivity|]. simpl. congruence.
  - (* FlushAllPages *)
    eapply holds_pinned_FlushAllPages_loop; eauto.
  - (* DeletePage *)
    destruct (DeletePage PAGE_SIZE page_id b) as [[res b2]|] eqn:E; [|discriminate].
    injection E1 as <-. pose proof (DeletePage_spec PAGE_SIZE b page_id Hwf) as Hspec.
    destruct (page_table_ b !! page_id) as [g|] eqn:Et'.
    + destruct Hspec as (page & Hpage & Hid & Hspec).
      destruct (Z.gtb_spec (Frame.pin_count_ page) 0) as [Hgt|Hle].
      * rewrite E in Hspec. injection Hspec as -> ->. exact Hh.
      * rewrite E in Hspec. injection Hspec as -> ->.
        assert (Hne : f <> g) by (intros ->; rewrite Hpage in Hpf; injection Hpf as <-; lia).
        eapply (holds_pinned_update b _ id f data g page); try eassumption;
          try reflexivity.
        -- intros ->. contradiction.
        -- simpl. rewrite lookup_delete_ne; [exact Ht|]. intros Heq.
           rewrite Heq, Ht in Et'. injection Et' as Hfg. contradiction.
    + rewrite E in Hspec. injection Hspec as -> ->. exact Hh.
  - (* a client writes *)
    rewrite orb_false_r in Hc. apply Z.eqb_neq in Hc.
    unfold WriteData in E1.
    destruct (page_table_ b !! page_id) as [g|] eqn:Et'; [|discriminate]. simpl in E1.
    destruct (arr_get (pages_ b) g) as [page|] eqn:Epage; [|discriminate].
    destruct (arr_set _ _ _) as [pages|] eqn:Eset; [|discriminate].
    injection E1 as <-. apply arr_set_Some in Eset as [_ ->].
    assert (Hne : f <> g).
    { intros ->. apply Hc. symmetry. eapply same_frame_same_id; eauto. }
    eapply (holds_pinned_update b _ id f data g page); try eassumption;
      try reflexivity.
    intros ->. contradiction.
Qed.

Lemma holds_pinned_run_calls h id f data : forall b b',
  wf b -> pins_wf b -> holds_pinned b id f data ->
  releases_or_writes id h = false ->
  run_calls PAGE_SIZE h b = Some b' -> holds_pinned b' id f data.
Proof.
  induction h as [|c h IH]; intros b b' Hwf Hp Hh Hc; simpl.
  - intros [= <-]. exact Hh.
  - destruct (run_call PAGE_SIZE c b) as [b1|] eqn:E1; [|discriminate].
    unfold releases_or_writes in Hc. simpl in Hc. apply orb_false_elim in Hc as [Hc1 Hc2].
    apply IH.
    + eapply wf_run_call; eauto.
    + eapply pins_wf_run_call; eauto.
    + eapply holds_pinned_run_call; eauto.
      unfold releases_or_writes. simpl. rewrite Hc1. reflexivity.
    + exact Hc2.
Qed.

(** *** [FlushAllPages] as a map over the frames *)

Lemma FlushAllPages_loop_spec n : forall k b,
  (k + n)%nat = length (pages_ b) ->
  FlushAllPages_loop n (Z.of_nat k) b
  = Some {| pool_size_ := pool_size_ b;
            pages_ := take k (pages_ b) ++ map flushed (drop k (pages_ b));
            replacer_ := replacer_ b;
            free_list_ := free_list_ b;
            page_table_ := page_table_ b;
            next_page_id_ := next_page_id_ b;
            disk_manager_ := foldl write_back (disk_manager_ b) (drop k (pages_ b)) |}.
Proof.
  induction n as [|n IH]; intros k b Hk; simpl.
  - rewrite drop_ge by lia. rewrite take_ge by lia. simpl. rewrite app_nil_r.
    f_equal. apply pool_eta.
  - rewrite arr_get_of_nat.
    destruct (pages_ b !! k) as [page|] eqn:Epage;
      [|apply lookup_ge_None in Epage; lia].
    simpl. rewrite (drop_S _ _ _ Epage). simpl.
    replace (Z.of_nat k + 1) with (Z.of_nat (S k)) by lia.
    unfold flushed at 1, write_back at 2.
    destruct (Frame.page_id_ page =? INVALID_PAGE_ID) eqn:Eid; simpl.
    + rewrite IH by lia. f_equal. f_equal.
      rewrite (take_S_r _ _ _ Epage). rewrite <- app_assoc. reflexivity.
    + rewrite arr_set_in_range by lia. simpl. rewrite Nat2Z.id.
      rewrite IH by (simpl; rewrite length_insert; lia). simpl.
      rewrite drop_insert_lt by lia.
      rewrite (take_S_r (<[k := Frame.set_is_dirty false page]> (pages_ b)) k
                 (Frame.set_is_dirty false page))
        by (apply list_lookup_insert_eq; lia).
      rewrite take_insert_ge by lia. rewrite <- app_assoc. reflexivity.
Qed.

(** *** [FetchPage] of a resident page, then [UnpinPage] *)

Lemma FetchPage_then_UnpinPage b id f page :
  wf b -> pins_wf b -> frames_accounted b -> page_table_ b !! id = Some f ->
  arr_get (pages_ b) f = Some page -> Frame.pin_count_ page < INT_MAX ->
  exists next b1,
    Clock.NextSlot (replacer_ b) f = Some next /\
    FetchPage PAGE_SIZE id b = Some (Some f, b1) /\
    UnpinPage id false b1
    = Some (true,
        with_replacer
          {| Clock.num_pages_ := Clock.num_pages_ (replacer_ b);
             Clock.pointer_ := next;
             Clock.ref_flag_ := Clock.ref_flag_ (replacer_ b) |} b).
Proof.
  intros Hwf Hp Hacc Et Hpage Hlt.
  destruct (FetchPage_hit_explicit b id f Hwf Et)
    as (page' & next & Hpage' & Hid & Hnext & Hrun).
  rewrite Hpage in Hpage'. injection Hpage' as <-.
  apply Z.ltb_lt in Hlt. rewrite Hlt in Hrun.
  eexists next, _. split; [exact Hnext|]. split; [exact Hrun|].
  pose proof Hwf as (Hn & Hlen & (Hrn' & Hrlen & Hrp) & Hrn & Hfree & Htab).
  pose proof Hp as (Hpin & Hbit & _).
  pose proof (Hpin f page Hpage) as Hge.
  pose proof (arr_get_Some _ _ _ Hpage) as Hf.
  pose proof (mapped_not_free b id f Hwf Hp Et) as Hnotfree.
  unfold UnpinPage. simpl. rewrite Et.
  rewrite arr_get_set_eq by exact Hf. simpl.
  destruct (Z.eqb_spec (Frame.pin_count_ page + 1) 0) as [E|_]; [lia|].
  replace (Frame.pin_count_ page + 1 - 1) with (Frame.pin_count_ page) by lia.
  assert (Hback : <[Z.to_nat f := Frame.set_pin_count (Frame.pin_count_ page)
                                    (Frame.set_pin_count (Frame.pin_count_ page + 1) page)]>
                    (<[Z.to_nat f := Frame.set_pin_count (Frame.pin_count_ page + 1) page]>
                       (pages_ b)) = pages_ b).
  { rewrite list_insert_insert_eq. apply list_insert_id.
    unfold arr_get in Hpage. destruct (f <? 0); [discriminate|].
    rewrite Hpage. destruct page; reflexivity. }
  destruct (Z.eqb_spec (Frame.pin_count_ page) 0) as [H0|Hne].
  - unfold Clock.Unpin. simpl.
    rewrite arr_set_in_range by (rewrite length_insert; lia). simpl.
    rewrite arr_set_in_range by (rewrite length_insert; lia). simpl.
    rewrite Hback. rewrite list_insert_insert_eq.
    destruct (Hacc f page Hpage H0) as [Hin|Hset]; [contradiction|].
    rewrite list_insert_id; [reflexivity|].
    unfold arr_get in Hset. destruct (f <? 0); [discriminate|exact Hset].
  - simpl. rewrite arr_set_in_range by (rewrite length_insert; lia). simpl.
    rewrite Hback.
    assert (Hclr : arr_get (Clock.ref_flag_ (replacer_ b)) f = Some false)
      by (apply (Hbit f page Hpage); lia).
    rewrite list_insert_id; [reflexivity|].
    unfold arr_get in Hclr. destruct (f <? 0); [discriminate|exact Hclr].
Qed.

(** X5: every reachable pool keeps the pin invariant: pin counts are not
    negative, a pinned frame is no candidate of the replacer, the frames
    of the free list are distinct, hold no page, are unpinned and clean,
    the invalid page id is never in the page table, an unpinned frame that
    holds a page is the frame the page table gives for it; every unpinned
    frame is in the free list or a candidate of the replacer; and the
    counters are in the range of their 32-bit types: no pin count is above
    [INT_MAX] (a [FetchPage] that would go past it has no defined result,
    so no pool is reached through it) and [next_page_id_], which wraps
    around, is a [page_id_t]. *)
Theorem reachable_pool_pin_invariant b :
  reachable PAGE_SIZE b -> pins_wf b /\ frames_accounted b /\ counters_wf b.
Proof.
  intros Hr. destruct (reachable_invariants b Hr) as (_ & Hp & Hacc).
  split; [exact Hp|]. split; [exact Hacc|]. apply reachable_counters_wf. exact Hr.
Qed.

(** X6: on a reachable pool [NewPage] has a defined result.  It returns
    [nullptr] and changes nothing exactly when every frame is pinned.
    Otherwise the page id is the old [next_page_id_], which goes up by one
    as a 32-bit [page_id_t]: after [INT_MAX] it is [- 2 ^ 31];
    the frame was unpinned and now holds the zeroed, clean page pinned
    once; no other frame changes; the old content of the frame is written
    to disk if and only if it was dirty; the page table loses the old page
    of the frame, gains the new id if it was not mapped, and is otherwise
    unchanged. *)
Theorem NewPage_contract b :
  reachable PAGE_SIZE b ->
  exists res b', NewPage PAGE_SIZE b = Some (res, b') /\
    match res with
    | None => b' = b /\ all_pinned b
    | Some (id, f) =>
        id = next_page_id_ b /\
        next_page_id_ b' = (if id <? INT_MAX then id + 1 else - 2 ^ 31) /\
        exists old,
          arr_get (pages_ b) f = Some old /\ Frame.pin_count_ old = 0 /\
          pages_ b' = <[Z.to_nat f := {| Frame.data_ := zero_data PAGE_SIZE;
                                        Frame.page_id_ := id;
                                        Frame.pin_count_ := 1;
                                        Frame.is_dirty_ := false |}]> (pages_ b) /\
          disk_manager_ b'
          = (if Frame.is_dirty_ old
             then WritePage (Frame.page_id_ old) (Frame.data_ old) (disk_manager_ b)
             else disk_manager_ b) /\
          (id <> INVALID_PAGE_ID -> page_table_ b !! id = None ->
           page_table_ b' !! id = Some f) /\
          (forall k, k <> id -> k <> Frame.page_id_ old ->
             page_table_ b' !! k = page_table_ b !! k) /\
          (Frame.page_id_ old <> id -> page_table_ b' !! Frame.page_id_ old = None)
    end.
Proof.
  intros Hr. destruct (reachable_invariants b Hr) as (Hwf & Hp & Hacc).
  destruct (NewPage_total b Hwf) as (res & b' & Hrun). exists res, b'.
  split; [exact Hrun|]. destruct res as [[id f]|].
  - destruct (NewPage_explicit _ _ _ _ Hwf Hp Hrun)
      as (b1 & old & r & Ef & Hold & Hpin0 & Hpin & Hnotin & Hp1 & Hid & ->).
    simpl. split; [exact Hid|]. split.
    { destruct (reachable_counters_wf b Hr) as [_ Hnext]. rewrite Hid.
      unfold INT_MAX. destruct (Z.ltb_spec (next_page_id_ b) (2 ^ 31 - 1)) as [Hlt|Hge].
      - apply to_page_id_t_id. lia.
      - replace (next_page_id_ b) with (2 ^ 31 - 1) by lia. reflexivity. }
    exists old. split; [exact Hold|]. split; [exact Hpin0|].
    split; [reflexivity|]. split; [reflexivity|]. split; [|split].
    + intros Hvalid Hnone. apply Z.eqb_neq in Hvalid. rewrite Hvalid.
      unfold emplace.
      assert (Hdel : delete (Frame.page_id_ old) (page_table_ b) !! id = None)
        by (apply lookup_delete_None; right; exact Hnone).
      rewrite Hdel. apply lookup_insert_eq.
    + intros k Hk Hko.
      assert (Hdel : delete (Frame.page_id_ old) (page_table_ b) !! k = page_table_ b !! k)
        by (apply lookup_delete_ne; congruence).
      destruct (id =? INVALID_PAGE_ID); [exact Hdel|].
      unfold emplace. destruct (delete _ _ !! id); [exact Hdel|].
      rewrite lookup_insert_ne by congruence. exact Hdel.
    + intros Hne.
      assert (Hdel : delete (Frame.page_id_ old) (page_table_ b) !! Frame.page_id_ old = None)
        by apply lookup_delete_eq.
      destruct (id =? INVALID_PAGE_ID); [exact Hdel|].
      unfold emplace. destruct (delete _ _ !! id); [exact Hdel|].
      rewrite lookup_insert_ne by congruence. exact Hdel.
  - destruct (NewPage_None _ _ Hwf Hp Hrun) as (-> & Hfl & Hbits).
    split; [reflexivity|]. apply no_victim_all_pinned; assumption.
Qed.

(** X7: [FetchPage] on a reachable pool.  A resident page has a pin
    count from 0 to [INT_MAX].  Below [INT_MAX] the call returns the
    frame of the page with the pin count one higher and changes nothing
    else but the replacer; at [INT_MAX] the increment of the 32-bit count
    overflows and the call has no defined result.  For a page that is not
    resident the call has a defined result: it returns [nullptr] and
    changes nothing exactly when every frame is pinned; otherwise it
    takes an unpinned frame, writes the old content to disk if and only
    if it was dirty, and the frame holds what the disk has for the page,
    clean and pinned once. *)
Theorem FetchPage_contract b id :
  reachable PAGE_SIZE b ->
  match page_table_ b !! id with
  | Some f =>
      exists page,
        arr_get (pages_ b) f = Some page /\ Frame.page_id_ page = id /\
        0 <= Frame.pin_count_ page <= INT_MAX /\
        if Frame.pin_count_ page <? INT_MAX then
          exists b', FetchPage PAGE_SIZE id b = Some (Some f, b') /\
            pages_ b' = <[Z.to_nat f := Frame.set_pin_count (Frame.pin_count_ page + 1) page]>
                          (pages_ b) /\
            page_table_ b' = page_table_ b /\ free_list_ b' = free_list_ b /\
            disk_manager_ b' = disk_manager_ b /\ next_page_id_ b' = next_page_id_ b
        else FetchPage PAGE_SIZE id b = None
  | None =>
      exists res b', FetchPage PAGE_SIZE id b = Some (res, b') /\
        match res with
        | None => b' = b /\ all_pinned b
        | Some f =>
            exists old,
              arr_get (pages_ b) f = Some old /\ Frame.pin_count_ old = 0 /\
              disk_manager_ b'
              = (if Frame.is_dirty_ old
                 then WritePage (Frame.page_id_ old) (Frame.data_ old) (disk_manager_ b)
                 else disk_manager_ b) /\
              pages_ b' = <[Z.to_nat f :=
                              {| Frame.data_ := ReadPage PAGE_SIZE id (disk_manager_ b');
                                 Frame.page_id_ := id;
                                 Frame.pin_count_ := 1;
                                 Frame.is_dirty_ := false |}]> (pages_ b) /\
              next_page_id_ b' = next_page_id_ b /\
              (id <> INVALID_PAGE_ID -> page_table_ b' !! id = Some f)
        end
  end.
Proof.
  intros Hr. destruct (reachable_invariants b Hr) as (Hwf & Hp & Hacc).
  destruct (page_table_ b !! id) as [f|] eqn:Et.
  - destruct (FetchPage_hit_explicit b id f Hwf Et)
      as (page & next & Hpage & Hid & Hnext & Hrun).
    exists page. split; [exact Hpage|]. split; [exact Hid|]. split.
    { destruct Hp as (Hpin & _). destruct (reachable_counters_wf b Hr) as [Hmax _].
      split; [eapply Hpin|eapply Hmax]; eauto. }
    destruct (Frame.pin_count_ page <? INT_MAX); [|exact Hrun].
    eexists. split; [exact Hrun|]. simpl.
    split; [reflexivity|]. split; [reflexivity|]. split; [reflexivity|].
    split; reflexivity.
  - destruct (FetchPage_miss_total b id Hwf Hp Et) as (res & b' & Hrun). exists res, b'.
    split; [exact Hrun|]. destruct res as [f|].
    + destruct (FetchPage_miss_explicit _ _ _ _ Hwf Hp Et Hrun)
        as (b1 & old & r & Ef & Hold & Hpin0 & Hpin & Hnotin & Hp1 & ->).
      exists old. simpl. split; [exact Hold|]. split; [exact Hpin0|].
      split; [reflexivity|]. split; [reflexivity|]. split; [reflexivity|].
      intros Hvalid. apply Z.eqb_neq in Hvalid. rewrite Hvalid.
      unfold emplace.
      assert (Hdel : delete (Frame.page_id_ old) (page_table_ b) !! id = None)
        by (apply lookup_delete_None; right; exact Et).
      rewrite Hdel. apply lookup_insert_eq.
    + destruct (FetchPage_miss_None _ _ _ Hwf Hp Et Hrun) as (-> & Hfl & Hbits).
      split; [reflexivity|]. apply no_victim_all_pinned; assumption.
Qed.

(** X8: a pinned page is never evicted.  If page [id] is resident in
    frame [f] and pinned, then after any calls on the pool among which
    there is no [UnpinPage(id)] and no write into the page by a client,
    it is still in frame [f], pinned, with the same bytes.  The calls
    are those with a defined result: a [FetchPage] that would take a pin
    count past [INT_MAX] has none. *)
Theorem pinned_page_stays_resident b id f data h b' :
  reachable PAGE_SIZE b -> holds_pinned b id f data ->
  releases_or_writes id h = false ->
  run_calls PAGE_SIZE h b = Some b' ->
  holds_pinned b' id f data.
Proof.
  intros Hr Hh Hc Hrun. destruct (reachable_invariants b Hr) as (Hwf & Hp & _).
  eapply holds_pinned_run_calls; eauto.
Qed.

(** X9: on a reachable pool, [FetchPage] of a resident page whose pin
    count is below [INT_MAX], followed by [UnpinPage(id, false)],
    succeeds and gives back the pool as it was, but for the hand of the
    replacer, which is now behind the frame of the page. *)
Theorem FetchPage_UnpinPage_round_trip b id f page :
  reachable PAGE_SIZE b -> page_table_ b !! id = Some f ->
  arr_get (pages_ b) f = Some page -> Frame.pin_count_ page < INT_MAX ->
  exists next b1,
    Clock.NextSlot (replacer_ b) f = Some next /\
    FetchPage PAGE_SIZE id b = Some (Some f, b1) /\
    UnpinPage id false b1
    = Some (true,
        with_replacer
          {| Clock.num_pages_ := Clock.num_pages_ (replacer_ b);
             Clock.pointer_ := next;
             Clock.ref_flag_ := Clock.ref_flag_ (replacer_ b) |} b).
Proof.
  intros Hr Et Hpage Hlt. destruct (reachable_invariants b Hr) as (Hwf & Hp & Hacc).
  apply (FetchPage_then_UnpinPage b id f page); assumption.
Qed.

(** X10: on a reachable pool [FlushAllPages] has a defined result: every
    frame that holds a page is written to disk, in the order of the
    frames, and is clean afterwards; frames that hold no page are not
    written; nothing else changes. *)
Theorem FlushAllPages_flushes_every_frame b :
  reachable PAGE_SIZE b ->
  FlushAllPages b
  = Some {| pool_size_ := pool_size_ b;
            pages_ := map flushed (pages_ b);
            replacer_ := replacer_ b;
            free_list_ := free_list_ b;
            page_table_ := page_table_ b;
            next_page_id_ := next_page_id_ b;
            disk_manager_ := foldl write_back (disk_manager_ b) (pages_ b) |}.
Proof.
  intros Hr. destruct (reachable_invariants b Hr) as ((Hn & Hlen & _) & _ & _).
  unfold FlushAllPages. apply (FlushAllPages_loop_spec _ 0%nat b). lia.
Qed.

(** X11: [UpdatePage] enters the new page with [emplace], which leaves an
    existing entry alone.  So if the id that [NewPage] allocates is
    already resident in a pinned frame [g] (it was fetched before it was
    allocated), the new page goes to another frame [f], pinned once,
    while the page table still gives [g] for the id. *)
Theorem NewPage_keeps_older_mapping b g pinned id f b' :
  reachable PAGE_SIZE b ->
  page_table_ b !! next_page_id_ b = Some g ->
  arr_get (pages_ b) g = Some pinned -> 0 < Frame.pin_count_ pinned ->
  NewPage PAGE_SIZE b = Some (Some (id, f), b') ->
  id = next_page_id_ b /\ f <> g /\ page_table_ b' !! id = Some g /\
  arr_get (pages_ b') g = Some pinned /\
  arr_get (pages_ b') f
  = Some {| Frame.data_ := zero_data PAGE_SIZE; Frame.page_id_ := id;
            Frame.pin_count_ := 1; Frame.is_dirty_ := false |}.
Proof.
  intros Hr Et Hg Hpos Hrun. destruct (reachable_invariants b Hr) as (Hwf & Hp & _).
  destruct (NewPage_explicit _ _ _ _ Hwf Hp Hrun)
    as (b1 & old & r & Ef & Hold & Hpin0 & Hpin & Hnotin & Hp1 & Hid & ->).
  assert (Hne : g <> f) by (intros ->; rewrite Hold in Hg; injection Hg as <-; lia).
  pose proof (arr_get_Some _ _ _ Hold) as Hf.
  pose proof (arr_get_Some _ _ _ Hg) as Hgr.
  simpl. split; [exact Hid|]. split; [congruence|]. split; [|split].
  - rewrite <- Hid in Et.
    apply (install_table_survives b f old id id g Hp Hold Hpin0 Hne Et).
  - rewrite arr_get_set_ne by lia. exact Hg.
  - apply arr_get_set_eq. exact Hf.
Qed.

End BPMPins.

Lemma reachable_pool_pin_invariant_witness :
  BPM.reachable 4 pool_dirty /\
  BPM.pins_wf pool_dirty /\ BPM.frames_accounted pool_dirty /\ BPM.counters_wf pool_dirty.
Proof.
  assert (Hr : BPM.reachable 4 pool_dirty).
  { exists 2, [], history_dirty. split; [lia|vm_compute; reflexivity]. }
  split; [exact Hr|]. exact (reachable_pool_pin_invariant 4 pool_dirty Hr).
Defined.

Lemma NewPage_contract_witness :
  BPM.reachable 4 pool_dirty /\
  exists res b', BPM.NewPage 4 pool_dirty = Some (res, b') /\
    match res with
    | None => b' = pool_dirty /\ BPM.all_pinned pool_dirty
    | Some (id, f) =>
        id = BPM.next_page_id_ pool_dirty /\
        BPM.next_page_id_ b' = (if id <? INT_MAX then id + 1 else - 2 ^ 31) /\
        exists old,
          arr_get (BPM.pages_ pool_dirty) f = Some old /\ Frame.pin_count_ old = 0 /\
          BPM.pages_ b' = <[Z.to_nat f := {| Frame.data_ := zero_data 4;
                                            Frame.page_id_ := id;
                                            Frame.pin_count_ := 1;
                                            Frame.is_dirty_ := false |}]>
                            (BPM.pages_ pool_dirty) /\
          BPM.disk_manager_ b'
          = (if Frame.is_dirty_ old
             then WritePage (Frame.page_id_ old) (Frame.data_ old)
                    (BPM.disk_manager_ pool_dirty)
             else BPM.disk_manager_ pool_dirty) /\
          (id <> INVALID_PAGE_ID -> BPM.page_table_ pool_dirty !! id = None ->
           BPM.page_table_ b' !! id = Some f) /\
          (forall k, k <> id -> k <> Frame.page_id_ old ->
             BPM.page_table_ b' !! k = BPM.page_table_ pool_dirty !! k) /\
          (Frame.page_id_ old <> id -> BPM.page_table_ b' !! Frame.page_id_ old = None)
    end.
Proof.
  assert (Hr : BPM.reachable 4 pool_dirty).
  { exists 2, [], history_dirty. split; [lia|vm_compute; reflexivity]. }
  split; [exact Hr|]. exact (NewPage_contract 4 pool_dirty Hr).
Defined.

Lemma FetchPage_contract_witness :
  BPM.reachable 4 pool_churned /\
  match BPM.page_table_ pool_churned !! 7 with
  | Some f =>
      exists page,
        arr_get (BPM.pages_ pool_churned) f = Some page /\ Frame.page_id_ page = 7 /\
        0 <= Frame.pin_count_ page <= INT_MAX /\
        if Frame.pin_count_ page <? INT_MAX then
          exists b', BPM.FetchPage 4 7 pool_churned = Some (Some f, b') /\
            BPM.pages_ b'
            = <[Z.to_nat f := Frame.set_pin_count (Frame.pin_count_ page + 1) page]>
                (BPM.pages_ pool_churned) /\
            BPM.page_table_ b' = BPM.page_table_ pool_churned /\
            BPM.free_list_ b' = BPM.free_list_ pool_churned /\
            BPM.disk_manager_ b' = BPM.disk_manager_ pool_churned /\
            BPM.next_page_id_ b' = BPM.next_page_id_ pool_churned
        else BPM.FetchPage 4 7 pool_churned = None
  | None =>
      exists res b', BPM.FetchPage 4 7 pool_churned = Some (res, b') /\
        match res with
        | None => b' = pool_churned /\ BPM.all_pinned pool_churned
        | Some f =>
            exists old,
              arr_get (BPM.pages_ pool_churned) f = Some old /\ Frame.pin_count_ old = 0 /\
              BPM.disk_manager_ b'
              = (if Frame.is_dirty_ old
                 then WritePage (Frame.page_id_ old) (Frame.data_ old)
                        (BPM.disk_manager_ pool_churned)
                 else BPM.disk_manager_ pool_churned) /\
              BPM.pages_ b' = <[Z.to_nat f :=
                                  {| Frame.data_ := ReadPage 4 7 (BPM.disk_manager_ b');
                                     Frame.page_id_ := 7;
                                     Frame.pin_count_ := 1;
                                     Frame.is_dirty_ := false |}]>
                                (BPM.pages_ pool_churned) /\
              BPM.next_page_id_ b' = BPM.next_page_id_ pool_churned /\
              (7 <> INVALID_PAGE_ID -> BPM.page_table_ b' !! 7 = Some f)
        end
  end.
Proof.
  assert (Hr : BPM.reachable 4 pool_churned).
  { exists 2, [], (history_pinned ++ history_churn). split; [lia|vm_compute; reflexivity]. }
  split; [exact Hr|]. exact (FetchPage_contract 4 pool_churned 7 Hr).
Defined.

Lemma pinned_page_stays_resident_witness :
  BPM.reachable 4 pool_pinned /\
  BPM.holds_pinned pool_pinned 0 0 (zero_data 4) /\
  BPM.releases_or_writes 0 history_churn = false /\
  BPM.run_calls 4 history_churn pool_pinned = Some pool_churned /\
  BPM.holds_pinned pool_churned 0 0 (zero_data 4).
Proof.
  assert (Hr : BPM.reachable 4 pool_pinned).
  { exists 2, [], history_pinned. split; [lia|vm_compute; reflexivity]. }
  assert (Hh : BPM.holds_pinned pool_pinned 0 0 (zero_data 4)).
  { split; [reflexivity|]. eexists. split; [reflexivity|]. split; [reflexivity|]. simpl. lia. }
  assert (Hc : BPM.releases_or_writes 0 history_churn = false) by reflexivity.
  assert (Hrun : BPM.run_calls 4 history_churn pool_pinned = Some pool_churned)
    by (vm_compute; reflexivity).
  split; [exact Hr|]. split; [exact Hh|]. split; [exact Hc|]. split; [exact Hrun|].
  exact (pinned_page_stays_resident 4 pool_pinned 0 0 (zero_data 4) history_churn
           pool_churned Hr Hh Hc Hrun).
Defined.

Lemma FetchPage_UnpinPage_round_trip_witness :
  BPM.reachable 4 pool_dirty /\ BPM.page_table_ pool_dirty !! 0 = Some 0 /\
  arr_get (BPM.pages_ pool_dirty) 0
  = Some {| Frame.data_ := zero_data 4; Frame.page_id_ := 0;
            Frame.pin_count_ := 0; Frame.is_dirty_ := true |} /\
  0 < INT_MAX /\
  exists next b1,
    Clock.NextSlot (BPM.replacer_ pool_dirty) 0 = Some next /\
    BPM.FetchPage 4 0 pool_dirty = Some (Some 0, b1) /\
    BPM.UnpinPage 0 false b1
    = Some (true,
        BPM.with_replacer
          {| Clock.num_pages_ := Clock.num_pages_ (BPM.replacer_ pool_dirty);
             Clock.pointer_ := next;
             Clock.ref_flag_ := Clock.ref_flag_ (BPM.replacer_ pool_dirty) |} pool_dirty).
Proof.
  assert (Hr : BPM.reachable 4 pool_dirty).
  { exists 2, [], history_dirty. split; [lia|vm_compute; reflexivity]. }
  assert (Ht : BPM.page_table_ pool_dirty !! 0 = Some 0) by reflexivity.
  assert (Hpage : arr_get (BPM.pages_ pool_dirty) 0
                  = Some {| Frame.data_ := zero_data 4; Frame.page_id_ := 0;
                            Frame.pin_count_ := 0; Frame.is_dirty_ := true |})
    by reflexivity.
  assert (Hlt : 0 < INT_MAX) by reflexivity.
  split; [exact Hr|]. split; [exact Ht|]. split; [exact Hpage|]. split; [exact Hlt|].
  exact (FetchPage_UnpinPage_round_trip 4 pool_dirty 0 0 _ Hr Ht Hpage Hlt).
Defined.

Lemma FlushAllPages_flushes_every_frame_witness :
  BPM.reachable 4 pool_dirty /\
  BPM.FlushAllPages pool_dirty
  = Some {| BPM.pool_size_ := BPM.pool_size_ pool_dirty;
            BPM.pages_ := map BPM.flushed (BPM.pages_ pool_dirty);
            BPM.replacer_ := BPM.replacer_ pool_dirty;
            BPM.free_list_ := BPM.free_list_ pool_dirty;
            BPM.page_table_ := BPM.page_table_ pool_dirty;
            BPM.next_page_id_ := BPM.next_page_id_ pool_dirty;
            BPM.disk_manager_ :=
              foldl BPM.write_back (BPM.disk_manager_ pool_dirty) (BPM.pages_ pool_dirty) |}.
Proof.
  assert (Hr : BPM.reachable 4 pool_dirty).
  { exists 2, [], history_dirty. split; [lia|vm_compute; reflexivity]. }
  split; [exact Hr|]. exact (FlushAllPages_flushes_every_frame 4 pool_dirty Hr).
Defined.

Lemma NewPage_keeps_older_mapping_witness :
  BPM.reachable 4 pool_fetched_0 /\
  BPM.page_table_ pool_fetched_0 !! BPM.next_page_id_ pool_fetched_0 = Some 0 /\
  arr_get (BPM.pages_ pool_fetched_0) 0
  = Some {| Frame.data_ := zero_data 4; Frame.page_id_ := 0;
            Frame.pin_count_ := 1; Frame.is_dirty_ := false |} /\
  0 < Frame.pin_count_ {| Frame.data_ := zero_data 4; Frame.page_id_ := 0;
                          Frame.pin_count_ := 1; Frame.is_dirty_ := false |} /\
  BPM.NewPage 4 pool_fetched_0 = Some (Some (0, 1), pool_fetched_0_new) /\
  0 = BPM.next_page_id_ pool_fetched_0 /\ 1 <> 0 /\
  BPM.page_table_ pool_fetched_0_new !! 0 = Some 0 /\
  arr_get (BPM.pages_ pool_fetched_0_new) 0
  = Some {| Frame.data_ := zero_data 4; Frame.page_id_ := 0;
            Frame.pin_count_ := 1; Frame.is_dirty_ := false |} /\
  arr_get (BPM.pages_ pool_fetched_0_new) 1
  = Some {| Frame.data_ := zero_data 4; Frame.page_id_ := 0;
            Frame.pin_count_ := 1; Frame.is_dirty_ := false |}.
Proof.
  assert (Hr : BPM.reachable 4 pool_fetched_0).
  { exists 2, [], history_fetched_0. split; [lia|vm_compute; reflexivity]. }
  assert (Ht : BPM.page_table_ pool_fetched_0 !! BPM.next_page_id_ pool_fetched_0 = Some 0)
    by reflexivity.
  assert (Hg : arr_get (BPM.pages_ pool_fetched_0) 0
               = Some {| Frame.data_ := zero_data 4; Frame.page_id_ := 0;
                         Frame.pin_count_ := 1; Frame.is_dirty_ := false |})
    by reflexivity.
  assert (Hpos : 0 < Frame.pin_count_
                       {| Frame.data_ := zero_data 4; Frame.page_id_ := 0;
                          Frame.pin_count_ := 1; Frame.is_dirty_ := false |})
    by (simpl; lia).
  assert (Hrun : BPM.NewPage 4 pool_fetched_0 = Some (Some (0, 1), pool_fetched_0_new))
    by (vm_compute; reflexivity).
  split; [exact Hr|]. split; [exact Ht|]. split; [exact Hg|]. split; [exact Hpos|].
  split; [exact Hrun|].
  exact (NewPage_keeps_older_mapping 4 pool_fetched_0 0 _ 0 1 pool_fetched_0_new
           Hr Ht Hg Hpos Hrun).
Defined.

(** ** Leaf pages: lookups, insertions, removals and moves among the records *)

Section LeafRecords.
Import Leaf.
Context {KeyType ValueType : Type}.
Variable comparator : KeyType -> KeyType -> Z.
Hypothesis laws : comparator_laws comparator.
Implicit Types (p q : BPlusTreeLeafPage KeyType ValueType) (key : KeyType)
  (l : list (KeyType * ValueType)) (ks : list KeyType).

Lemma comparator_refl a : comparator a a = 0.
Proof.
  pose proof (comparator_swap _ laws a a).
  destruct (Z.sgn_spec (comparator a a)) as [[? ?]|[[? ?]|[? ?]]]; lia.
Qed.

Lemma comparator_eq_trans a b c :
  comparator a b = 0 -> comparator b c = 0 -> comparator a c = 0.
Proof.
  intros Hab Hbc.
  pose proof (comparator_trans _ laws a b c ltac:(lia) ltac:(lia)).
  pose proof (proj1 (comparator_eq_sym comparator laws a b) Hab).
  pose proof (proj1 (comparator_eq_sym comparator laws b c) Hbc).
  pose proof (comparator_trans _ laws c b a ltac:(lia) ltac:(lia)).
  pose proof (comparator_lt_gt comparator laws a c). lia.
Qed.

Lemma strictly_increasing_app ks1 ks2 :
  strictly_increasing comparator (ks1 ++ ks2) = true <->
  strictly_increasing comparator ks1 = true /\
  strictly_increasing comparator ks2 = true /\
  (forall a b, a ∈ ks1 -> b ∈ ks2 -> comparator a b < 0).
Proof.
  induction ks1 as [|k ks1 IH]; simpl.
  - split.
    + intros H. split; [reflexivity|]. split; [exact H|].
      intros a b Ha. apply elem_of_nil in Ha. contradiction.
    + intros (_ & H & _). exact H.
  - rewrite !andb_true_iff, forallb_app, andb_true_iff, IH, !forallb_forall. split.
    + intros ((H1 & H2) & H3 & H4 & H5).
      split; [split; assumption|]. split; [assumption|].
      intros a b Ha Hb. apply elem_of_cons in Ha as [->|Ha].
      * apply Z.ltb_lt. apply H2. apply list_elem_of_In. exact Hb.
      * apply H5; assumption.
    + intros ((H1 & H3) & H4 & H5).
      split; [split; [exact H1|]|split; [exact H3|split; [exact H4|]]].
      * intros b Hb. apply Z.ltb_lt. apply H5; [apply list_elem_of_here|].
        apply list_elem_of_In. exact Hb.
      * intros a b Ha Hb. apply H5; [apply list_elem_of_further; exact Ha|exact Hb].
Qed.

Lemma find_record_None l key :
  find_record comparator l key = None <->
  forall (n : nat) e, l !! n = Some e -> comparator (fst e) key <> 0.
Proof.
  induction l as [|e0 l IH]; simpl.
  - split; [intros _ n e Hn; discriminate|reflexivity].
  - destruct (Z.eqb_spec (comparator (fst e0) key) 0) as [Heq|Hne].
    + split; [discriminate|]. intros H. exfalso. apply (H 0%nat e0); [reflexivity|exact Heq].
    + rewrite IH. split.
      * intros H [|n] e Hn; [injection Hn as <-; exact Hne|apply (H n e Hn)].
      * intros H n e Hn. apply (H (S n) e Hn).
Qed.

Lemma find_record_first l key : forall (n : nat) e,
  l !! n = Some e -> comparator (fst e) key = 0 ->
  (forall (m : nat) e', (m < n)%nat -> l !! m = Some e' -> comparator (fst e') key <> 0) ->
  find_record comparator l key = Some (snd e).
Proof.
  induction l as [|e0 l IH]; intros n e Hn Heq Hbefore; [discriminate|].
  simpl. destruct n as [|n].
  - injection Hn as ->. apply Z.eqb_eq in Heq. rewrite Heq. reflexivity.
  - destruct (Z.eqb_spec (comparator (fst e0) key) 0) as [H0|Hne].
    + exfalso. apply (Hbefore 0%nat e0); [lia|reflexivity|exact H0].
    + apply (IH n e Hn Heq). intros m e' Hm Hm'. apply (Hbefore (S m) e'); [lia|exact Hm'].
Qed.

Lemma find_record_app l1 l2 key :
  find_record comparator (l1 ++ l2) key
  = match find_record comparator l1 key with
    | Some v => Some v
    | None => find_record comparator l2 key
    end.
Proof.
  induction l1 as [|e0 l1 IH]; simpl; [reflexivity|].
  destruct (comparator (fst e0) key =? 0); [reflexivity|exact IH].
Qed.

Lemma entries_length p : page_wf p -> length (entries p) = Z.to_nat (GetSize p).
Proof. unfold page_wf, entries. intros Hwf. rewrite length_take. lia. Qed.

Lemma entries_lookup p (n : nat) e :
  page_wf p -> entries p !! n = Some e ->
  0 <= Z.of_nat n < GetSize p /\ arr_get (array_ p) (Z.of_nat n) = Some e /\
  KeyAt p (Z.of_nat n) = Some (fst e).
Proof.
  intros Hwf Hn. pose proof (lookup_lt_Some _ _ _ Hn) as Hlt.
  rewrite entries_length in Hlt by exact Hwf.
  unfold entries in Hn. rewrite lookup_take_lt in Hn by lia.
  split; [lia|]. unfold KeyAt. rewrite arr_get_of_nat, Hn. split; reflexivity.
Qed.

Lemma KeyAt_entries p j k :
  0 <= j < GetSize p -> KeyAt p j = Some k ->
  exists e, entries p !! Z.to_nat j = Some e /\ fst e = k.
Proof.
  intros Hj. unfold KeyAt, arr_get, entries.
  destruct (Z.ltb_spec j 0); [lia|].
  destruct (array_ p !! Z.to_nat j) as [e|] eqn:He; [|discriminate].
  intros [= <-]. exists e. rewrite lookup_take_lt by lia. split; [exact He|reflexivity].
Qed.

Lemma take_lookup_eq {A : Type} (n : nat) (a l' : list A) :
  length l' = n -> (forall j, (j < n)%nat -> a !! j = l' !! j) -> take n a = l'.
Proof.
  intros Hlen H. apply list_eq. intros j.
  destruct (Nat.lt_ge_cases j n) as [Hj|Hj].
  - rewrite lookup_take_lt by exact Hj. apply H. exact Hj.
  - rewrite lookup_take_ge by exact Hj. symmetry. apply lookup_ge_None. lia.
Qed.

Lemma Lookup_find_record p key :
  page_wf p -> strictly_increasing comparator (keys p) = true ->
  Lookup comparator p key = Some (find_record comparator (entries p) key).
Proof.
  intros Hwf Hs.
  destruct (KeyIndex_spec comparator laws p key Hwf Hs) as (i & Hrun & Hi & Hbelow & Habove).
  pose proof (no_match_elsewhere comparator laws p key i Hwf Hs Hi Hbelow Habove) as Hother.
  unfold Lookup. rewrite Hrun. simpl.
  destruct (Z.eqb_spec i (GetSize p)) as [Heq|Hne].
  - f_equal. symmetry. apply find_record_None. intros n e Hn.
    destruct (entries_lookup p n e Hwf Hn) as (Hr & _ & Hk).
    assert (Hlt : 0 <= Z.of_nat n < i) by lia.
    pose proof (Hbelow _ _ Hlt Hk). lia.
  - destruct (KeyAt_in_range p i Hwf) as [ki Hki]; [lia|]. rewrite Hki. simpl.
    destruct (KeyAt_entries p i ki ltac:(lia) Hki) as (e & He & Hfst).
    destruct (Z.eqb_spec (comparator key ki) 0) as [Hmatch|Hmiss]; simpl.
    + destruct (entries_lookup p _ e Hwf He) as (_ & Hget & _).
      rewrite Z2Nat.id in Hget by lia. rewrite Hget. simpl. f_equal. symmetry.
      apply (find_record_first _ _ (Z.to_nat i) e He).
      * rewrite Hfst. apply (comparator_eq_sym comparator laws). exact Hmatch.
      * intros m e' Hm Hm'. destruct (entries_lookup p m e' Hwf Hm') as (Hr & _ & Hk).
        apply (Hother _ _ Hr); [lia|exact Hk].
    + f_equal. symmetry. apply find_record_None. intros n e' Hn.
      destruct (entries_lookup p n e' Hwf Hn) as (Hr & _ & Hk).
      destruct (Z.eq_dec (Z.of_nat n) i) as [Hni|Hni].
      * rewrite Hni, Hki in Hk. injection Hk as Hk. rewrite <- Hk.
        intros Hz. apply Hmiss. apply (comparator_eq_sym comparator laws). exact Hz.
      * apply (Hother _ _ Hr Hni Hk).
Qed.

Lemma keys_lookup_KeyAt p (n : nat) k :
  page_wf p -> keys p !! n = Some k ->
  0 <= Z.of_nat n < GetSize p /\ KeyAt p (Z.of_nat n) = Some k.
Proof.
  intros Hwf Hn. unfold keys in Hn.
  change (map fst (entries p)) with (fst <$> entries p) in Hn.
  rewrite list_lookup_fmap in Hn.
  destruct (entries p !! n) as [e|] eqn:He; [|discriminate]. injection Hn as <-.
  destruct (entries_lookup p n e Hwf He) as (Hr & _ & Hk). split; assumption.
Qed.

Lemma strictly_increasing_insert ks key (i : nat) :
  strictly_increasing comparator ks = true ->
  (forall (n : nat) k, (n < i)%nat -> ks !! n = Some k -> comparator k key < 0) ->
  (forall (n : nat) k, (i <= n)%nat -> ks !! n = Some k -> comparator key k < 0) ->
  strictly_increasing comparator (take i ks ++ key :: drop i ks) = true.
Proof.
  intros Hs Hlo Hhi. rewrite <- (take_drop i ks) in Hs.
  apply strictly_increasing_app in Hs as (H1 & H2 & H3).
  apply strictly_increasing_app. split; [exact H1|]. split.
  - simpl. apply andb_true_intro. split; [|exact H2].
    apply forallb_forall. intros k Hk. apply Z.ltb_lt. apply list_elem_of_In in Hk.
    apply list_elem_of_lookup in Hk as [n Hn]. rewrite lookup_drop in Hn.
    apply (Hhi (i + n)%nat k); [lia|exact Hn].
  - intros a b Ha Hb. apply elem_of_cons in Hb as [->|Hb].
    + apply list_elem_of_lookup in Ha as [n Hn].
      apply lookup_take_Some in Hn as [Hn Hlt]. apply (Hlo n a Hlt Hn).
    + apply H3; assumption.
Qed.

Lemma strictly_increasing_delete ks (i : nat) :
  strictly_increasing comparator ks = true ->
  strictly_increasing comparator (delete i ks) = true.
Proof.
  intros Hs. rewrite delete_take_drop. rewrite <- (take_drop i ks) in Hs.
  apply strictly_increasing_app in Hs as (H1 & H2 & H3).
  apply strictly_increasing_app. split; [exact H1|].
  replace (drop (S i) ks) with (drop 1 (drop i ks))
    by (rewrite drop_drop; f_equal; lia).
  destruct (drop i ks) as [|k rest]; simpl.
  - split; [reflexivity|]. intros a b _ Hb. apply elem_of_nil in Hb. contradiction.
  - rewrite drop_0. simpl in H2. apply andb_true_iff in H2 as [_ H2].
    split; [exact H2|]. intros a b Ha Hb. apply H3; [exact Ha|].
    apply list_elem_of_further. exact Hb.
Qed.

Lemma page_wf_of_entries p' (n : Z) l :
  0 <= n -> GetSize p' = n -> entries p' = l -> length l = Z.to_nat n -> page_wf p'.
Proof.
  intros Hn Hsz Hent Hlen. unfold page_wf. rewrite Hsz. split; [exact Hn|].
  unfold entries in Hent. rewrite Hsz in Hent.
  apply (f_equal length) in Hent. rewrite length_take, Hlen in Hent. lia.
Qed.

Lemma no_record_no_key p key :
  page_wf p -> find_record comparator (entries p) key = None ->
  forall j k, 0 <= j < GetSize p -> KeyAt p j = Some k -> comparator k key <> 0.
Proof.
  intros Hwf Hnone j k Hj Hk.
  destruct (KeyAt_entries p j k Hj Hk) as (e & He & <-).
  apply (proj1 (find_record_None _ _) Hnone _ _ He).
Qed.

(** X12: on a leaf whose keys are strictly increasing, [Lookup] gives what
    a search through the records gives: the value of the record whose key
    compares equal to the key, and not found (for an empty page as well)
    when there is none.  Slots after the records are not looked at. *)
Theorem Leaf_Lookup_finds_the_record p key :
  page_wf p -> strictly_increasing comparator (keys p) = true ->
  Lookup comparator p key = Some (find_record comparator (entries p) key) /\
  (GetSize p = 0 -> Lookup comparator p key = Some None).
Proof.
  intros Hwf Hs. pose proof (Lookup_find_record p key Hwf Hs) as Hl.
  split; [exact Hl|]. intros H0. rewrite Hl. unfold entries. rewrite H0. reflexivity.
Qed.

(** X13: on a leaf with a free slot whose keys are strictly increasing,
    [Insert] of a key that is in none of the records, and not in the slot
    right after them either, stores the record: the size grows by one
    and is returned, the keys are still strictly increasing, [Lookup] of
    the key gives the value, and [Lookup] of every other key gives what it
    gave before. *)
Theorem Leaf_Insert_then_Lookup p key (value : ValueType) :
  page_wf p -> GetSize p < Z.of_nat (length (array_ p)) ->
  strictly_increasing comparator (keys p) = true ->
  find_record comparator (entries p) key = None ->
  (forall k, KeyAt p (GetSize p) = Some k -> comparator k key <> 0) ->
  exists p', Insert comparator p key value = Some (GetSize p + 1, p') /\
    GetSize p' = GetSize p + 1 /\ page_wf p' /\
    strictly_increasing comparator (keys p') = true /\
    Lookup comparator p' key = Some (Some value) /\
    forall key', comparator key key' <> 0 ->
      Lookup comparator p' key' = Lookup comparator p key'.
Proof.
  intros Hwf Hroom Hs Hnone Hfree.
  pose proof (no_record_no_key p key Hwf Hnone) as Hnokey.
  destruct (Insert_fresh comparator laws p key value Hwf Hroom Hs Hnokey Hfree)
    as (i & p' & Hrun & Hins & Hsz & Hent).
  destruct (KeyIndex_spec comparator laws p key Hwf Hs) as (i' & Hrun' & Hi & Hbelow & Habove).
  rewrite Hrun in Hrun'. injection Hrun' as <-.
  pose proof (entries_length p Hwf) as Hlen.
  assert (Hwf' : page_wf p').
  { apply (page_wf_of_entries p' (GetSize p + 1) _ ltac:(unfold page_wf in Hwf; lia) Hsz Hent).
    rewrite length_app. simpl. rewrite length_take, length_drop, Hlen. lia. }
  assert (Hs' : strictly_increasing comparator (keys p') = true).
  { unfold keys. rewrite Hent.
    change (map fst ?x) with (fst <$> x).
    rewrite fmap_app, fmap_cons, fmap_take, fmap_drop. simpl.
    apply strictly_increasing_insert.
    - exact Hs.
    - intros n k Hn Hk. destruct (keys_lookup_KeyAt p n k Hwf Hk) as [Hr Hkn].
      apply (Hbelow (Z.of_nat n) k); [lia|exact Hkn].
    - intros n k Hn Hk. destruct (keys_lookup_KeyAt p n k Hwf Hk) as [Hr Hkn].
      assert (Hin : i <= Z.of_nat n < GetSize p) by lia.
      pose proof (Habove (Z.of_nat n) k Hin Hkn).
      pose proof (Hnokey (Z.of_nat n) k Hr Hkn).
      apply (comparator_lt_gt comparator laws). lia. }
  assert (Htake : find_record comparator (take (Z.to_nat i) (entries p)) key = None).
  { apply find_record_None. intros n e Hn. apply lookup_take_Some in Hn as [Hn _].
    apply (proj1 (find_record_None _ _) Hnone _ _ Hn). }
  exists p'. split; [exact Hins|]. split; [exact Hsz|]. split; [exact Hwf'|].
  split; [exact Hs'|]. split.
  - rewrite (Lookup_find_record p' key Hwf' Hs'). f_equal.
    rewrite Hent, find_record_app, Htake. simpl.
    rewrite comparator_refl. reflexivity.
  - intros key' Hne.
    rewrite (Lookup_find_record p' key' Hwf' Hs'), (Lookup_find_record p key' Hwf Hs).
    f_equal. rewrite Hent.
    rewrite <- (take_drop (Z.to_nat i) (entries p)) at 3.
    rewrite !find_record_app. simpl.
    apply Z.eqb_neq in Hne. rewrite Hne. reflexivity.
Qed.

(** X14: on a leaf whose keys are strictly increasing,
    [RemoveAndDeleteRecord] of a key that is in one of the records takes
    that record out: the size shrinks by one, the keys are still strictly
    increasing, [Lookup] of the key finds nothing, and [Lookup] of every
    other key gives what it gave before. *)
Theorem Leaf_Remove_then_Lookup p key (v : ValueType) :
  page_wf p -> strictly_increasing comparator (keys p) = true ->
  find_record comparator (entries p) key = Some v ->
  exists p', RemoveAndDeleteRecord comparator p key
             = Some (int_to_bool (GetSize p - 1), p') /\
    GetSize p' = GetSize p - 1 /\ page_wf p' /\
    strictly_increasing comparator (keys p') = true /\
    Lookup comparator p' key = Some None /\
    forall key', comparator key key' <> 0 ->
      Lookup comparator p' key' = Lookup comparator p key'.
Proof.
  intros Hwf Hs Hfound.
  pose proof (entries_length p Hwf) as Hlen.
  destruct (RemoveAndDeleteRecord_spec comparator laws p key Hwf Hs)
    as (b & p' & Hrun & Hb & [(i & k & Hi & Hki & Hmatch & Hent & Hsz)|(Hnone & ->)]).
  - destruct (KeyAt_entries p i k Hi Hki) as (e & He & Hfst).
    assert (Hwf' : page_wf p').
    { apply (page_wf_of_entries p' (GetSize p - 1) _ ltac:(lia) Hsz Hent).
      rewrite length_delete by (rewrite He; eauto). lia. }
    assert (Hs' : strictly_increasing comparator (keys p') = true).
    { unfold keys. rewrite Hent. change (map fst ?x) with (fst <$> x).
      rewrite list_fmap_delete. apply strictly_increasing_delete. exact Hs. }
    assert (Hrest : forall (m : nat) e', m <> Z.to_nat i -> entries p !! m = Some e' ->
              comparator (fst e') key <> 0).
    { intros m e' Hm He' Hz.
      destruct (entries_lookup p m e' Hwf He') as (Hr & _ & Hkm).
      assert (Hkk : comparator (fst e') k = 0).
      { apply (comparator_eq_trans _ key); [exact Hz|].
        apply (comparator_eq_sym comparator laws). exact Hmatch. }
      destruct (Z_lt_le_dec (Z.of_nat m) i) as [Hlt|Hge].
      - pose proof (keys_sorted_KeyAt comparator p (Z.of_nat m) i _ _ Hs
                      ltac:(lia) Hlt ltac:(lia) Hkm Hki). lia.
      - assert (Hgt : i < Z.of_nat m) by lia.
        pose proof (keys_sorted_KeyAt comparator p i (Z.of_nat m) _ _ Hs
                      ltac:(lia) Hgt ltac:(lia) Hki Hkm) as Hlt.
        apply (comparator_lt_gt comparator laws) in Hlt. lia. }
    exists p'. rewrite Hrun, Hb, Hsz.
    split; [reflexivity|]. split; [reflexivity|]. split; [exact Hwf'|].
    split; [exact Hs'|]. split.
    + rewrite (Lookup_find_record p' key Hwf' Hs'). f_equal.
      rewrite Hent. apply find_record_None. intros m e' Hm.
      destruct (Nat.lt_ge_cases m (Z.to_nat i)) as [Hlt|Hge].
      * rewrite list_lookup_delete_lt in Hm by exact Hlt. apply (Hrest m e'); [lia|exact Hm].
      * rewrite list_lookup_delete_ge in Hm by exact Hge. apply (Hrest (S m) e'); [lia|exact Hm].
    + intros key' Hne.
      rewrite (Lookup_find_record p' key' Hwf' Hs'), (Lookup_find_record p key' Hwf Hs).
      f_equal. rewrite Hent, delete_take_drop.
      rewrite <- (take_drop_middle (entries p) (Z.to_nat i) e He) at 3.
      rewrite !find_record_app. simpl.
      assert (Hek : comparator (fst e) key' <> 0).
      { rewrite Hfst. intros Hz. apply Hne.
        apply (comparator_eq_trans _ k); [|exact Hz].
        apply (comparator_eq_sym comparator laws). exact Hmatch. }
      apply Z.eqb_neq in Hek. rewrite Hek. reflexivity.
  - exfalso.
    assert (Hn : find_record comparator (entries p) key = None).
    { apply find_record_None. intros n e Hn.
      destruct (entries_lookup p n e Hwf Hn) as (Hr & _ & Hk). apply (Hnone _ _ Hr Hk). }
    congruence.
Qed.

(** *** Moving records between leaves *)

(** Case analysis on the integer comparisons of the goal. *)
Ltac case_bounds :=
  repeat match goal with
         | |- context [?a <=? ?b] => destruct (Z.leb_spec a b)
         | |- context [?a <? ?b] => destruct (Z.ltb_spec a b)
         | |- context [?a =? ?b] => destruct (Z.eqb_spec a b)
         end; simpl.

Lemma copy_items_spec n : forall (src : list (KeyType * ValueType)) from dst to,
  0 <= from -> from + Z.of_nat n <= Z.of_nat (length src) ->
  0 <= to -> to + Z.of_nat n <= Z.of_nat (length dst) ->
  exists dst', copy_items n src from dst to = Some dst' /\
    length dst' = length dst /\
    forall j, 0 <= j ->
      arr_get dst' j = if (to <=? j) && (j <? to + Z.of_nat n)
                       then arr_get src (from + (j - to)) else arr_get dst j.
Proof.
  induction n as [|n IH]; intros src from dst to Hfrom Hsrc Hto Hdst.
  - exists dst. split; [reflexivity|]. split; [reflexivity|]. intros j Hj.
    case_bounds; try reflexivity; lia.
  - cbn [copy_items].
    destruct (arr_get_in_range src from) as [e He]; [lia|]. rewrite He. simpl.
    rewrite arr_set_in_range by lia. simpl.
    destruct (IH src (from + 1) (<[Z.to_nat to := e]> dst) (to + 1))
      as (dst' & Hrun & Hlen & Hget); try (rewrite ?length_insert; lia).
    exists dst'. split; [exact Hrun|]. split; [rewrite Hlen; apply length_insert|].
    intros j Hj. rewrite Hget by exact Hj.
    rewrite arr_get_insert by lia.
    case_bounds; try lia; try reflexivity.
    + f_equal. lia.
    + subst j. rewrite <- He. f_equal. lia.
Qed.

Lemma CopyNFrom_spec q (src : list (KeyType * ValueType)) from n :
  page_wf q -> 0 <= n -> 0 <= from -> from + n <= Z.of_nat (length src) ->
  GetSize q + n <= Z.of_nat (length (array_ q)) ->
  exists q', CopyNFrom q src from n = Some q' /\
    header q' = IncreaseSize n (header q) /\
    next_page_id_ q' = next_page_id_ q /\
    length (array_ q') = length (array_ q) /\
    entries q' = entries q ++ take (Z.to_nat n) (drop (Z.to_nat from) src).
Proof.
  intros Hwf Hn Hfrom Hsrc Hroom. unfold page_wf in Hwf. unfold CopyNFrom.
  destruct (copy_items_spec (Z.to_nat n) src from (array_ q) (GetSize q))
    as (a & Hrun & Hlen & Hget); try lia.
  rewrite Hrun. simpl. eexists. split; [reflexivity|]. split; [reflexivity|].
  split; [reflexivity|]. split; [exact Hlen|].
  unfold entries.
  change (GetSize (with_header (IncreaseSize n (header q)) (with_array a q)))
    with (GetSize q + n).
  change (array_ (with_header (IncreaseSize n (header q)) (with_array a q))) with a.
  assert (HlenE : length (take (Z.to_nat (GetSize q)) (array_ q)) = Z.to_nat (GetSize q))
    by (rewrite length_take; lia).
  apply take_lookup_eq.
  - rewrite length_app, HlenE, length_take, length_drop. lia.
  - intros j Hj. rewrite <- arr_get_of_nat, Hget by lia.
    destruct (Z.leb_spec (GetSize q) (Z.of_nat j)),
      (Z.ltb_spec (Z.of_nat j) (GetSize q + Z.of_nat (Z.to_nat n))); simpl; try lia.
    + rewrite lookup_app_r by (rewrite HlenE; lia). rewrite HlenE.
      rewrite lookup_take_lt by lia. rewrite lookup_drop.
      replace (from + (Z.of_nat j - GetSize q))
        with (Z.of_nat (Z.to_nat from + (j - Z.to_nat (GetSize q)))) by lia.
      apply arr_get_of_nat.
    + rewrite lookup_app_l by (rewrite HlenE; lia).
      rewrite lookup_take_lt by lia. apply arr_get_of_nat.
Qed.

Lemma shift_up_spec fuel : forall (a : list (KeyType * ValueType)) i,
  -1 <= i -> i + 1 < Z.of_nat (length a) -> i + 1 <= Z.of_nat fuel ->
  exists a', shift_up fuel a i = Some a' /\
    length a' = length a /\
    forall j, 0 <= j ->
      arr_get a' j = if (1 <=? j) && (j <=? i + 1) then arr_get a (j - 1) else arr_get a j.
Proof.
  induction fuel as [|fuel IH]; intros a i Hi Hlen Hfuel; simpl.
  - destruct (Z.geb_spec i 0); [lia|]. exists a. split; [reflexivity|].
    split; [reflexivity|]. intros j Hj. case_bounds; try reflexivity; lia.
  - destruct (Z.geb_spec i 0) as [Hge|Hlt].
    + destruct (arr_get_in_range a i) as [e He]; [lia|]. rewrite He. simpl.
      rewrite arr_set_in_range by lia. simpl.
      destruct (IH (<[Z.to_nat (i + 1) := e]> a) (i - 1))
        as (a' & Hrun & Hlen' & Hget); try (rewrite ?length_insert; lia).
      exists a'. split; [exact Hrun|]. split; [rewrite Hlen'; apply length_insert|].
      intros j Hj. rewrite Hget by exact Hj.
      replace (i - 1 + 1) with i by lia.
      destruct (Z.eq_dec j (i + 1)) as [->|Hne].
      * case_bounds; try lia.
        rewrite arr_get_set_eq by lia. rewrite <- He. f_equal. lia.
      * case_bounds; try lia; rewrite arr_get_set_ne by lia; reflexivity.
    + exists a. split; [reflexivity|]. split; [reflexivity|]. intros j Hj.
      case_bounds; try reflexivity; lia.
Qed.

Lemma CopyLastFrom_spec q (item : KeyType * ValueType) :
  page_wf q -> GetSize q < Z.of_nat (length (array_ q)) ->
  exists q', CopyLastFrom q item = Some q' /\
    header q' = IncreaseSize 1 (header q) /\
    next_page_id_ q' = next_page_id_ q /\
    length (array_ q') = length (array_ q) /\
    entries q' = entries q ++ [item].
Proof.
  intros Hwf Hroom. unfold page_wf in Hwf. unfold CopyLastFrom.
  rewrite arr_set_in_range by lia. simpl. eexists. split; [reflexivity|].
  split; [reflexivity|]. split; [reflexivity|].
  split; [cbn [array_ with_header with_array]; apply length_insert|].
  unfold entries.
  match goal with |- take (Z.to_nat (GetSize ?x)) _ = _ =>
    change (GetSize x) with (GetSize q + 1) end.
  cbn [array_ with_header with_array].
  replace (Z.to_nat (GetSize q + 1)) with (S (Z.to_nat (GetSize q))) by lia.
  rewrite (take_S_r _ _ item) by (apply list_lookup_insert_eq; lia).
  rewrite take_insert_ge by lia. reflexivity.
Qed.

Lemma CopyFirstFrom_spec q (item : KeyType * ValueType) :
  page_wf q -> GetSize q + 1 < Z.of_nat (length (array_ q)) ->
  exists q', CopyFirstFrom q item = Some q' /\
    header q' = IncreaseSize 1 (header q) /\
    next_page_id_ q' = next_page_id_ q /\
    length (array_ q') = length (array_ q) /\
    entries q' = item :: entries q.
Proof.
  intros Hwf Hroom. unfold page_wf in Hwf. unfold CopyFirstFrom.
  destruct (shift_up_spec (Z.to_nat (GetSize q + 1)) (array_ q) (GetSize q))
    as (a & Hrun & Hlen & Hget); try lia.
  rewrite Hrun. simpl. rewrite arr_set_in_range by lia. simpl.
  eexists. split; [reflexivity|]. split; [reflexivity|]. split; [reflexivity|].
  split; [cbn [array_ with_header with_array]; rewrite length_insert; exact Hlen|].
  unfold entries.
  match goal with |- take (Z.to_nat (GetSize ?x)) _ = _ =>
    change (GetSize x) with (GetSize q + 1) end.
  cbn [array_ with_header with_array].
  apply take_lookup_eq.
  - simpl. rewrite length_take. lia.
  - intros j Hj. rewrite <- arr_get_of_nat, arr_get_insert by lia.
    destruct j as [|j]; [reflexivity|].
    destruct (Z.eqb_spec (Z.of_nat (S j)) 0); [lia|]. rewrite Hget by lia.
    destruct (Z.leb_spec 1 (Z.of_nat (S j))), (Z.leb_spec (Z.of_nat (S j)) (GetSize q + 1));
      simpl; try lia.
    rewrite lookup_take_lt by lia.
    replace (Z.of_nat (S j) - 1) with (Z.of_nat j) by lia. apply arr_get_of_nat.
Qed.

(** X15: [MoveHalfTo] on a leaf, into a recipient with room: the page
    keeps its first [GetMinSize()] records, the others are appended, in
    their order, to the records of the recipient.  No record is lost or
    doubled. *)
Theorem Leaf_MoveHalfTo_splits_the_records p q :
  page_wf p -> page_wf q ->
  0 <= GetMinSize (header p) <= GetSize p ->
  GetSize q + (GetSize p - GetMinSize (header p)) <= Z.of_nat (length (array_ q)) ->
  exists p' q', MoveHalfTo p q = Some (p', q') /\
    GetSize p' = GetMinSize (header p) /\
    GetSize q' = GetSize q + (GetSize p - GetMinSize (header p)) /\
    entries p' = take (Z.to_nat (GetMinSize (header p))) (entries p) /\
    entries q' = entries q ++ drop (Z.to_nat (GetMinSize (header p))) (entries p) /\
    entries q ++ entries p = take (Z.to_nat (GetSize q)) (entries q') ++ entries p'
                             ++ drop (Z.to_nat (GetSize q)) (entries q') /\
    page_wf p' /\ page_wf q'.
Proof.
  intros Hwfp Hwfq Hm Hroom. unfold MoveHalfTo.
  set (m := GetMinSize (header p)) in *.
  pose proof Hwfp as Hp. pose proof Hwfq as Hq. unfold page_wf in Hp, Hq.
  destruct (CopyNFrom_spec q (array_ p) m (GetSize p - m) Hwfq)
    as (q' & Hrun & Hhdr & Hnext & Hlen & Hent); try lia.
  rewrite Hrun. simpl. eexists _, q'. split; [reflexivity|].
  assert (Hszp : GetSize (with_header (IncreaseSize (- (GetSize p - m)) (header p)) p) = m)
    by (unfold GetSize; simpl; unfold GetSize; lia).
  assert (Hszq : GetSize q' = GetSize q + (GetSize p - m))
    by (unfold GetSize; rewrite Hhdr; reflexivity).
  assert (Hep : entries (with_header (IncreaseSize (- (GetSize p - m)) (header p)) p)
                = take (Z.to_nat m) (entries p)).
  { unfold entries. rewrite Hszp. cbn [array_ with_header].
    rewrite take_take. f_equal. lia. }
  assert (Heq : entries q' = entries q ++ drop (Z.to_nat m) (entries p)).
  { rewrite Hent. f_equal. unfold entries. rewrite take_drop_commute. f_equal. f_equal. lia. }
  pose proof (entries_length q Hwfq) as Hlq.
  split; [exact Hszp|]. split; [exact Hszq|]. split; [exact Hep|]. split; [exact Heq|].
  split; [|split].
  - rewrite Hep, Heq. rewrite take_app_length' by (symmetry; exact Hlq).
    rewrite drop_app_length' by (symmetry; exact Hlq). rewrite take_drop. reflexivity.
  - unfold page_wf. rewrite Hszp. cbn [array_ with_header]. lia.
  - unfold page_wf. rewrite Hszq, Hlen. lia.
Qed.

(** X16: [MoveAllTo] on a leaf, into a recipient with room: the records
    of the page are appended, in their order, to the records of the
    recipient, and the page is left with none. *)
Theorem Leaf_MoveAllTo_appends_the_records p q :
  page_wf p -> page_wf q ->
  GetSize q + GetSize p <= Z.of_nat (length (array_ q)) ->
  exists p' q', MoveAllTo p q = Some (p', q') /\
    GetSize p' = 0 /\ entries p' = [] /\
    GetSize q' = GetSize q + GetSize p /\
    entries q' = entries q ++ entries p /\
    page_wf p' /\ page_wf q'.
Proof.
  intros Hwfp Hwfq Hroom. unfold MoveAllTo.
  pose proof Hwfp as Hp. pose proof Hwfq as Hq. unfold page_wf in Hp, Hq.
  destruct (CopyNFrom_spec q (array_ p) 0 (GetSize p) Hwfq)
    as (q' & Hrun & Hhdr & Hnext & Hlen & Hent); try lia.
  rewrite Hrun. simpl. eexists _, q'. split; [reflexivity|].
  assert (Hszq : GetSize q' = GetSize q + GetSize p)
    by (unfold GetSize; rewrite Hhdr; reflexivity).
  split; [reflexivity|]. split; [reflexivity|]. split; [exact Hszq|].
  split; [exact Hent|]. split.
  - unfold page_wf. cbn. lia.
  - unfold page_wf. rewrite Hszq, Hlen. lia.
Qed.

(** X17: [MoveFirstToEndOf] on a leaf that has a record, into a recipient
    with a free slot: the first record of the page becomes the last
    record of the recipient, the other records of the page move down by
    one.  The records of the recipient followed by those of the page are
    what they were. *)
Theorem Leaf_MoveFirstToEndOf_moves_the_first_record p q :
  page_wf p -> page_wf q -> 0 < GetSize p ->
  GetSize q < Z.of_nat (length (array_ q)) ->
  exists p' q', MoveFirstToEndOf p q = Some (p', q') /\
    GetSize p' = GetSize p - 1 /\ GetSize q' = GetSize q + 1 /\
    entries q' = entries q ++ take 1 (entries p) /\
    entries p' = drop 1 (entries p) /\
    entries q' ++ entries p' = entries q ++ entries p /\
    page_wf p' /\ page_wf q'.
Proof.
  intros Hwfp Hwfq Hpos Hroom. unfold MoveFirstToEndOf.
  pose proof Hwfp as Hp. pose proof Hwfq as Hq. unfold page_wf in Hp, Hq.
  destruct (arr_get_in_range (array_ p) 0) as [item Hitem]; [lia|].
  rewrite Hitem. simpl.
  destruct (CopyLastFrom_spec q item Hwfq Hroom)
    as (q' & Hrun & Hhdr & Hnext & Hlen & Hent).
  rewrite Hrun. simpl.
  set (p1 := with_header (IncreaseSize (-1) (header p)) p).
  assert (Hsz1 : GetSize p1 = GetSize p - 1) by reflexivity.
  change (array_ p1) with (array_ p).
  destruct (shift_left_spec (Z.to_nat (GetSize p1)) (array_ p) 0 (GetSize p1))
    as (a & Hshift & Hlena & Hget); try lia.
  rewrite Hshift. simpl. eexists _, q'. split; [reflexivity|].
  assert (Hszq : GetSize q' = GetSize q + 1)
    by (unfold GetSize; rewrite Hhdr; reflexivity).
  assert (Hfirst : take 1 (entries p) = [item]).
  { unfold entries. rewrite take_take.
    replace (1 `min` Z.to_nat (GetSize p))%nat with 1%nat by lia.
    unfold arr_get in Hitem. simpl in Hitem.
    destruct (array_ p) as [|e rest]; [discriminate|].
    simpl in Hitem. injection Hitem as ->. reflexivity. }
  assert (Hep : entries (with_array a p1) = drop 1 (entries p)).
  { unfold entries.
    change (GetSize (with_array a p1)) with (GetSize p - 1).
    cbn [array_ with_array]. apply take_lookup_eq.
    - rewrite length_drop, length_take. lia.
    - intros j Hj. rewrite <- arr_get_of_nat, Hget by lia.
      rewrite Hsz1. case_bounds; try lia.
      rewrite lookup_drop, lookup_take_lt by lia.
      replace (Z.of_nat j + 1) with (Z.of_nat (1 + j)) by lia. apply arr_get_of_nat. }
  split; [reflexivity|]. split; [exact Hszq|].
  split; [rewrite Hent, Hfirst; reflexivity|]. split; [exact Hep|]. split; [|split].
  - rewrite Hent, Hep, <- Hfirst, <- app_assoc, take_drop. reflexivity.
  - unfold page_wf. change (GetSize (with_array a p1)) with (GetSize p - 1).
    cbn [array_ with_array]. rewrite Hlena. lia.
  - unfold page_wf. rewrite Hszq, Hlen. lia.
Qed.

(** X18: [MoveLastToFrontOf] on a leaf that has a record, into a
    recipient with two free slots: the last record of the page becomes
    the first record of the recipient.  The records of the page followed
    by those of the recipient are what they were. *)
Theorem Leaf_MoveLastToFrontOf_moves_the_last_record p q :
  page_wf p -> page_wf q -> 0 < GetSize p ->
  GetSize q + 1 < Z.of_nat (length (array_ q)) ->
  exists p' q', MoveLastToFrontOf p q = Some (p', q') /\
    GetSize p' = GetSize p - 1 /\ GetSize q' = GetSize q + 1 /\
    entries p' = take (Z.to_nat (GetSize p - 1)) (entries p) /\
    entries q' = drop (Z.to_nat (GetSize p - 1)) (entries p) ++ entries q /\
    entries p' ++ entries q' = entries p ++ entries q /\
    page_wf p' /\ page_wf q'.
Proof.
  intros Hwfp Hwfq Hpos Hroom. unfold MoveLastToFrontOf.
  pose proof Hwfp as Hp. pose proof Hwfq as Hq. unfold page_wf in Hp, Hq.
  destruct (arr_get_in_range (array_ p) (GetSize p - 1)) as [item Hitem]; [lia|].
  rewrite Hitem. simpl.
  destruct (CopyFirstFrom_spec q item Hwfq Hroom)
    as (q' & Hrun & Hhdr & Hnext & Hlen & Hent).
  rewrite Hrun. simpl. eexists _, q'. split; [reflexivity|].
  assert (Hszq : GetSize q' = GetSize q + 1)
    by (unfold GetSize; rewrite Hhdr; reflexivity).
  assert (Hlast : drop (Z.to_nat (GetSize p - 1)) (entries p) = [item]).
  { unfold entries. apply list_eq. intros j.
    rewrite lookup_drop. destruct j as [|j].
    - rewrite lookup_take_lt by lia. rewrite Nat.add_0_r.
      unfold arr_get in Hitem. destruct (GetSize p - 1 <? 0); [discriminate|exact Hitem].
    - rewrite lookup_take_ge by lia. reflexivity. }
  assert (Hep : entries (with_header (IncreaseSize (-1) (header p)) p)
                = take (Z.to_nat (GetSize p - 1)) (entries p)).
  { unfold entries.
    change (GetSize (with_header (IncreaseSize (-1) (header p)) p)) with (GetSize p + -1).
    cbn [array_ with_header]. rewrite take_take. f_equal. lia. }
  split; [reflexivity|]. split; [exact Hszq|]. split; [exact Hep|].
  split; [rewrite Hent, Hlast; reflexivity|]. split; [|split].
  - rewrite Hep, Hent. change (item :: entries q) with ([item] ++ entries q).
    rewrite <- Hlast, app_assoc, take_drop. reflexivity.
  - unfold page_wf.
    change (GetSize (with_header (IncreaseSize (-1) (header p)) p)) with (GetSize p + -1).
    cbn [array_ with_header]. lia.
  - unfold page_wf. rewrite Hszq, Hlen. lia.
Qed.

(** X19: the loop of [CopyFirstFrom] starts at [GetSize()], so it also
    copies the slot after the records, to the slot after that.  On a leaf
    with exactly one free slot, which has room for the new record, this
    write is outside the array: [CopyFirstFrom], and with it
    [MoveLastToFrontOf] into such a leaf, has no defined result. *)
Theorem Leaf_CopyFirstFrom_writes_past_the_free_slot p q (item : KeyType * ValueType) :
  page_wf q -> GetSize q + 1 = Z.of_nat (length (array_ q)) ->
  CopyFirstFrom q item = None /\
  (page_wf p -> 0 < GetSize p -> MoveLastToFrontOf p q = None).
Proof.
  intros Hwfq Hfull. pose proof Hwfq as Hq. unfold page_wf in Hq.
  assert (Hnone : forall it : KeyType * ValueType, CopyFirstFrom q it = None).
  { intros it. unfold CopyFirstFrom.
    replace (Z.to_nat (GetSize q + 1)) with (S (Z.to_nat (GetSize q))) by lia.
    cbn [shift_up]. destruct (Z.geb_spec (GetSize q) 0); [|lia].
    destruct (arr_get_in_range (array_ q) (GetSize q)) as [e He]; [lia|].
    rewrite He. simpl. unfold arr_set.
    destruct (Z.leb_spec 0 (GetSize q + 1)); [|lia].
    destruct (Z.ltb_spec (GetSize q + 1) (Z.of_nat (length (array_ q)))); [lia|].
    reflexivity. }
  split; [apply Hnone|].
  intros Hwfp Hpos. unfold page_wf in Hwfp. unfold MoveLastToFrontOf.
  destruct (arr_get_in_range (array_ p) (GetSize p - 1)) as [it Hit]; [lia|].
  rewrite Hit. simpl. rewrite Hnone. reflexivity.
Qed.

End LeafRecords.

Lemma Leaf_Lookup_finds_the_record_witness :
  comparator_laws int_comparator /\
  Leaf.page_wf leaf_1_3 /\
  strictly_increasing int_comparator (Leaf.keys leaf_1_3) = true /\
  Leaf.Lookup int_comparator leaf_1_3 3
  = Some (Leaf.find_record int_comparator (Leaf.entries leaf_1_3) 3) /\
  (Leaf.GetSize leaf_1_3 = 0 -> Leaf.Lookup int_comparator leaf_1_3 3 = Some None).
Proof.
  assert (Hwf : Leaf.page_wf leaf_1_3) by (unfold Leaf.page_wf; cbn; lia).
  assert (Hs : strictly_increasing int_comparator (Leaf.keys leaf_1_3) = true)
    by reflexivity.
  split; [exact int_comparator_laws|]. split; [exact Hwf|]. split; [exact Hs|].
  exact (Leaf_Lookup_finds_the_record int_comparator int_comparator_laws leaf_1_3 3 Hwf Hs).
Defined.

Lemma Leaf_Insert_then_Lookup_witness :
  comparator_laws int_comparator /\
  Leaf.page_wf leaf_1_3 /\
  Leaf.GetSize leaf_1_3 < Z.of_nat (length (Leaf.array_ leaf_1_3)) /\
  strictly_increasing int_comparator (Leaf.keys leaf_1_3) = true /\
  Leaf.find_record int_comparator (Leaf.entries leaf_1_3) 2 = None /\
  (forall k, Leaf.KeyAt leaf_1_3 (Leaf.GetSize leaf_1_3) = Some k -> int_comparator k 2 <> 0) /\
  exists p', Leaf.Insert int_comparator leaf_1_3 2 20 = Some (Leaf.GetSize leaf_1_3 + 1, p') /\
    Leaf.GetSize p' = Leaf.GetSize leaf_1_3 + 1 /\ Leaf.page_wf p' /\
    strictly_increasing int_comparator (Leaf.keys p') = true /\
    Leaf.Lookup int_comparator p' 2 = Some (Some 20) /\
    forall key', int_comparator 2 key' <> 0 ->
      Leaf.Lookup int_comparator p' key' = Leaf.Lookup int_comparator leaf_1_3 key'.
Proof.
  assert (Hwf : Leaf.page_wf leaf_1_3) by (unfold Leaf.page_wf; cbn; lia).
  assert (Hroom : Leaf.GetSize leaf_1_3 < Z.of_nat (length (Leaf.array_ leaf_1_3)))
    by (cbn; lia).
  assert (Hs : strictly_increasing int_comparator (Leaf.keys leaf_1_3) = true)
    by reflexivity.
  assert (Hnone : Leaf.find_record int_comparator (Leaf.entries leaf_1_3) 2 = None)
    by reflexivity.
  assert (Hfree : forall k, Leaf.KeyAt leaf_1_3 (Leaf.GetSize leaf_1_3) = Some k ->
                    int_comparator k 2 <> 0).
  { intros k Hk. vm_compute in Hk. injection Hk as <-. vm_compute. discriminate. }
  split; [exact int_comparator_laws|]. split; [exact Hwf|]. split; [exact Hroom|]. split; [exact Hs|]. split; [exact Hnone|].
  split; [exact Hfree|].
  exact (Leaf_Insert_then_Lookup int_comparator int_comparator_laws leaf_1_3 2 20
           Hwf Hroom Hs Hnone Hfree).
Defined.

Lemma Leaf_Remove_then_Lookup_witness :
  comparator_laws int_comparator /\
  Leaf.page_wf leaf_1_3 /\
  strictly_increasing int_comparator (Leaf.keys leaf_1_3) = true /\
  Leaf.find_record int_comparator (Leaf.entries leaf_1_3) 3 = Some 30 /\
  exists p', Leaf.RemoveAndDeleteRecord int_comparator leaf_1_3 3
             = Some (int_to_bool (Leaf.GetSize leaf_1_3 - 1), p') /\
    Leaf.GetSize p' = Leaf.GetSize leaf_1_3 - 1 /\ Leaf.page_wf p' /\
    strictly_increasing int_comparator (Leaf.keys p') = true /\
    Leaf.Lookup int_comparator p' 3 = Some None /\
    forall key', int_comparator 3 key' <> 0 ->
      Leaf.Lookup int_comparator p' key' = Leaf.Lookup int_comparator leaf_1_3 key'.
Proof.
  assert (Hwf : Leaf.page_wf leaf_1_3) by (unfold Leaf.page_wf; cbn; lia).
  assert (Hs : strictly_increasing int_comparator (Leaf.keys leaf_1_3) = true)
    by reflexivity.
  assert (Hfound : Leaf.find_record int_comparator (Leaf.entries leaf_1_3) 3 = Some 30)
    by reflexivity.
  split; [exact int_comparator_laws|]. split; [exact Hwf|]. split; [exact Hs|]. split; [exact Hfound|].
  exact (Leaf_Remove_then_Lookup int_comparator int_comparator_laws leaf_1_3 3 30
           Hwf Hs Hfound).
Defined.

Lemma Leaf_MoveHalfTo_splits_the_records_witness :
  Leaf.page_wf leaf_full /\ Leaf.page_wf leaf_1_removed /\
  0 <= GetMinSize (Leaf.header leaf_full) <= Leaf.GetSize leaf_full /\
  Leaf.GetSize leaf_1_removed
    + (Leaf.GetSize leaf_full - GetMinSize (Leaf.header leaf_full))
    <= Z.of_nat (length (Leaf.array_ leaf_1_removed)) /\
  exists p' q', Leaf.MoveHalfTo leaf_full leaf_1_removed = Some (p', q') /\
    Leaf.GetSize p' = GetMinSize (Leaf.header leaf_full) /\
    Leaf.GetSize q' = Leaf.GetSize leaf_1_removed
                      + (Leaf.GetSize leaf_full - GetMinSize (Leaf.header leaf_full)) /\
    Leaf.entries p'
    = take (Z.to_nat (GetMinSize (Leaf.header leaf_full))) (Leaf.entries leaf_full) /\
    Leaf.entries q'
    = Leaf.entries leaf_1_removed
      ++ drop (Z.to_nat (GetMinSize (Leaf.header leaf_full))) (Leaf.entries leaf_full) /\
    Leaf.entries leaf_1_removed ++ Leaf.entries leaf_full
    = take (Z.to_nat (Leaf.GetSize leaf_1_removed)) (Leaf.entries q') ++ Leaf.entries p'
      ++ drop (Z.to_nat (Leaf.GetSize leaf_1_removed)) (Leaf.entries q') /\
    Leaf.page_wf p' /\ Leaf.page_wf q'.
Proof.
  assert (Hwfp : Leaf.page_wf leaf_full) by (unfold Leaf.page_wf; cbn; lia).
  assert (Hwfq : Leaf.page_wf leaf_1_removed) by (unfold Leaf.page_wf; cbn; lia).
  assert (Hm : 0 <= GetMinSize (Leaf.header leaf_full) <= Leaf.GetSize leaf_full)
    by (vm_compute; split; discriminate).
  assert (Hroom : Leaf.GetSize leaf_1_removed
                  + (Leaf.GetSize leaf_full - GetMinSize (Leaf.header leaf_full))
                  <= Z.of_nat (length (Leaf.array_ leaf_1_removed)))
    by (vm_compute; discriminate).
  split; [exact Hwfp|]. split; [exact Hwfq|]. split; [exact Hm|]. split; [exact Hroom|].
  exact (Leaf_MoveHalfTo_splits_the_records leaf_full leaf_1_removed Hwfp Hwfq Hm Hroom).
Defined.

Lemma Leaf_MoveAllTo_appends_the_records_witness :
  Leaf.page_wf leaf_5 /\ Leaf.page_wf leaf_1_3 /\
  Leaf.GetSize leaf_1_3 + Leaf.GetSize leaf_5 <= Z.of_nat (length (Leaf.array_ leaf_1_3)) /\
  exists p' q', Leaf.MoveAllTo leaf_5 leaf_1_3 = Some (p', q') /\
    Leaf.GetSize p' = 0 /\ Leaf.entries p' = [] /\
    Leaf.GetSize q' = Leaf.GetSize leaf_1_3 + Leaf.GetSize leaf_5 /\
    Leaf.entries q' = Leaf.entries leaf_1_3 ++ Leaf.entries leaf_5 /\
    Leaf.page_wf p' /\ Leaf.page_wf q'.
Proof.
  assert (Hwfp : Leaf.page_wf leaf_5) by (unfold Leaf.page_wf; cbn; lia).
  assert (Hwfq : Leaf.page_wf leaf_1_3) by (unfold Leaf.page_wf; cbn; lia).
  assert (Hroom : Leaf.GetSize leaf_1_3 + Leaf.GetSize leaf_5
                  <= Z.of_nat (length (Leaf.array_ leaf_1_3))) by (cbn; lia).
  split; [exact Hwfp|]. split; [exact Hwfq|]. split; [exact Hroom|].
  exact (Leaf_MoveAllTo_appends_the_records leaf_5 leaf_1_3 Hwfp Hwfq Hroom).
Defined.

Lemma Leaf_MoveFirstToEndOf_moves_the_first_record_witness :
  Leaf.page_wf leaf_5 /\ Leaf.page_wf leaf_1_3 /\ 0 < Leaf.GetSize leaf_5 /\
  Leaf.GetSize leaf_1_3 < Z.of_nat (length (Leaf.array_ leaf_1_3)) /\
  exists p' q', Leaf.MoveFirstToEndOf leaf_5 leaf_1_3 = Some (p', q') /\
    Leaf.GetSize p' = Leaf.GetSize leaf_5 - 1 /\
    Leaf.GetSize q' = Leaf.GetSize leaf_1_3 + 1 /\
    Leaf.entries q' = Leaf.entries leaf_1_3 ++ take 1 (Leaf.entries leaf_5) /\
    Leaf.entries p' = drop 1 (Leaf.entries leaf_5) /\
    Leaf.entries q' ++ Leaf.entries p' = Leaf.entries leaf_1_3 ++ Leaf.entries leaf_5 /\
    Leaf.page_wf p' /\ Leaf.page_wf q'.
Proof.
  assert (Hwfp : Leaf.page_wf leaf_5) by (unfold Leaf.page_wf; cbn; lia).
  assert (Hwfq : Leaf.page_wf leaf_1_3) by (unfold Leaf.page_wf; cbn; lia).
  assert (Hpos : 0 < Leaf.GetSize leaf_5) by (cbn; lia).
  assert (Hroom : Leaf.GetSize leaf_1_3 < Z.of_nat (length (Leaf.array_ leaf_1_3)))
    by (cbn; lia).
  split; [exact Hwfp|]. split; [exact Hwfq|]. split; [exact Hpos|]. split; [exact Hroom|].
  exact (Leaf_MoveFirstToEndOf_moves_the_first_record leaf_5 leaf_1_3 Hwfp Hwfq Hpos Hroom).
Defined.

Lemma Leaf_MoveLastToFrontOf_moves_the_last_record_witness :
  Leaf.page_wf leaf_1_3 /\ Leaf.page_wf leaf_5 /\ 0 < Leaf.GetSize leaf_1_3 /\
  Leaf.GetSize leaf_5 + 1 < Z.of_nat (length (Leaf.array_ leaf_5)) /\
  exists p' q', Leaf.MoveLastToFrontOf leaf_1_3 leaf_5 = Some (p', q') /\
    Leaf.GetSize p' = Leaf.GetSize leaf_1_3 - 1 /\
    Leaf.GetSize q' = Leaf.GetSize leaf_5 + 1 /\
    Leaf.entries p' = take (Z.to_nat (Leaf.GetSize leaf_1_3 - 1)) (Leaf.entries leaf_1_3) /\
    Leaf.entries q'
    = drop (Z.to_nat (Leaf.GetSize leaf_1_3 - 1)) (Leaf.entries leaf_1_3)
      ++ Leaf.entries leaf_5 /\
    Leaf.entries p' ++ Leaf.entries q' = Leaf.entries leaf_1_3 ++ Leaf.entries leaf_5 /\
    Leaf.page_wf p' /\ Leaf.page_wf q'.
Proof.
  assert (Hwfp : Leaf.page_wf leaf_1_3) by (unfold Leaf.page_wf; cbn; lia).
  assert (Hwfq : Leaf.page_wf leaf_5) by (unfold Leaf.page_wf; cbn; lia).
  assert (Hpos : 0 < Leaf.GetSize leaf_1_3) by (cbn; lia).
  assert (Hroom : Leaf.GetSize leaf_5 + 1 < Z.of_nat (length (Leaf.array_ leaf_5)))
    by (cbn; lia).
  split; [exact Hwfp|]. split; [exact Hwfq|]. split; [exact Hpos|]. split; [exact Hroom|].
  exact (Leaf_MoveLastToFrontOf_moves_the_last_record leaf_1_3 leaf_5 Hwfp Hwfq Hpos Hroom).
Defined.

Lemma Leaf_CopyFirstFrom_writes_past_the_free_slot_witness :
  Leaf.page_wf leaf_1_3_5 /\
  Leaf.GetSize leaf_1_3_5 + 1 = Z.of_nat (length (Leaf.array_ leaf_1_3_5)) /\
  Leaf.CopyFirstFrom leaf_1_3_5 (0, 5) = None /\
  (Leaf.page_wf leaf_1 -> 0 < Leaf.GetSize leaf_1 ->
   Leaf.MoveLastToFrontOf leaf_1 leaf_1_3_5 = None).
Proof.
  assert (Hwfq : Leaf.page_wf leaf_1_3_5) by (unfold Leaf.page_wf; cbn; lia).
  assert (Hfull : Leaf.GetSize leaf_1_3_5 + 1 = Z.of_nat (length (Leaf.array_ leaf_1_3_5)))
    by reflexivity.
  split; [exact Hwfq|]. split; [exact Hfull|].
  exact (Leaf_CopyFirstFrom_writes_past_the_free_slot leaf_1 leaf_1_3_5 (0, 5) Hwfq Hfull).
Defined.

(** ** Internal pages: children, insertions and removals *)

Section InternalEntries.
Import Internal.
Context {KeyType : Type}.
Variable comparator : KeyType -> KeyType -> Z.
Implicit Types (p : BPlusTreeInternalPage KeyType) (key : KeyType).

(** Case analysis on the integer comparisons of the goal. *)
Ltac case_bounds :=
  repeat match goal with
         | |- context [?a <=? ?b] => destruct (Z.leb_spec a b)
         | |- context [?a <? ?b] => destruct (Z.ltb_spec a b)
         | |- context [?a =? ?b] => destruct (Z.eqb_spec a b)
         end; simpl.


Lemma Internal_shift_left_Leaf fuel : forall (a : list (KeyType * page_id_t)) i size,
  Internal.shift_left fuel a i size = Leaf.shift_left fuel a i size.
Proof.
  induction fuel as [|fuel IH]; intros a i size; simpl; [reflexivity|].
  destruct (i <? size); [|reflexivity].
  destruct (arr_get a (i + 1)) as [e|]; [|reflexivity]. simpl.
  destruct (arr_set a i e) as [a'|]; [|reflexivity]. simpl. apply IH.
Qed.




(** X22: [Remove(index)] takes the entry at [index] out and moves the
    entries behind it down by one.  It does not check the index: with
    any index at or above the last one in use, it is the last entry that
    goes. *)
Theorem Internal_Remove_deletes_the_entry p (index : Z) :
  1 <= GetSize p <= Z.of_nat (length (array_ p)) -> 0 <= index ->
  exists p', Remove p index = Some p' /\ GetSize p' = GetSize p - 1 /\
    (index < GetSize p -> entries p' = delete (Z.to_nat index) (entries p)) /\
    (GetSize p - 1 <= index ->
     entries p' = take (Z.to_nat (GetSize p - 1)) (entries p)).
Proof.
  intros Hwf Hindex. unfold Remove.
  set (p1 := with_header (IncreaseSize (-1) (header p)) p).
  assert (Hsz1 : GetSize p1 = GetSize p - 1) by reflexivity.
  change (array_ p1) with (array_ p). rewrite Internal_shift_left_Leaf.
  assert (HlenE : length (entries p) = Z.to_nat (GetSize p))
    by (unfold entries; rewrite length_take; lia).
  destruct (Z_lt_le_dec index (GetSize p - 1)) as [Hlt|Hge].
  - destruct (shift_left_spec (Z.to_nat (GetSize p1)) (array_ p) index (GetSize p1))
      as (a' & Hshift & Hlen & Hget); try lia.
    rewrite Hshift. simpl. eexists. split; [reflexivity|]. split; [reflexivity|].
    split; [|intros Habove; lia]. intros _.
    unfold entries at 1. change (GetSize (with_array a' p1)) with (GetSize p - 1).
    cbn [array_ with_array]. apply take_lookup_eq.
    + rewrite length_delete by (apply lookup_lt_is_Some; lia). lia.
    + intros j Hj. rewrite <- arr_get_of_nat, Hget by lia. rewrite Hsz1.
      unfold entries. case_bounds; try lia.
      * rewrite list_lookup_delete_ge by lia. rewrite lookup_take_lt by lia.
        replace (Z.of_nat j + 1) with (Z.of_nat (S j)) by lia. apply arr_get_of_nat.
      * rewrite list_lookup_delete_lt by lia. rewrite lookup_take_lt by lia.
        apply arr_get_of_nat.
  - assert (Hshift : Leaf.shift_left (Z.to_nat (GetSize p1)) (array_ p) index (GetSize p1)
                     = Some (array_ p)).
    { destruct (Z.to_nat (GetSize p1)); simpl;
        (destruct (Z.ltb_spec index (GetSize p1)); [lia|reflexivity]). }
    rewrite Hshift. simpl. eexists. split; [reflexivity|]. split; [reflexivity|].
    assert (Hent : entries (with_array (array_ p) p1)
                   = take (Z.to_nat (GetSize p - 1)) (entries p)).
    { unfold entries. change (GetSize (with_array (array_ p) p1)) with (GetSize p - 1).
      cbn [array_ with_array]. rewrite take_take. f_equal. lia. }
    split; [|intros _; exact Hent]. intros Hin. rewrite Hent.
    assert (index = GetSize p - 1) as -> by lia.
    rewrite delete_take_drop. rewrite (drop_ge (entries p)) by lia.
    rewrite app_nil_r. reflexivity.
Qed.

(** X23: [PopulateNewRoot] on a page of at least two slots makes a root
    with two children, whatever the page held before; [Lookup] then sends
    every key that is below [new_key] to [old_value] and every other key
    to [new_value]. *)
Theorem Internal_PopulateNewRoot_routes_keys p
    (old_value : page_id_t) (new_key : KeyType) (new_value : page_id_t) :
  2 <= Z.of_nat (length (array_ p)) ->
  exists p', PopulateNewRoot p old_value new_key new_value = Some p' /\
    GetSize p' = 2 /\ map snd (entries p') = [old_value; new_value] /\
    KeyAt p' 1 = Some new_key /\
    forall key,
      Lookup comparator p' key
      = Some (if comparator new_key key >? 0 then old_value else new_value).
Proof.
  intros Hlen. unfold PopulateNewRoot.
  destruct (arr_get_in_range (array_ p) 0) as [e0 He0]; [lia|]. rewrite He0. simpl.
  rewrite arr_set_in_range by lia. simpl.
  rewrite arr_set_in_range by (rewrite length_insert; lia). simpl.
  set (a := <[Z.to_nat 1 := (new_key, new_value)]>
              (<[Z.to_nat 0 := (e0.1, old_value)]> (array_ p))).
  assert (Ha0 : arr_get a 0 = Some (e0.1, old_value)).
  { unfold a. rewrite arr_get_set_ne by lia. apply arr_get_set_eq. lia. }
  assert (Ha1 : arr_get a 1 = Some (new_key, new_value)).
  { unfold a. apply arr_get_set_eq. rewrite length_insert. lia. }
  eexists. split; [reflexivity|]. split; [reflexivity|]. split; [|split].
  - unfold entries. change (GetSize _) with 2. cbn [array_ with_header with_array].
    change (Z.to_nat 2) with 2%nat. unfold arr_get in Ha0, Ha1. simpl in Ha0, Ha1.
    change (Z.to_nat 0) with 0%nat in Ha0. change (Z.to_nat 1) with 1%nat in Ha1.
    destruct a as [|x [|y rest]]; try discriminate.
    simpl in Ha0, Ha1. injection Ha0 as ->. injection Ha1 as ->. reflexivity.
  - unfold KeyAt. cbn [array_ with_header with_array]. rewrite Ha1. reflexivity.
  - intros key. unfold Lookup. change (GetSize _) with 2.
    change (Z.to_nat 2) with 2%nat. cbn [Lookup_loop].
    change (1 <=? 2 - 1) with true. cbv iota.
    change (1 + Z.shiftr (2 - 1 - 1) 1) with 1.
    unfold KeyAt at 1. cbn [array_ with_header with_array]. rewrite Ha1. simpl.
    destruct (comparator new_key key >? 0).
    + change (1 - 1) with 0. change (0 >=? 0) with true. cbv iota.
      unfold ValueAt. cbn [array_ with_header with_array]. rewrite Ha0. reflexivity.
    + change (1 + 1 - 1) with 1. change (1 >=? 0) with true. cbv iota.
      unfold ValueAt. cbn [array_ with_header with_array]. rewrite Ha1. reflexivity.
Qed.

End InternalEntries.



Lemma Internal_Remove_deletes_the_entry_witness :
  1 <= Internal.GetSize internal_5_9 <= Z.of_nat (length (Internal.array_ internal_5_9)) /\
  0 <= 1 /\
  exists p', Internal.Remove internal_5_9 1 = Some p' /\
    Internal.GetSize p' = Internal.GetSize internal_5_9 - 1 /\
    (1 < Internal.GetSize internal_5_9 ->
     Internal.entries p' = delete (Z.to_nat 1) (Internal.entries internal_5_9)) /\
    (Internal.GetSize internal_5_9 - 1 <= 1 ->
     Internal.entries p'
     = take (Z.to_nat (Internal.GetSize internal_5_9 - 1)) (Internal.entries internal_5_9)).
Proof.
  assert (Hwf : 1 <= Internal.GetSize internal_5_9
                <= Z.of_nat (length (Internal.array_ internal_5_9))) by (cbn; lia).
  assert (Hindex : 0 <= 1) by lia.
  split; [exact Hwf|]. split; [exact Hindex|].
  exact (Internal_Remove_deletes_the_entry internal_5_9 1 Hwf Hindex).
Defined.

Lemma Internal_PopulateNewRoot_routes_keys_witness :
  2 <= Z.of_nat (length (Internal.array_ internal_blank)) /\
  exists p', Internal.PopulateNewRoot internal_blank 100 5 101 = Some p' /\
    Internal.GetSize p' = 2 /\ map snd (Internal.entries p') = [100; 101] /\
    Internal.KeyAt p' 1 = Some 5 /\
    forall key,
      Internal.Lookup int_comparator p' key
      = Some (if int_comparator 5 key >? 0 then 100 else 101).
Proof.
  assert (Hlen : 2 <= Z.of_nat (length (Internal.array_ internal_blank))) by (cbn; lia).
  split; [exact Hlen|].
  exact (Internal_PopulateNewRoot_routes_keys int_comparator internal_blank 100 5 101 Hlen).
Defined.

(** ** Page guards on a pool *)

Section GuardPins.
Import BPM Guard PageGuard.
Variable PAGE_SIZE : nat.

(** X24: dropping a guard that owns a pin gives back exactly that pin.  On
    a reachable pool, for a guard on a pinned frame whose page the page
    table maps to that frame, [Drop] lowers the pin count of the frame by
    one, or-s the dirty flag of the guard into the frame, touches no other
    frame, and empties the guard, so that a second [Drop] (the destructor
    after an explicit [Drop]) changes nothing. *)
Theorem Drop_gives_back_one_pin b (g : BasicPageGuard) (f : Z) page :
  reachable PAGE_SIZE b ->
  bpm_ g = Some tt -> page_ g = Some f ->
  arr_get (pages_ b) f = Some page ->
  page_table_ b !! Frame.page_id_ page = Some f ->
  0 < Frame.pin_count_ page ->
  exists g' b', Drop g b = Some (g', b') /\
    bpm_ g' = None /\ page_ g' = None /\
    arr_get (pages_ b') f
    = Some {| Frame.data_ := Frame.data_ page;
              Frame.page_id_ := Frame.page_id_ page;
              Frame.pin_count_ := Frame.pin_count_ page - 1;
              Frame.is_dirty_ := Frame.is_dirty_ page || is_dirty_ g |} /\
    (forall k, 0 <= k -> k <> f -> arr_get (pages_ b') k = arr_get (pages_ b) k) /\
    page_table_ b' = page_table_ b /\
    Drop g' b' = Some (g', b') /\ destroy g' b' = Some b'.
Proof.
  intros Hr Hbpm Hpage Hget Ht Hpos.
  pose proof (reachable_wf PAGE_SIZE b Hr) as Hwf.
  pose proof (UnpinPage_spec b (Frame.page_id_ page) (is_dirty_ g) Hwf) as Hspec.
  rewrite Ht in Hspec. destruct Hspec as (page' & Hget' & _ & Hspec).
  rewrite Hget in Hget'. injection Hget' as <-.
  destruct (Z.eqb_spec (Frame.pin_count_ page) 0) as [H0|_]; [lia|].
  pose proof (arr_get_Some _ _ _ Hget) as Hf.
  unfold Drop. rewrite Hbpm, Hpage, Hget. simpl. rewrite Hspec. simpl.
  eexists _, _. split; [reflexivity|]. split; [reflexivity|]. split; [reflexivity|].
  split; [apply arr_get_set_eq; exact Hf|]. split; [|split; [reflexivity|]].
  - intros k Hk Hne. apply arr_get_set_ne; lia.
  - split; reflexivity.
Qed.

End GuardPins.

Lemma Drop_gives_back_one_pin_witness :
  BPM.reachable 4 pool_pinned_twice /\
  Guard.bpm_ Guard.guard_0 = Some tt /\ Guard.page_ Guard.guard_0 = Some 0 /\
  arr_get (BPM.pages_ pool_pinned_twice) 0
  = Some {| Frame.data_ := zero_data 4; Frame.page_id_ := 0;
            Frame.pin_count_ := 2; Frame.is_dirty_ := false |} /\
  BPM.page_table_ pool_pinned_twice !! 0 = Some 0 /\
  0 < 2 /\
  exists g' b', PageGuard.Drop Guard.guard_0 pool_pinned_twice = Some (g', b') /\
    Guard.bpm_ g' = None /\ Guard.page_ g' = None /\
    arr_get (BPM.pages_ b') 0
    = Some {| Frame.data_ := zero_data 4; Frame.page_id_ := 0;
              Frame.pin_count_ := 2 - 1;
              Frame.is_dirty_ := false || Guard.is_dirty_ Guard.guard_0 |} /\
    (forall k, 0 <= k -> k <> 0 ->
       arr_get (BPM.pages_ b') k = arr_get (BPM.pages_ pool_pinned_twice) k) /\
    BPM.page_table_ b' = BPM.page_table_ pool_pinned_twice /\
    PageGuard.Drop g' b' = Some (g', b') /\ PageGuard.destroy g' b' = Some b'.
Proof.
  assert (Hr : BPM.reachable 4 pool_pinned_twice).
  { exists 2, [], history_pinned_twice. split; [lia|vm_compute; reflexivity]. }
  assert (Hbpm : Guard.bpm_ Guard.guard_0 = Some tt) by reflexivity.
  assert (Hpage : Guard.page_ Guard.guard_0 = Some 0) by reflexivity.
  assert (Hget : arr_get (BPM.pages_ pool_pinned_twice) 0
                 = Some {| Frame.data_ := zero_data 4; Frame.page_id_ := 0;
                           Frame.pin_count_ := 2; Frame.is_dirty_ := false |})
    by reflexivity.
  assert (Ht : BPM.page_table_ pool_pinned_twice !! 0 = Some 0) by reflexivity.
  assert (Hpos : 0 < 2) by lia.
  split; [exact Hr|]. split; [exact Hbpm|]. split; [exact Hpage|]. split; [exact Hget|].
  split; [exact Ht|]. split; [exact Hpos|].
  exact (Drop_gives_back_one_pin 4 pool_pinned_twice Guard.guard_0 0 _
           Hr Hbpm Hpage Hget Ht Hpos).
Defined.

(** ** Flushing one page *)

(** X25: on a reachable pool [FlushPage] returns [false] and changes
    nothing exactly when the page is not resident (the invalid page id
    never is); otherwise it returns [true], the bytes of the page are
    written to disk whether or not the page is dirty, the frame is clean
    afterwards, and its pin count, like everything else, is as before. *)
Theorem FlushPage_contract (PAGE_SIZE : nat) (b : BPM.BufferPoolManager) (id : page_id_t) :
  BPM.reachable PAGE_SIZE b ->
  BPM.page_table_ b !! INVALID_PAGE_ID = None /\
  match BPM.page_table_ b !! id with
  | None => BPM.FlushPage id b = Some (false, b)
  | Some f =>
      exists page, arr_get (BPM.pages_ b) f = Some page /\ Frame.page_id_ page = id /\
        BPM.FlushPage id b
        = Some (true,
            BPM.with_pages
              (<[Z.to_nat f := {| Frame.data_ := Frame.data_ page;
                                  Frame.page_id_ := id;
                                  Frame.pin_count_ := Frame.pin_count_ page;
                                  Frame.is_dirty_ := false |}]> (BPM.pages_ b))
              (BPM.with_disk (WritePage id (Frame.data_ page) (BPM.disk_manager_ b)) b))
  end.
Proof.
  intros Hr. destruct (reachable_invariants PAGE_SIZE b Hr) as (Hwf & Hp & _).
  pose proof Hp as (_ & _ & _ & _ & Hinv & _). split; [exact Hinv|].
  pose proof Hwf as (Hn & Hlen & _ & _ & _ & Htab).
  unfold BPM.FlushPage.
  destruct (BPM.page_table_ b !! id) as [f|] eqn:Et.
  - destruct (Z.eqb_spec id INVALID_PAGE_ID) as [->|Hvalid]; [congruence|].
    destruct (Htab id f Et) as (Hf & page & Hpage & Hid).
    exists page. split; [exact Hpage|]. split; [exact Hid|].
    rewrite Hpage. simpl. rewrite arr_set_in_range by lia. simpl.
    unfold Frame.set_is_dirty. rewrite Hid. reflexivity.
  - destruct (id =? INVALID_PAGE_ID); reflexivity.
Qed.

Lemma FlushPage_contract_witness :
  BPM.reachable 4 pool_dirty /\
  BPM.page_table_ pool_dirty !! INVALID_PAGE_ID = None /\
  match BPM.page_table_ pool_dirty !! 0 with
  | None => BPM.FlushPage 0 pool_dirty = Some (false, pool_dirty)
  | Some f =>
      exists page, arr_get (BPM.pages_ pool_dirty) f = Some page /\
        Frame.page_id_ page = 0 /\
        BPM.FlushPage 0 pool_dirty
        = Some (true,
            BPM.with_pages
              (<[Z.to_nat f := {| Frame.data_ := Frame.data_ page;
                                  Frame.page_id_ := 0;
                                  Frame.pin_count_ := Frame.pin_count_ page;
                                  Frame.is_dirty_ := false |}]> (BPM.pages_ pool_dirty))
              (BPM.with_disk (WritePage 0 (Frame.data_ page) (BPM.disk_manager_ pool_dirty))
                 pool_dirty))
  end.
Proof.
  assert (Hr : BPM.reachable 4 pool_dirty).
  { exists 2, [], history_dirty. split; [lia|vm_compute; reflexivity]. }
  split; [exact Hr|]. exact (FlushPage_contract 4 pool_dirty 0 Hr).
Defined.
